(** * EphReader: the .eph container codec, its query engine, the refit
      pipeline, the DAF byte-order probe and the Chiron orbit integrator

    A shallow embedding of the Python sources

      - [tools/spice2eph.py]   (class [SPICEConverter]: refit and encoder)
      - [tools/eph_reader.py]  (class [EphReader]: query engine)
      - [tools/raw_spk_reader.py] ([read_chebyshev_intervals_raw])
      - [tools/integrate_chiron_hybrid.py], [tools/integrate_chiron_orbit.py]

    Conventions of the model.
      - Python integers are [Z]; the fixed-width fields that [struct] packs
        are range-checked where [struct.pack] raises [struct.error].
      - A file is a [list byte]; writes are concatenation, [seek]+[read] is
        [take]/[drop].
      - In the codec and the query engine an IEEE double is modelled by the
        rational number it denotes ([Q]); comparisons are exact, rounding of
        arithmetic is not modelled. The encoder only copies doubles, so it is
        parametric in their type and in [struct.pack('<d', _)].
      - In the integrator, where [sqrt] and [sin] occur, doubles are
        modelled by real numbers ([R]).
      - Python exceptions are values of [exn]; a [while] loop is given fuel
        and is shown never to exhaust it. *)

From Stdlib Require Import ZArith QArith Lqa Lia List Bool String Ascii.
From Stdlib Require Import DecimalString DecimalFacts DecimalPos Reals Lra RNsatz.
From Stdlib.Strings Require Import Byte.
From stdpp Require Import base option list gmap sorting strings.
Import ListNotations.

Local Open Scope Z_scope.

(** ** Python's [struct] module on byte lists *)

Module Struct.

Definition byte_of_Z (z : Z) : byte :=
  default x00 (Byte.of_N (Z.to_N (z mod 256))).

Definition Z_of_byte (b : byte) : Z := Z.of_N (Byte.to_N b).

(** [n] little-endian bytes of [z]. *)
Fixpoint le_bytes (n : nat) (z : Z) : list byte :=
  match n with
  | O => []
  | S n' => byte_of_Z z :: le_bytes n' (z / 256)
  end.

Fixpoint le_to_Z (bs : list byte) : Z :=
  match bs with
  | [] => 0
  | b :: bs' => Z_of_byte b + 256 * le_to_Z bs'
  end.

Definition be_to_Z (bs : list byte) : Z := le_to_Z (rev bs).

(** Two's-complement reading of a [w]-bit pattern. *)
Definition to_signed (w : Z) (z : Z) : Z :=
  if z <? 2 ^ (w - 1) then z else z - 2 ^ w.

(** [struct.pack('<I', v)]: [struct.error] outside [0, 2^32). *)
Definition pack_I (v : Z) : option (list byte) :=
  if (0 <=? v) && (v <? 2 ^ 32) then Some (le_bytes 4 v) else None.

(** [struct.pack('<i', v)]: [struct.error] outside [-2^31, 2^31). *)
Definition pack_i (v : Z) : option (list byte) :=
  if (- 2 ^ 31 <=? v) && (v <? 2 ^ 31) then Some (le_bytes 4 (v mod 2 ^ 32))
  else None.

(** [struct.pack('<Q', v)]: [struct.error] outside [0, 2^64). *)
Definition pack_Q (v : Z) : option (list byte) :=
  if (0 <=? v) && (v <? 2 ^ 64) then Some (le_bytes 8 v) else None.

Inductive endian := Little | Big.

(** [struct.unpack(f'{endian}i', bs)[0]]: [struct.error] unless [bs] has
    exactly four bytes. *)
Definition unpack_i (e : endian) (bs : list byte) : option Z :=
  if (length bs =? 4)%nat then
    Some (to_signed 32 (match e with
                        | Little => le_to_Z bs
                        | Big => be_to_Z bs
                        end))
  else None.

(** [a == b] on [bytes]. *)
Fixpoint forallb2 {A} (eqb : A → A → bool) (a b : list A) : bool :=
  match a, b with
  | [], [] => true
  | x :: a', y :: b' => eqb x y && forallb2 eqb a' b'
  | _, _ => false
  end.

(** [bs.ljust(n, b'\x00')] *)
Definition ljust (n : nat) (bs : list byte) : list byte :=
  bs ++ replicate (n - length bs) x00.

(** Python slice [bs[a:b]] for [0 <= a <= b]. *)
Definition slice (a b : nat) (bs : list byte) : list byte :=
  take (b - a) (drop a bs).

End Struct.

(** ** Body names ([BODY_NAMES] of spice2eph.py) *)

Definition BODY_NAMES : gmap Z string :=
  list_to_map
    [ (0, "SSB"); (1, "Mercury"); (2, "Venus"); (3, "EMB"); (4, "Mars");
      (5, "Jupiter"); (6, "Saturn"); (7, "Uranus"); (8, "Neptune");
      (9, "Pluto"); (10, "Sun"); (199, "Mercury"); (299, "Venus");
      (399, "Earth"); (499, "Mars"); (599, "Jupiter"); (699, "Saturn");
      (799, "Uranus"); (899, "Neptune"); (999, "Pluto"); (301, "Moon") ]%string.

(** [str(n)] for a Python integer. *)
Definition py_str (n : Z) : string := NilZero.string_of_int (Z.to_int n).

(** [BODY_NAMES.get(body_id, f"Body{body_id}")] *)
Definition body_name_of (body_id : Z) : string :=
  default ("Body" +:+ py_str body_id) (BODY_NAMES !! body_id).

(** [s.encode('ascii')]: [UnicodeEncodeError] on a code point above 127. *)
Definition encode_ascii (s : string) : option (list byte) :=
  let bs := list_byte_of_string s in
  if forallb (fun b => Struct.Z_of_byte b <? 128) bs then Some bs else None.

(** [body_name.encode('ascii')[:24].ljust(24, b'\x00')] *)
Definition name_bytes (body_name : string) : option (list byte) :=
  bs ← encode_ascii body_name; Some (Struct.ljust 24 (take 24 bs)).

(** ** The encoder: [SPICEConverter._write_eph_file] (spice2eph.py) *)

Module EphWriter.

Definition MAGIC : list byte := ["E"; "P"; "H"; x00]%byte.
Definition VERSION : Z := 1.
Definition HEADER_SIZE : Z := 512.
Definition BODY_ENTRY_SIZE : Z := 36.
Definition INTERVAL_ENTRY_SIZE : Z := 16.

(** [enumerate(l)] *)
Definition enumerate {A} (l : list A) : list (nat * A) := imap (λ i a, (i, a)) l.

(** [sorted(d.keys())] for a dict with integer keys. *)
Definition sorted_keys {A} (d : gmap Z A) : list Z :=
  merge_sort Z.le (map_to_list d).*1.

Section Encoder.

(** The type of doubles and [struct.pack('<d', _)]. *)
Context {F : Type} (pack_d : F → list byte).

(** One fitted block: the dict [{'x': [...], 'y': [...], 'z': [...]}]. *)
Record Coeffs := { x_coeffs : list F; y_coeffs : list F; z_coeffs : list F }.

(** [struct.pack(f'<{len(v)}d', *v)] *)
Definition pack_ds (v : list F) : list byte := concat (map pack_d v).

(** [struct.pack('<4sIIIdddI', MAGIC, VERSION, ...)]: 44 bytes. *)
Definition pack_header (num_bodies num_intervals : Z)
    (interval_days start_jd end_jd : F) (coeff_degree : Z) : option (list byte) :=
  v ← Struct.pack_I VERSION;
  nb ← Struct.pack_I num_bodies;
  ni ← Struct.pack_I num_intervals;
  cd ← Struct.pack_I coeff_degree;
  Some (MAGIC ++ v ++ nb ++ ni
        ++ pack_d interval_days ++ pack_d start_jd ++ pack_d end_jd ++ cd).

(** [coeffs_per_component * 3 * 8] with [coeffs_per_component = coeff_degree + 1]. *)
Definition bytes_per_interval (coeff_degree : Z) : Z :=
  let coeffs_per_component := coeff_degree + 1 in
  let coeffs_per_interval := coeffs_per_component * 3 in
  coeffs_per_interval * 8.

(** [data_start = HEADER_SIZE + body_table_size + interval_index_size] *)
Definition data_start (num_bodies num_intervals : Z) : Z :=
  let body_table_size := num_bodies * BODY_ENTRY_SIZE in
  let interval_index_size := num_intervals * INTERVAL_ENTRY_SIZE in
  HEADER_SIZE + body_table_size + interval_index_size.

(** [data_offset = data_start + i * num_intervals * bytes_per_interval] *)
Definition data_offset_of (num_bodies num_intervals coeff_degree : Z) (i : nat) : Z :=
  data_start num_bodies num_intervals
  + Z.of_nat i * num_intervals * bytes_per_interval coeff_degree.

(** One iteration of the body-table loop:
    [struct.pack('<i24sQ', body_id, name_bytes, data_offset)]. *)
Definition body_entry (num_bodies num_intervals coeff_degree : Z)
    (ib : nat * Z) : option (list byte) :=
  let '(i, body_id) := ib in
  let body_name := body_name_of body_id in
  nm ← name_bytes body_name;
  let data_offset := data_offset_of num_bodies num_intervals coeff_degree i in
  idb ← Struct.pack_i body_id;
  off ← Struct.pack_Q data_offset;
  Some (idb ++ nm ++ off).

(** [struct.pack('<dd', jd_start, jd_end)] *)
Definition interval_entry (iv : F * F) : list byte := pack_d iv.1 ++ pack_d iv.2.

(** The three [f.write] calls for one block. *)
Definition coeff_block (c : Coeffs) : list byte :=
  pack_ds (x_coeffs c) ++ pack_ds (y_coeffs c) ++ pack_ds (z_coeffs c).

(** All blocks of one body ([for coeffs in coeffs_list]). *)
Definition body_data (coeffs_list : list Coeffs) : list byte :=
  concat (map coeff_block coeffs_list).

(** The bytes written to [output_path]; [None] when [struct.pack] or
    [encode] raises before the file is complete. *)
Definition _write_eph_file (all_coeffs : gmap Z (list Coeffs))
    (intervals : list (F * F)) (coeff_degree : Z)
    (interval_days start_jd end_jd : F) : option (list byte) :=
  let num_bodies := Z.of_nat (size all_coeffs) in
  let num_intervals := Z.of_nat (length intervals) in
  header ← pack_header num_bodies num_intervals interval_days start_jd end_jd
             coeff_degree;
  let header := header ++ replicate (Z.to_nat (HEADER_SIZE - Z.of_nat (length header))) x00 in
  table ← mapM (body_entry num_bodies num_intervals coeff_degree)
             (enumerate (sorted_keys all_coeffs));
  let index := concat (map interval_entry intervals) in
  let data := concat (map (λ body_id, body_data (default [] (all_coeffs !! body_id)))
                          (sorted_keys all_coeffs)) in
  Some (header ++ concat table ++ index ++ data).

(** What [convert] hands to the encoder: every body has one block per
    interval and every component has [coeff_degree + 1] coefficients. *)
Definition block_shape (coeff_degree : Z) (c : Coeffs) : bool :=
  (Z.of_nat (length (x_coeffs c)) =? coeff_degree + 1)
  && (Z.of_nat (length (y_coeffs c)) =? coeff_degree + 1)
  && (Z.of_nat (length (z_coeffs c)) =? coeff_degree + 1).

Definition matrix_shape (all_coeffs : gmap Z (list Coeffs))
    (num_intervals : nat) (coeff_degree : Z) : bool :=
  forallb (λ kv, (length kv.2 =? num_intervals)%nat
                 && forallb (block_shape coeff_degree) kv.2)
          (map_to_list all_coeffs).

End Encoder.

Arguments Coeffs : clear implicits.

End EphWriter.

(** ** The query engine: class [EphReader] (eph_reader.py) *)

Module EphReader.

(** The exceptions the query path can raise. *)
Inductive exn :=
| OutOfRange         (* ValueError: JD outside ephemeris range *)
| BodyNotFound       (* ValueError: Body not found *)
| BufferSizeError    (* np.frombuffer: size not a multiple of 8 *)
| ReshapeError       (* ndarray.reshape: size mismatch *)
| ZeroDivisionError
| IndexError
| InvalidMagic       (* ValueError: Invalid magic number *)
| StructError        (* struct.error: short buffer *)
| UnicodeDecodeError.

(** Result of a call: a value, an exception, or a loop out of fuel. *)
Inductive outcome (A : Type) :=
| Return (a : A)
| Raise (e : exn)
| Timeout.
Arguments Return {A} a.
Arguments Raise {A} e.
Arguments Timeout {A}.

#[global] Instance outcome_bind : MBind outcome := λ A B f m,
  match m with
  | Return a => f a
  | Raise e => Raise e
  | Timeout => Timeout
  end.

(** [self.header] *)
Record Header := {
  version : Z;
  num_bodies : Z;
  num_intervals : Z;
  interval_days : Q;
  start_jd : Q;
  end_jd : Q;
  coeff_degree : Z;
}.

(** A value of [self.bodies]. *)
Record Body := { name : string; data_offset : Z }.

(** An open reader: the file behind [self.filepath] and what [__init__]
    parsed from it. *)
Record Reader := {
  file : list byte;
  header : Header;
  bodies : gmap Z Body;
  intervals : list (Q * Q);
}.

(** [a < b] on doubles. *)
Definition Qltb (a b : Q) : bool := negb (Qle_bool b a).

(** [l[i]] with Python's negative indices. *)
Definition py_index {A} (l : list A) (i : Z) : option A :=
  if 0 <=? i then l !! Z.to_nat i
  else if 0 <=? Z.of_nat (length l) + i then l !! Z.to_nat (Z.of_nat (length l) + i)
  else None.

(** The [while left <= right] loop of [_find_interval]; the [else] branch
    is the [raise] after the loop, whose message indexes [intervals[0]]
    and [intervals[-1]]. *)
Fixpoint find_loop (fuel : nat) (ivs : list (Q * Q)) (jd : Q) (left right : Z)
    : outcome Z :=
  match fuel with
  | O => Timeout
  | S fuel' =>
      if left <=? right then
        let mid := (left + right) `div` 2 in
        match py_index ivs mid with
        | None => Raise IndexError
        | Some (start, end_) =>
            if Qltb jd start then find_loop fuel' ivs jd left (mid - 1)
            else if Qltb end_ jd then find_loop fuel' ivs jd (mid + 1) right
            else Return mid
        end
      else
        match ivs with
        | [] => Raise IndexError
        | _ => Raise OutOfRange
        end
  end.

Definition _find_interval (self : Reader) (jd : Q) : outcome Z :=
  let ivs := intervals self in
  find_loop (S (length ivs)) ivs jd 0 (Z.of_nat (length ivs) - 1).

(** [coeff_size = 3 * degree * 8] *)
Definition coeff_size (degree : Z) : Z := 3 * degree * 8.

(** [offset = body['data_offset'] + interval_idx * coeff_size] *)
Definition coeff_offset (body : Body) (degree interval_idx : Z) : Z :=
  data_offset body + interval_idx * coeff_size degree.

(** [f.seek(offset); f.read(size)] *)
Definition seek_read (f : list byte) (offset size : Z) : list byte :=
  take (Z.to_nat size) (drop (Z.to_nat offset) f).

(** [2.0 * (jd - jd_start) / (jd_end - jd_start) - 1.0] on Python floats. *)
Definition t_normalized (jd jd_start jd_end : Q) : outcome Q :=
  if Qeq_bool (jd_end - jd_start) 0 then Raise ZeroDivisionError
  else Return (2 * (jd - jd_start) / (jd_end - jd_start) - 1)%Q.

(** Clenshaw recurrence, the loop [for i in range(len(coeffs) - 1, 0, -1)]
    carrying [(bn1, bn2)]. *)
Definition _chebyshev_eval (coeffs : list Q) (t : Q) : Q :=
  match coeffs with
  | [] => 0%Q
  | [c0] => c0
  | c0 :: _ =>
      let step (b : Q * Q) (i : nat) : Q * Q :=
        let bn := (nth i coeffs 0 + 2 * t * b.1 - b.2)%Q in (bn, b.1) in
      let b := fold_left step (rev (seq 1 (length coeffs - 1))) (0%Q, 0%Q) in
      (c0 + t * b.1 - b.2)%Q
  end.

Section Query.

(** The double held by eight little-endian bytes ([np.float64]). *)
Variable unpack_d : list byte → Q.

(** [np.frombuffer(data, dtype=np.float64)] *)
Definition frombuffer (data : list byte) : outcome (list Q) :=
  if (length data `mod` 8 =? 0)%nat then
    Return (map (λ k, unpack_d (take 8 (drop (8 * k) data)))
                (seq 0 (length data `div` 8)))
  else Raise BufferSizeError.

(** [a.reshape(3, degree)]: the three rows. *)
Definition reshape3 (a : list Q) (degree : Z) : outcome (list (list Q)) :=
  if Z.of_nat (length a) =? 3 * degree then
    let d := Z.to_nat degree in
    Return [take d a; take d (drop d a); take d (drop (2 * d) a)]
  else Raise ReshapeError.

Definition _read_coefficients (self : Reader) (body_id interval_idx : Z)
    : outcome (list (list Q)) :=
  match bodies self !! body_id with
  | None => Raise BodyNotFound
  | Some body =>
      let degree := coeff_degree (header self) in
      let data := seek_read (file self) (coeff_offset body degree interval_idx)
                    (coeff_size degree) in
      coeffs ← frombuffer data;
      reshape3 coeffs degree
  end.

(** [struct.unpack('<I', bs)[0]] and [struct.unpack('<Q', bs)[0]] *)
Definition unpack_uint (n : nat) (bs : list byte) : outcome Z :=
  if (length bs =? n)%nat then Return (Struct.le_to_Z bs) else Raise StructError.

(** [struct.unpack('<i', bs)[0]] *)
Definition unpack_int32 (bs : list byte) : outcome Z :=
  match Struct.unpack_i Struct.Little bs with
  | Some v => Return v
  | None => Raise StructError
  end.

(** [struct.unpack('<d', bs)[0]] *)
Definition unpack_double (bs : list byte) : outcome Q :=
  if (length bs =? 8)%nat then Return (unpack_d bs) else Raise StructError.

(** [bs.rstrip(b'\x00')] *)
Definition rstrip_nul (bs : list byte) : list byte :=
  fold_right (λ b acc, match acc with
                       | [] => if Byte.eqb b x00 then [] else [b]
                       | _ => b :: acc
                       end) [] bs.

(** [bs.decode('ascii')] *)
Definition decode_ascii (bs : list byte) : outcome string :=
  if forallb (λ b, Struct.Z_of_byte b <? 128) bs
  then Return (string_of_list_byte bs) else Raise UnicodeDecodeError.

Definition _read_header (f : list byte) : outcome Header :=
  let data := seek_read f 0 EphWriter.HEADER_SIZE in
  let magic := Struct.slice 0 4 data in
  if Struct.forallb2 Byte.eqb magic EphWriter.MAGIC then
    (* '<III' and '<ddd' unpack whole slices: short data raises *)
    if (length (Struct.slice 4 16 data) =? 12)%nat
       && (length (Struct.slice 16 40 data) =? 24)%nat then
      version ← unpack_uint 4 (Struct.slice 4 8 data);
      num_bodies ← unpack_uint 4 (Struct.slice 8 12 data);
      num_intervals ← unpack_uint 4 (Struct.slice 12 16 data);
      interval_days ← unpack_double (Struct.slice 16 24 data);
      start_jd ← unpack_double (Struct.slice 24 32 data);
      end_jd ← unpack_double (Struct.slice 32 40 data);
      coeff_degree ← unpack_uint 4 (Struct.slice 40 44 data);
      Return {| version := version; num_bodies := num_bodies;
                num_intervals := num_intervals; interval_days := interval_days;
                start_jd := start_jd; end_jd := end_jd;
                coeff_degree := coeff_degree |}
    else Raise StructError
  else Raise InvalidMagic.

(** The loop of [_read_body_table]: [n] entries from offset [pos];
    a later entry with the same id replaces the earlier one. *)
Fixpoint read_bodies (f : list byte) (pos : Z) (n : nat) (acc : gmap Z Body)
    : outcome (gmap Z Body) :=
  match n with
  | O => Return acc
  | S n' =>
      let data := seek_read f pos EphWriter.BODY_ENTRY_SIZE in
      body_id ← unpack_int32 (Struct.slice 0 4 data);
      name ← decode_ascii (rstrip_nul (Struct.slice 4 28 data));
      data_offset ← unpack_uint 8 (Struct.slice 28 36 data);
      read_bodies f (pos + EphWriter.BODY_ENTRY_SIZE) n'
        (<[body_id := {| name := name; data_offset := data_offset |}]> acc)
  end.

(** The loop of [_read_interval_index]. *)
Fixpoint read_intervals (f : list byte) (pos : Z) (n : nat) : outcome (list (Q * Q)) :=
  match n with
  | O => Return []
  | S n' =>
      let data := seek_read f pos EphWriter.INTERVAL_ENTRY_SIZE in
      if (length data =? 16)%nat then
        rest ← read_intervals f (pos + EphWriter.INTERVAL_ENTRY_SIZE) n';
        Return ((unpack_d (Struct.slice 0 8 data), unpack_d (Struct.slice 8 16 data)) :: rest)
      else Raise StructError
  end.

(** [EphReader(filepath)] on the contents [f] of the file. *)
Definition __init__ (f : list byte) : outcome Reader :=
  h ← _read_header f;
  bs ← read_bodies f EphWriter.HEADER_SIZE (Z.to_nat (num_bodies h)) ∅;
  ivs ← read_intervals f
           (EphWriter.HEADER_SIZE + num_bodies h * EphWriter.BODY_ENTRY_SIZE)
           (Z.to_nat (num_intervals h));
  Return {| file := f; header := h; bodies := bs; intervals := ivs |}.

(** [compute] returns the dict [{'pos': pos}]. *)
Definition compute (self : Reader) (body_id : Z) (jd : Q)
    : outcome (list (string * list Q)) :=
  interval_idx ← _find_interval self jd;
  match py_index (intervals self) interval_idx with
  | None => Raise IndexError
  | Some (jd_start, jd_end) =>
      t ← t_normalized jd jd_start jd_end;
      coeffs ← _read_coefficients self body_id interval_idx;
      let pos := [ _chebyshev_eval (nth 0 coeffs []) t;
                   _chebyshev_eval (nth 1 coeffs []) t;
                   _chebyshev_eval (nth 2 coeffs []) t ] in
      Return [("pos"%string, pos)]
  end.

End Query.

(** [intervals] tile [lo, hi]: each has [jd_start < jd_end], each starts
    where the previous one ends, the first starts at [lo], the last ends
    at [hi]. *)
Fixpoint tiles (lo : Q) (ivs : list (Q * Q)) (hi : Q) : bool :=
  match ivs with
  | [] => Qeq_bool lo hi
  | (s, e) :: rest => Qeq_bool lo s && Qltb s e && tiles e rest hi
  end.

(** A container as the reader holds it after [__init__]: the index is
    not empty and tiles the header's coverage, the degree is unsigned, and
    every body's coefficient matrix ([num_intervals] blocks of
    [3 * (coeff_degree + 1)] doubles) lies inside the file. *)
Definition matrix_in_file (self : Reader) (body : Body) : bool :=
  (0 <=? data_offset body) &&
  (data_offset body
     + Z.of_nat (length (intervals self)) * (3 * (coeff_degree (header self) + 1) * 8)
   <=? Z.of_nat (length (file self))).

Definition container (self : Reader) : bool :=
  negb (length (intervals self) =? 0)%nat
  && tiles (start_jd (header self)) (intervals self) (end_jd (header self))
  && (0 <=? coeff_degree (header self))
  && forallb (λ kb, matrix_in_file self kb.2) (map_to_list (bodies self)).

End EphReader.

(** ** The refit pipeline: [_extract_coefficients] and the body loop of
       [convert] (spice2eph.py) *)

Module Refit.

Local Open Scope Q_scope.

Definition J2000_JD : Q := 2451545.0.
Definition KM_PER_AU : Q := 149597870.7.

Definition pos3 := (Q * Q * Q)%type.

Section Pipeline.

(** [spice.spkgps(body_id, et, 'J2000', 0)[0][:3]]; [None] when it raises. *)
Variable spkgps : Z → Q → option pos3.
(** [np.cos(np.pi * (2 * np.arange(n) + 1) / (2 * n))] *)
Variable chebyshev_nodes : nat → list Q.
(** [np.polynomial.chebyshev.chebfit(nodes, values, degree)]; [None] when
    it raises. *)
Variable chebfit : list Q → list Q → nat → option (list Q).

(** The [try]/[except] around one sample: a failed call contributes
    [[0.0, 0.0, 0.0]]. *)
Definition sample_position (body_id : Z) (jd : Q) : pos3 :=
  let et := (jd - J2000_JD) * 86400.0 in
  match spkgps body_id et with
  | Some state => state
  | None => (0.0, 0.0, 0.0)
  end.

(** [jd_mid + jd_half * nodes] *)
Definition jd_samples (nodes : list Q) (jd_start jd_end : Q) : list Q :=
  let jd_mid := (jd_start + jd_end) / 2 in
  let jd_half := (jd_end - jd_start) / 2 in
  map (λ x, jd_mid + jd_half * x) nodes.

(** [positions / 149597870.7] after the sampling loop. *)
Definition positions_au (body_id : Z) (nodes : list Q) (jd_start jd_end : Q)
    : list pos3 :=
  map (λ jd, let '(x, y, z) := sample_position body_id jd in
             (x / KM_PER_AU, y / KM_PER_AU, z / KM_PER_AU))
      (jd_samples nodes jd_start jd_end).

(** The body of the [for jd_start, jd_end in intervals] loop. *)
Definition fit_interval (body_id : Z) (iv : Q * Q) : option (EphWriter.Coeffs Q) :=
  let degree := 7%nat in
  let n_samples := (degree + 1)%nat in
  let nodes := chebyshev_nodes n_samples in
  let positions := positions_au body_id nodes iv.1 iv.2 in
  x_coeffs ← chebfit nodes (map (λ p, p.1.1) positions) degree;
  y_coeffs ← chebfit nodes (map (λ p, p.1.2) positions) degree;
  z_coeffs ← chebfit nodes (map (λ p, p.2) positions) degree;
  Some {| EphWriter.x_coeffs := x_coeffs;
          EphWriter.y_coeffs := y_coeffs;
          EphWriter.z_coeffs := z_coeffs |}.

Definition _extract_coefficients (body_id : Z) (intervals : list (Q * Q))
    : option (list (EphWriter.Coeffs Q)) :=
  mapM (fit_interval body_id) intervals.

(** The [for body_id in self.body_ids] loop of [convert]: a body whose
    extraction raises is skipped. *)
Definition extract_all (body_ids : list Z) (intervals : list (Q * Q))
    : gmap Z (list (EphWriter.Coeffs Q)) :=
  fold_left (λ all_coeffs body_id,
               match _extract_coefficients body_id intervals with
               | Some coeffs => <[body_id := coeffs]> all_coeffs
               | None => all_coeffs
               end) body_ids ∅.

(** [len(next(iter(all_coeffs.values()))[0]['x']) - 1]: the first body
    inserted is the first of [body_ids] whose extraction succeeded. *)
Definition first_degree (body_ids : list Z) (intervals : list (Q * Q)) : option Z :=
  first_body_coeffs ← head (omap (λ body_id, _extract_coefficients body_id intervals)
                                 body_ids);
  c ← head first_body_coeffs;
  Some (Z.of_nat (length (EphWriter.x_coeffs c)) - 1)%Z.

(** [convert] from the generated intervals on; [None] when it raises. *)
Definition convert_from (pack_d : Q → list byte) (body_ids : list Z)
    (intervals : list (Q * Q)) (interval_days start_jd end_jd : Q)
    : option (list byte) :=
  let all_coeffs := extract_all body_ids intervals in
  coeff_degree ← first_degree body_ids intervals;
  EphWriter._write_eph_file pack_d all_coeffs intervals coeff_degree
    interval_days start_jd end_jd.

End Pipeline.

(** [min(a, b)] on doubles: [b] when [b < a], else [a]. *)
Definition py_min (a b : Q) : Q := if EphReader.Qltb b a then b else a.

(** The [while current < end_jd] loop of [_generate_intervals]; [None]
    when the fuel runs out before the loop ends. *)
Fixpoint generate_loop (fuel : nat) (current end_jd interval_days : Q)
    : option (list (Q * Q)) :=
  match fuel with
  | O => None
  | S fuel' =>
      if EphReader.Qltb current end_jd then
        let interval_end := py_min (current + interval_days) end_jd in
        rest ← generate_loop fuel' interval_end end_jd interval_days;
        Some ((current, interval_end) :: rest)
      else Some []
  end.

Definition _generate_intervals (fuel : nat) (start_jd end_jd interval_days : Q)
    : option (list (Q * Q)) :=
  generate_loop fuel start_jd end_jd interval_days.

(** The same loop with the addition of two doubles as a parameter:
    [fadd current interval_days] is the double Python computes for
    [current + interval_days], the exact sum rounded to the nearest
    double. With [fadd := Qplus] it is [generate_loop]. *)
Fixpoint generate_loop_rounded (fadd : Q → Q → Q) (fuel : nat)
    (current end_jd interval_days : Q) : option (list (Q * Q)) :=
  match fuel with
  | O => None
  | S fuel' =>
      if EphReader.Qltb current end_jd then
        let interval_end := py_min (fadd current interval_days) end_jd in
        rest ← generate_loop_rounded fadd fuel' interval_end end_jd interval_days;
        Some ((current, interval_end) :: rest)
      else Some []
  end.

(** [T_j(x)], Chebyshev polynomial of the first kind. *)
Definition cheb_T (j : nat) (x : Q) : Q :=
  (Nat.iter j (λ p : Q * Q, (p.2, 2 * x * p.2 - p.1)) (1, x)).1.

(** Modelled from the spec: numpy's [chebfit] is a library routine outside
    src/. Section 4.1 of the specification admits the discrete-cosine closed
    form for samples at the Chebyshev nodes,
    [c_j = (2 - [j = 0]) / N * sum_k y_k * T_j(x_k)]. *)
Definition chebfit_dct (nodes values : list Q) (degree : nat) : option (list Q) :=
  let N := inject_Z (Z.of_nat (length nodes)) in
  Some (map (λ j, (if (j =? 0)%nat then 1 else 2) / N
                  * fold_right Qplus 0
                      (zip_with (λ x y, y * cheb_T j x) nodes values))
            (seq 0 (S degree))).

(** The block of zeros the specification expects after a failed sample. *)
Definition zero_block (degree : nat) : EphWriter.Coeffs Q :=
  {| EphWriter.x_coeffs := replicate (S degree) 0;
     EphWriter.y_coeffs := replicate (S degree) 0;
     EphWriter.z_coeffs := replicate (S degree) 0 |}.

End Refit.

(** ** Byte-order probe of [read_chebyshev_intervals_raw] (raw_spk_reader.py) *)

Module RawSpk.

(** The [try] block that reads ND and NI at [nd_offset = 8]; the bare
    [except] falls back to [nd, ni = 2, 6] with [endian] as it stands. *)
Definition probe_summary_format (file_record : list byte) : Struct.endian * Z * Z :=
  let endian := Struct.Little in
  let nd_offset := 8%nat in
  let nd_bytes := Struct.slice nd_offset (nd_offset + 4) file_record in
  let ni_bytes := Struct.slice (nd_offset + 4) (nd_offset + 8) file_record in
  match Struct.unpack_i endian nd_bytes, Struct.unpack_i endian ni_bytes with
  | Some nd, Some ni =>
      if (100 <? nd) || (100 <? ni) then
        let endian := Struct.Big in
        match Struct.unpack_i endian nd_bytes, Struct.unpack_i endian ni_bytes with
        | Some nd, Some ni => (endian, nd, ni)
        | _, _ => (endian, 2, 6)
        end
      else (endian, nd, ni)
  | _, _ => (endian, 2, 6)
  end.

(** [endian] after the probe, on the first 1024 bytes of the file. *)
Definition detect_endian (f : list byte) : Struct.endian :=
  (probe_summary_format (take 1024 f)).1.1.

(** The rule as the specification words it: the integer fields at offsets
    88 and 92, little-endian first, big-endian when they exceed the
    threshold. *)
Definition spec_detect_endian (f : list byte) : Struct.endian :=
  let file_record := take 1024 f in
  match Struct.unpack_i Struct.Little (Struct.slice 88 92 file_record),
        Struct.unpack_i Struct.Little (Struct.slice 92 96 file_record) with
  | Some a, Some b => if (100 <? a) || (100 <? b) then Struct.Big else Struct.Little
  | _, _ => Struct.Little
  end.

End RawSpk.

(** ** The orbit integrator (integrate_chiron_hybrid.py,
       integrate_chiron_orbit.py) *)

Module Integrator.

Local Open Scope R_scope.

Definition GM_SUN : R := 1.32712440018e20.
Definition C_LIGHT : R := 299792458.0.

(** [PLANET_GM.items()] in insertion order. *)
Definition PLANET_GM : list (string * R) :=
  [ ("Mercury"%string, 2.2032e13); ("Venus"%string, 3.2486e14);
    ("Earth"%string, 3.9860e14); ("Mars"%string, 4.2828e13);
    ("Jupiter"%string, 1.2669e17); ("Saturn"%string, 3.7931e16);
    ("Uranus"%string, 5.7940e15); ("Neptune"%string, 6.8351e15) ].

(** A numpy array of three doubles. *)
Definition vec3 := (R * R * R)%type.

Definition vadd (a b : vec3) : vec3 := (a.1.1 + b.1.1, a.1.2 + b.1.2, a.2 + b.2).
Definition vsub (a b : vec3) : vec3 := (a.1.1 - b.1.1, a.1.2 - b.1.2, a.2 - b.2).
Definition vscale (k : R) (a : vec3) : vec3 := (k * a.1.1, k * a.1.2, k * a.2).
Definition vdiv (a : vec3) (k : R) : vec3 := (a.1.1 / k, a.1.2 / k, a.2 / k).
(** [np.dot(a, b)] *)
Definition dot (a b : vec3) : R := a.1.1 * b.1.1 + a.1.2 * b.1.2 + a.2 * b.2.
(** [np.linalg.norm(a)] *)
Definition norm (a : vec3) : R := sqrt (dot a a).

Section Acceleration.

(** [planet_provider.get_position(planet_name, jd_tdb)]; [None] when it
    raises. *)
Variable get_position : string → R → option vec3.

(** [gm_planet * (delta / delta_mag**3 - planet_pos / planet_r**3)] *)
Definition perturbation (pos : vec3) (gm_planet : R) (planet_pos : vec3) : vec3 :=
  let delta := vsub planet_pos pos in
  let delta_mag := norm delta in
  let planet_r := norm planet_pos in
  vscale gm_planet (vsub (vdiv delta (delta_mag ^ 3)) (vdiv planet_pos (planet_r ^ 3))).

(** The loop over [PLANET_GM.items()]; a planet whose position query
    raises is skipped ([continue]). *)
Definition add_perturbations (pos : vec3) (jd_tdb : R) (a_total : vec3)
    (planets : list (string * R)) : vec3 :=
  fold_left (λ a_total (p : string * R),
               match get_position p.1 jd_tdb with
               | Some planet_pos => vadd a_total (perturbation pos p.2 planet_pos)
               | None => a_total
               end) planets a_total.

Definition compute_acceleration (pos vel : vec3) (jd_tdb : R) : vec3 :=
  let r := norm pos in
  let a_sun := vscale (- GM_SUN / r ^ 3) pos in
  let v2 := dot vel vel in
  let r_dot := dot pos vel / r in
  let schwarzschild :=
    vscale (GM_SUN / (r ^ 3 * C_LIGHT ^ 2))
           (vadd (vscale (4 * GM_SUN / r - v2) pos) (vscale (4 * r_dot) vel)) in
  let a_total := vadd a_sun schwarzschild in
  add_perturbations pos jd_tdb a_total PLANET_GM.

(** The acceleration as the specification (and the function's docstring)
    states it: solar gravity, the planetary perturbations, and
    [a_rel = GM/(r^3 c^2) * ((4 GM/r - v^2) r + 4 (r.v) v)]. *)
Definition spec_acceleration (pos vel : vec3) (jd_tdb : R) : vec3 :=
  let r := norm pos in
  let a_sun := vscale (- GM_SUN / r ^ 3) pos in
  let a_rel :=
    vscale (GM_SUN / (r ^ 3 * C_LIGHT ^ 2))
           (vadd (vscale (4 * GM_SUN / r - dot vel vel) pos)
                 (vscale (4 * dot pos vel) vel)) in
  vadd (vadd a_sun (add_perturbations pos jd_tdb (0, 0, 0) PLANET_GM)) a_rel.

End Acceleration.

(** *** Kepler's equation in [elements_to_cartesian] *)

(** One pass of the loop body [E = ma_rad + e * np.sin(E)]. *)
Definition kepler_update (ma_rad e E : R) : R := ma_rad + e * sin E.

(** [E = ma_rad; for _ in range(10): E = ma_rad + e * np.sin(E)], with the
    number of passes through the loop body. *)
Definition solve_kepler (ma e : R) : R * nat :=
  let ma_rad := ma * PI / 180 in
  fold_left (λ (s : R * nat) (_ : nat), (kepler_update ma_rad e s.1, S s.2))
            (seq 0 10) (ma_rad, 0%nat).

(** The solver as the specification words it: Newton iteration on
    [f(E) = E - e sin E - M], at most [n] passes, stopping once the
    correction is below [1e-12]. *)
Definition newton_correction (ma_rad e E : R) : R :=
  (E - e * sin E - ma_rad) / (1 - e * cos E).

Fixpoint newton_loop (n : nat) (ma_rad e E : R) (k : nat) : R * nat :=
  match n with
  | O => (E, k)
  | S n' =>
      let dE := newton_correction ma_rad e E in
      if Rlt_dec (Rabs dE) 1e-12 then (E - dE, S k)
      else newton_loop n' ma_rad e (E - dE) (S k)
  end.

Definition spec_solve_kepler (ma e : R) : R * nat :=
  let ma_rad := ma * PI / 180 in
  newton_loop 10 ma_rad e ma_rad 0.

(** *** The rest of [elements_to_cartesian], and
        [cartesian_to_spherical] (integrate_chiron_hybrid.py) *)

Definition AU : R := 1.495978707e11.

(** [np.arctan2(y, x)] (signed zeros apart). *)
Definition arctan2 (y x : R) : R :=
  if Rlt_dec 0 x then atan (y / x)
  else if Rlt_dec x 0 then
    if Rle_dec 0 y then atan (y / x) + PI else atan (y / x) - PI
  else if Rlt_dec 0 y then PI / 2
  else if Rlt_dec y 0 then - (PI / 2)
  else 0.

(** The rotation of an orbital-plane vector [(x_orb, y_orb, 0)] by the
    three angles, as both the position and the velocity lines spell it. *)
Definition rotate_to_icrf (om_rad i_rad w_rad x_orb y_orb : R) : vec3 :=
  let cos_om := cos om_rad in let sin_om := sin om_rad in
  let cos_i := cos i_rad in let sin_i := sin i_rad in
  let cos_w := cos w_rad in let sin_w := sin w_rad in
  ((cos_om * cos_w - sin_om * sin_w * cos_i) * x_orb
   + (- cos_om * sin_w - sin_om * cos_w * cos_i) * y_orb,
   (sin_om * cos_w + cos_om * sin_w * cos_i) * x_orb
   + (- sin_om * sin_w + cos_om * cos_w * cos_i) * y_orb,
   (sin_w * sin_i) * x_orb + (cos_w * sin_i) * y_orb).

(** [elements_to_cartesian(a, e, i, om, w, ma)]: [(pos, vel)]. *)
Definition elements_to_cartesian (a e i om w ma : R) : vec3 * vec3 :=
  let i_rad := i * PI / 180 in
  let om_rad := om * PI / 180 in
  let w_rad := w * PI / 180 in
  let E := (solve_kepler ma e).1 in
  let nu := 2 * arctan2 (sqrt (1 + e) * sin (E / 2)) (sqrt (1 - e) * cos (E / 2)) in
  let r := a * AU * (1 - e * cos E) in
  let h := sqrt (GM_SUN * a * AU * (1 - e * e)) in
  let v_r := GM_SUN / h * e * sin nu in
  let v_perp := h / r in
  let x_orb := r * cos nu in
  let y_orb := r * sin nu in
  let vx_orb := v_r * cos nu - v_perp * sin nu in
  let vy_orb := v_r * sin nu + v_perp * cos nu in
  (rotate_to_icrf om_rad i_rad w_rad x_orb y_orb,
   rotate_to_icrf om_rad i_rad w_rad vx_orb vy_orb).

(** The distance [r = a * AU * (1 - e * np.cos(E))] that
    [elements_to_cartesian] computes on its way. *)
Definition kepler_distance (a e ma : R) : R :=
  a * AU * (1 - e * cos (solve_kepler ma e).1).

(** [cartesian_to_spherical(pos)]: [(lon, lat, dist)]. *)
Definition cartesian_to_spherical (pos : vec3) : R * R * R :=
  let '(x, y, z) := pos in
  let dist := norm pos / AU in
  let lon := arctan2 y x * 180.0 / PI in
  let lon := if Rlt_dec lon 0 then lon + 360.0 else lon in
  let lat := asin (z / (dist * AU)) * 180.0 / PI in
  (lon, lat, dist).

End Integrator.

(** ** Concrete doubles and a concrete container *)

Module Binary64.

Local Open Scope Q_scope.

(** The rational a finite binary64 bit pattern denotes. *)
Definition value (bits : Z) : Q :=
  let e := Z.land (Z.shiftr bits 52) 2047 in
  let m := Z.land bits (2 ^ 52 - 1) in
  let mag := if (e =? 0)%Z then inject_Z m * 2 ^ (-1074)
             else inject_Z (2 ^ 52 + m) * 2 ^ (e - 1075) in
  if Z.testbit bits 63 then - mag else mag.

(** [struct.pack('<d', x)] and [struct.unpack('<d', bs)[0]] on bit patterns. *)
Definition pack_d (bits : Z) : list byte := Struct.le_bytes 8 bits.
Definition unpack_d (bs : list byte) : Q := value (Struct.le_to_Z bs).

End Binary64.

Module Demo.

(** Doubles by their bit patterns. *)
Definition d_2451545 : Z := 0x4142b42c80000000.
Definition d_2451561 : Z := 0x4142b43480000000.
Definition d_2451577 : Z := 0x4142b43c80000000.
Definition d_2451593 : Z := 0x4142b44480000000.
Definition d_16 : Z := 0x4030000000000000.
(** [1.0 .. 18.0] *)
Definition d_small : list Z :=
  [ 0x3ff0000000000000; 0x4000000000000000; 0x4008000000000000;
    0x4010000000000000; 0x4014000000000000; 0x4018000000000000;
    0x401c000000000000; 0x4020000000000000; 0x4022000000000000;
    0x4024000000000000; 0x4026000000000000; 0x4028000000000000;
    0x402a000000000000; 0x402c000000000000; 0x402e000000000000;
    0x4030000000000000; 0x4031000000000000; 0x4032000000000000 ].
Definition d (n : nat) : Z := nth (n - 1) d_small 0.

(** The dates those patterns denote. *)
Definition jd_2451545 : Q := Binary64.value d_2451545.
Definition jd_2451561 : Q := Binary64.value d_2451561.
Definition jd_2451577 : Q := Binary64.value d_2451577.
Definition jd_2451593 : Q := Binary64.value d_2451593.

(** Three intervals with boundaries 2451545, 2451561, 2451577, 2451593. *)
Definition demo_intervals : list (Z * Z) :=
  [ (d_2451545, d_2451561); (d_2451561, d_2451577); (d_2451577, d_2451593) ].

(** Degree 1: two coefficients per component. *)
Definition demo_block (k : nat) : EphWriter.Coeffs Z :=
  {| EphWriter.x_coeffs := [d (k + 1); d (k + 2)];
     EphWriter.y_coeffs := [d (k + 3); d (k + 4)];
     EphWriter.z_coeffs := [d (k + 5); d (k + 6)] |}.

(** Earth: blocks [1..6], [7..12] and [13..18]. *)
Definition demo_coeffs : gmap Z (list (EphWriter.Coeffs Z)) :=
  {[ 399 := [demo_block 0; demo_block 6; demo_block 12] ]}.

(** The file the encoder writes for them. *)
Definition demo_file : list byte :=
  default [] (EphWriter._write_eph_file Binary64.pack_d demo_coeffs demo_intervals
                1 d_16 d_2451545 d_2451593).

(** The reader opened on that file. *)
Definition demo_reader : EphReader.Reader :=
  match EphReader.__init__ Binary64.unpack_d demo_file with
  | EphReader.Return r => r
  | _ => {| EphReader.file := [];
            EphReader.header := EphReader.Build_Header 0 0 0 0 0 0 0;
            EphReader.bodies := ∅; EphReader.intervals := [] |}
  end.

End Demo.

Module DemoInputs.

Local Open Scope Q_scope.

(** The eight doubles numpy returns for [cos(pi * (2 k + 1) / 16)]. *)
Definition nodes_8 : list Q :=
  [ 552133027919307 # 562949953421312; 7489212472271267 # 9007199254740992;
    5004131788810441 # 9007199254740992; 7028869612283405 # 36028797018963968;
    -878608701535425 # 4503599627370496; -2502065894405219 # 4503599627370496;
    -1872303118067817 # 2251799813685248; -552133027919307 # 562949953421312 ].

Definition chebyshev_nodes (n : nat) : list Q :=
  if (n =? 8)%nat then nodes_8 else [].

(** A source kernel whose coverage ends at JD 2451560.5 (ET 1339200 s):
    later epochs raise, earlier ones give the position (1 AU, 0, 0). *)
Definition spkgps (body_id : Z) (et : Q) : option Refit.pos3 :=
  if Qle_bool et 1339200 then Some (Refit.KM_PER_AU, 0, 0) else None.

(** The first 1024 bytes of a little-endian SPK file: [LOCIDW], ND = 2,
    NI = 6, internal name, FWARD, BWARD, FREE, [LOCFMT = "LTL-IEEE"]. *)
Definition daf_file_record : list byte :=
  list_byte_of_string "DAF/SPK " ++ Struct.le_bytes 4 2 ++ Struct.le_bytes 4 6
  ++ replicate 60 " "%byte
  ++ Struct.le_bytes 4 2 ++ Struct.le_bytes 4 2 ++ Struct.le_bytes 4 385
  ++ list_byte_of_string "LTL-IEEE" ++ replicate 928 x00.

End DemoInputs.

(** ** Reference functions the code is compared with *)

Module Reference.

Local Open Scope Q_scope.

(** [sum_i cs[i] * T_(j+i)(t)]: the Chebyshev series written out term by
    term, starting at degree [j]. *)
Fixpoint series_from (j : nat) (cs : list Q) (t : Q) : Q :=
  match cs with
  | [] => 0
  | c :: cs' => c * Refit.cheb_T j t + series_from (S j) cs' t
  end.

Definition cheb_series (coeffs : list Q) (t : Q) : Q := series_from 0 coeffs t.

(** [n] big-endian bytes of [z]. *)
Definition be_bytes (n : nat) (z : Z) : list byte := rev (Struct.le_bytes n z).

(** The name the reader gets back from the 24-byte field the encoder
    writes for [body_name]: [field.rstrip(b'\x00').decode('ascii')]. *)
Definition stored_name (body_name : string) : string :=
  string_of_list_byte (EphReader.rstrip_nul (default [] (name_bytes body_name))).

(** What the body-table loop decodes from one 36-byte record. *)
Definition decodes_to (e : list byte) (d : Z * EphReader.Body) : Prop :=
  length e = 36%nat ∧
  EphReader.unpack_int32 (Struct.slice 0 4 e) = EphReader.Return d.1 ∧
  EphReader.decode_ascii (EphReader.rstrip_nul (Struct.slice 4 28 e))
  = EphReader.Return (EphReader.name d.2) ∧
  EphReader.unpack_uint 8 (Struct.slice 28 36 e) = EphReader.Return (EphReader.data_offset d.2).

End Reference.

(** ** The sentences of the specification that the code is compared with *)

Module SpecClaims.

(** "Ties on an exact boundary go to the earlier interval." *)
Definition boundary_goes_to_earlier : Prop :=
  ∀ (self : EphReader.Reader) (jd : Q) (j : nat) (s e s' e' : Q),
    EphReader.container self = true →
    EphReader.intervals self !! j = Some (s, e) →
    EphReader.intervals self !! S j = Some (s', e') →
    (jd == e)%Q →
    EphReader._find_interval self jd = EphReader.Return (Z.of_nat j).

(** "try little-endian integer header fields at offsets 88/92". *)
Definition endian_probed_at_88_92 : Prop :=
  ∀ f : list byte, RawSpk.detect_endian f = RawSpk.spec_detect_endian f.

(** All coefficients of a block are zero. *)
Definition is_zero_block (c : EphWriter.Coeffs Q) : Prop :=
  Forall (Qeq 0) (EphWriter.x_coeffs c) ∧
  Forall (Qeq 0) (EphWriter.y_coeffs c) ∧
  Forall (Qeq 0) (EphWriter.z_coeffs c).

(** "If any sample call fails the whole (body, interval) yields a zero
    vector." *)
Definition failed_sample_zeroes_block
    (spkgps : Z → Q → option Refit.pos3) (chebyshev_nodes : nat → list Q)
    (chebfit : list Q → list Q → nat → option (list Q)) : Prop :=
  ∀ (body_id : Z) (iv : Q * Q) (block : EphWriter.Coeffs Q) (jd : Q),
    jd ∈ Refit.jd_samples (chebyshev_nodes 8%nat) iv.1 iv.2 →
    spkgps body_id ((jd - Refit.J2000_JD) * 86400.0)%Q = None →
    Refit.fit_interval spkgps chebyshev_nodes chebfit body_id iv = Some block →
    is_zero_block block.

(** "Newton iteration, <= 10 iterations, convergence <= 1e-12". *)
Definition kepler_is_newton : Prop :=
  ∀ ma e : R, Integrator.solve_kepler ma e = Integrator.spec_solve_kepler ma e.

End SpecClaims.

(** * Facts about the model *)

(** ** Bytes and [struct] *)

Section StructFacts.
Import Struct.

Lemma length_le_bytes n z : length (le_bytes n z) = n.
Proof. revert z; induction n as [|n IH]; intros z; simpl; [done|by rewrite IH]. Qed.

Lemma length_pack_I v bs : pack_I v = Some bs → length bs = 4%nat.
Proof. unfold pack_I; case_match; [|done]. by intros [= <-]. Qed.

Lemma length_pack_i v bs : pack_i v = Some bs → length bs = 4%nat.
Proof. unfold pack_i; case_match; [|done]. by intros [= <-]. Qed.

Lemma length_pack_Q v bs : pack_Q v = Some bs → length bs = 8%nat.
Proof. unfold pack_Q; case_match; [|done]. by intros [= <-]. Qed.

Lemma length_ljust n bs : length (ljust n bs) = (length bs `max` n)%nat.
Proof. unfold ljust. rewrite length_app, length_replicate. lia. Qed.

Lemma Z_of_byte_of_Z z : Z_of_byte (byte_of_Z z) = z mod 256.
Proof.
  unfold Z_of_byte, byte_of_Z.
  assert (0 ≤ z mod 256 < 256) as Hr by (apply Z.mod_pos_bound; lia).
  destruct (Byte.of_N (Z.to_N (z mod 256))) as [b|] eqn:Hb; simpl.
  - apply Byte.to_of_N in Hb. rewrite Hb. lia.
  - apply Byte.of_N_None_iff in Hb. lia.
Qed.

Lemma le_to_Z_le_bytes n z : le_to_Z (le_bytes n z) = z mod 256 ^ Z.of_nat n.
Proof.
  revert z; induction n as [|n IH]; intros z.
  - simpl. by rewrite Z.mod_1_r.
  - cbn [le_bytes le_to_Z]. rewrite IH, Z_of_byte_of_Z.
    rewrite Nat2Z.inj_succ, Z.pow_succ_r by lia.
    rewrite (Z.mul_comm 256), Z.rem_mul_r by lia. lia.
Qed.

Lemma unpack_pack_i v bs : pack_i v = Some bs → unpack_i Little bs = Some v.
Proof.
  unfold pack_i. destruct (_ && _) eqn:Hr; [|done]. intros Hp.
  assert (bs = le_bytes 4 (v mod 2 ^ 32)) as -> by congruence. clear Hp.
  apply andb_true_iff in Hr as [H1%Z.leb_le H2%Z.ltb_lt].
  unfold unpack_i. rewrite length_le_bytes. simpl (_ =? _)%nat. cbv iota.
  rewrite le_to_Z_le_bytes. change (256 ^ Z.of_nat 4) with (2 ^ 32).
  rewrite Z.mod_mod by lia. unfold to_signed. f_equal.
  destruct (Z.ltb_spec (v mod 2 ^ 32) (2 ^ (32 - 1))) as [Hlt|Hge].
  - destruct (Z.lt_ge_cases v 0).
    + rewrite <- (Z.mod_unique_pos v (2 ^ 32) (-1) (v + 2 ^ 32)) in Hlt; lia.
    + apply Z.mod_small. lia.
  - destruct (Z.lt_ge_cases v 0).
    + rewrite <- (Z.mod_unique_pos v (2 ^ 32) (-1) (v + 2 ^ 32)); lia.
    + rewrite Z.mod_small in Hge; lia.
Qed.

Lemma le_to_Z_pack_Q v bs : pack_Q v = Some bs → le_to_Z bs = v.
Proof.
  unfold pack_Q. destruct (_ && _) eqn:Hr; [|done]. intros Hp.
  assert (bs = le_bytes 8 v) as -> by congruence. clear Hp.
  apply andb_true_iff in Hr as [H1%Z.leb_le H2%Z.ltb_lt].
  rewrite le_to_Z_le_bytes. apply Z.mod_small. change (256 ^ Z.of_nat 8) with (2 ^ 64). lia.
Qed.

Lemma length_concat_const {A} (cs : list (list A)) n :
  Forall (λ c, length c = n) cs → length (concat cs) = (n * length cs)%nat.
Proof. induction 1 as [|c cs Hc _ IH]; simpl; [lia|]. rewrite length_app, IH, Hc. lia. Qed.

Lemma drop_concat_chunk {A} (cs : list (list A)) n k c post :
  Forall (λ c, length c = n) cs → cs !! k = Some c →
  drop (n * k) (concat cs ++ post) = c ++ concat (drop (S k) cs) ++ post.
Proof.
  intros Hall. revert k. induction Hall as [|c0 cs Hc0 _ IH]; intros k; [done|].
  destruct k as [|k]; simpl.
  - intros [= ->]. rewrite Nat.mul_0_r. simpl. by rewrite <- app_assoc.
  - intros Hk. rewrite <- app_assoc.
    replace (n * S k)%nat with (length c0 + n * k)%nat by lia.
    rewrite drop_app_add. by apply IH.
Qed.
End StructFacts.

(** ** The encoder *)

Section WriterFacts.
Import EphWriter.
Context {F : Type} (pack_d : F → list byte).
Hypothesis pack_d_length : ∀ x, length (pack_d x) = 8%nat.

Lemma sorted_keys_length {A} (m : gmap Z A) : length (sorted_keys m) = size m.
Proof.
  unfold sorted_keys. rewrite (Permutation_length (merge_sort_Permutation _ _)).
  by rewrite length_fmap, length_map_to_list.
Qed.

Lemma sorted_keys_elem {A} (m : gmap Z A) body_id :
  body_id ∈ sorted_keys m ↔ is_Some (m !! body_id).
Proof.
  unfold sorted_keys. rewrite (merge_sort_Permutation _ _), list_elem_of_fmap.
  split.
  - intros ([k v] & -> & H%elem_of_map_to_list). by exists v.
  - intros [v Hv]. exists (body_id, v). split; [done|]. by apply elem_of_map_to_list.
Qed.

Lemma sorted_keys_sorted {A} (m : gmap Z A) : Sorted Z.le (sorted_keys m).
Proof. apply Sorted_merge_sort. intros x y. lia. Qed.

Lemma matrix_shape_lookup (all_coeffs : gmap Z (list (Coeffs F))) n d body_id cl :
  matrix_shape all_coeffs n d = true → all_coeffs !! body_id = Some cl →
  length cl = n ∧ Forall (λ c, block_shape d c = true) cl.
Proof.
  unfold matrix_shape. rewrite forallb_forall. intros H Hlk.
  specialize (H (body_id, cl)). simpl in H.
  rewrite andb_true_iff, Nat.eqb_eq, forallb_forall in H.
  destruct H as [H1 H2].
  { apply list_elem_of_In. by apply elem_of_map_to_list. }
  split; [done|]. apply Forall_forall. intros c Hc. apply H2. by apply list_elem_of_In.
Qed.

Lemma length_pack_ds (v : list F) : length (pack_ds pack_d v) = (8 * length v)%nat.
Proof.
  unfold pack_ds. rewrite (length_concat_const _ 8), length_map; [done|].
  apply Forall_forall. intros c (x & -> & _)%list_elem_of_fmap. apply pack_d_length.
Qed.

Lemma length_coeff_block d (c : Coeffs F) :
  block_shape d c = true →
  Z.of_nat (length (coeff_block pack_d c)) = 24 * (d + 1).
Proof.
  unfold block_shape, coeff_block. rewrite !andb_true_iff, !Z.eqb_eq.
  intros [[Hx Hy] Hz]. rewrite !length_app, !length_pack_ds. lia.
Qed.

Lemma length_body_data d (cl : list (Coeffs F)) :
  Forall (λ c, block_shape d c = true) cl →
  Z.of_nat (length (body_data pack_d cl)) = Z.of_nat (length cl) * (24 * (d + 1)).
Proof.
  unfold body_data. induction 1 as [|c cl Hc _ IH]; simpl; [lia|].
  rewrite length_app, Nat2Z.inj_add, IH, (length_coeff_block d) by done. lia.
Qed.

Lemma length_pack_header nb ni (a b c : F) cd h :
  pack_header pack_d nb ni a b c cd = Some h → length h = 44%nat.
Proof.
  unfold pack_header. intros H.
  apply bind_Some in H as (v & Hv%length_pack_I & H).
  apply bind_Some in H as (b1 & Hb1%length_pack_I & H).
  apply bind_Some in H as (b2 & Hb2%length_pack_I & H).
  apply bind_Some in H as (b3 & Hb3%length_pack_I & H). injection H as <-.
  unfold MAGIC. cbn [app length]. rewrite !length_app, !pack_d_length. lia.
Qed.

Lemma length_name_bytes nm bs : name_bytes nm = Some bs → length bs = 24%nat.
Proof.
  unfold name_bytes. intros H.
  apply bind_Some in H as (enc & _ & H). injection H as <-.
  rewrite length_ljust, length_take. lia.
Qed.

Lemma body_entry_inv nb ni cd i body_id entry :
  body_entry nb ni cd (i, body_id) = Some entry →
  ∃ idb nm off, entry = idb ++ nm ++ off ∧
    length idb = 4%nat ∧ length nm = 24%nat ∧ length off = 8%nat ∧
    Struct.unpack_i Struct.Little idb = Some body_id ∧
    name_bytes (body_name_of body_id) = Some nm ∧
    Struct.le_to_Z off = data_offset_of nb ni cd i.
Proof.
  unfold body_entry. intros H.
  apply bind_Some in H as (nm & Hnm & H).
  apply bind_Some in H as (idb & Hid & H).
  apply bind_Some in H as (off & Hoff & H). injection H as <-.
  exists idb, nm, off. split; [done|].
  repeat split; eauto using length_pack_i, length_name_bytes, length_pack_Q,
    unpack_pack_i, le_to_Z_pack_Q.
Qed.

Lemma length_body_entry nb ni cd ib entry :
  body_entry nb ni cd ib = Some entry → length entry = 36%nat.
Proof.
  destruct ib as [i body_id].
  intros (idb & nm & off & -> & H1 & H2 & H3 & _)%body_entry_inv.
  rewrite !length_app. lia.
Qed.

Lemma enumerate_lookup {A} (l : list A) k x :
  l !! k = Some x → enumerate l !! k = Some (k, x).
Proof. intros H. unfold enumerate. by rewrite list_lookup_imap, H. Qed.

Lemma length_enumerate {A} (l : list A) : length (enumerate l) = length l.
Proof. apply length_imap. Qed.

End WriterFacts.

Section WriterLayout.
Import EphWriter.
Context {F : Type} (pack_d : F → list byte).
Hypothesis pack_d_length : ∀ x, length (pack_d x) = 8%nat.

Lemma length_concat_map_Z {A} (f : A → list byte) (l : list A) (c : Z) :
  Forall (λ a, Z.of_nat (length (f a)) = c) l →
  Z.of_nat (length (concat (map f l))) = Z.of_nat (length l) * c.
Proof.
  induction 1 as [|a l Ha _ IH]; simpl; [lia|].
  rewrite length_app, Nat2Z.inj_add, IH, Ha. lia.
Qed.

Lemma slice_entry (header table_rest : list byte) (table : list (list byte)) k entry :
  length header = 512%nat →
  Forall (λ c, length c = 36%nat) table → table !! k = Some entry →
  Struct.slice (512 + 36 * k) (512 + 36 * k + 36) (header ++ concat table ++ table_rest)
  = entry.
Proof.
  intros Hh Hall Hk. unfold Struct.slice.
  replace (512 + 36 * k)%nat with (length header + 36 * k)%nat by lia.
  rewrite drop_app_add, (drop_concat_chunk _ 36 k entry) by done.
  replace (length header + 36 * k + 36 - (length header + 36 * k))%nat with
    (length entry) by (rewrite (Forall_lookup_1 _ _ _ _ Hall Hk); lia).
  by rewrite take_app_length.
Qed.

Lemma write_eph_file_layout_gen (all_coeffs : gmap Z (list (Coeffs F)))
    (intervals : list (F * F)) (coeff_degree : Z)
    (interval_days start_jd end_jd : F) (bytes : list byte) :
  matrix_shape all_coeffs (length intervals) coeff_degree = true →
  _write_eph_file pack_d all_coeffs intervals coeff_degree
    interval_days start_jd end_jd = Some bytes →
  let B := Z.of_nat (size all_coeffs) in
  let I := Z.of_nat (length intervals) in
  let d := coeff_degree in
  Z.of_nat (length bytes) = 512 + 36 * B + 16 * I + 24 * (d + 1) * I * B ∧
  Sorted Z.le (sorted_keys all_coeffs) ∧
  (∀ body_id, body_id ∈ sorted_keys all_coeffs ↔ is_Some (all_coeffs !! body_id)) ∧
  ∀ (k : nat) (body_id : Z), sorted_keys all_coeffs !! k = Some body_id →
    let entry := Struct.slice (512 + 36 * k) (512 + 36 * k + 36) bytes in
    Struct.unpack_i Struct.Little (Struct.slice 0 4 entry) = Some body_id ∧
    Struct.le_to_Z (Struct.slice 28 36 entry)
    = 512 + B * 36 + I * 16 + Z.of_nat k * I * 3 * (d + 1) * 8.
Proof.
  intros Hshape Hw B I d. unfold _write_eph_file in Hw.
  destruct (pack_header _ _ _ _ _ _ _) as [h|] eqn:Hh; [|done]. simpl in Hw.
  destruct (mapM _ _) as [table|] eqn:Ht; [|done]. simpl in Hw.
  injection Hw as <-.
  pose proof (length_pack_header pack_d pack_d_length _ _ _ _ _ _ _ Hh) as Hlh.
  rewrite Hlh. change (Z.to_nat (HEADER_SIZE - Z.of_nat 44)) with 468%nat.
  set (header := h ++ replicate 468 x00).
  assert (length header = 512%nat) as Hheader
    by (unfold header; rewrite length_app, length_replicate; lia).
  pose proof (mapM_Some_1 _ _ _ Ht) as Hf2.
  assert (Forall (λ c, length c = 36%nat) table) as Htab.
  { eapply Forall2_Forall_r; [exact Hf2|]. apply Forall_forall.
    intros ib _ entry. apply length_body_entry. }
  assert (length table = size all_coeffs) as Hlt.
  { rewrite <- (length_mapM _ _ _ Ht), length_enumerate. apply sorted_keys_length. }
  split; [|split; [apply sorted_keys_sorted|split; [apply sorted_keys_elem|]]].
  - rewrite !length_app, !Nat2Z.inj_add, Hheader.
    rewrite (length_concat_const _ 36), Hlt by done.
    rewrite (length_concat_map_Z (interval_entry pack_d) intervals 16).
    2:{ apply Forall_forall. intros [s e] _. unfold interval_entry.
        rewrite length_app, !pack_d_length. done. }
    rewrite (length_concat_map_Z _ (sorted_keys all_coeffs) (I * (24 * (d + 1)))).
    2:{ apply Forall_forall. intros body_id [cl Hcl]%sorted_keys_elem. rewrite Hcl. simpl.
        destruct (matrix_shape_lookup _ _ _ _ _ Hshape Hcl) as [Hlen Hbl].
        rewrite (length_body_data pack_d pack_d_length d) by done. by rewrite Hlen. }
    rewrite sorted_keys_length. lia.
  - intros k body_id Hk entry.
    pose proof (enumerate_lookup _ _ _ Hk) as Hek.
    destruct (Forall2_lookup_l _ _ _ _ _ Hf2 Hek) as (e & Hte & He).
    assert (entry = e) as -> by (by apply slice_entry).
    apply body_entry_inv in He as (idb & nm & off & -> & H1 & H2 & H3 & Hid & _ & Hoff).
    split.
    + unfold Struct.slice. rewrite drop_0, Nat.sub_0_r, <- H1.
      by rewrite take_app_length.
    + unfold Struct.slice.
      replace 28%nat with (length idb + length nm)%nat by lia.
      rewrite app_assoc, <- length_app, drop_app_length.
      rewrite take_ge by lia. rewrite Hoff.
      unfold data_offset_of, data_start, bytes_per_interval,
        HEADER_SIZE, BODY_ENTRY_SIZE, INTERVAL_ENTRY_SIZE. lia.
Qed.

(** Claim C6. In a file the encoder writes for B bodies, I intervals and
    degree d, the body ids are taken in ascending order, the record of the
    k-th of them (at byte 512 + 36*k) carries that id and
    data_offset = 512 + B*36 + I*16 + k*I*3*(d+1)*8, and the file has
    512 + 36*B + 16*I + 24*(d+1)*I*B bytes. *)
Theorem write_eph_file_layout (all_coeffs : gmap Z (list (Coeffs F)))
    (intervals : list (F * F)) (coeff_degree : Z)
    (interval_days start_jd end_jd : F) (bytes : list byte) :
  matrix_shape all_coeffs (length intervals) coeff_degree = true →
  _write_eph_file pack_d all_coeffs intervals coeff_degree
    interval_days start_jd end_jd = Some bytes →
  let B := Z.of_nat (size all_coeffs) in
  let I := Z.of_nat (length intervals) in
  let d := coeff_degree in
  Z.of_nat (length bytes) = 512 + 36 * B + 16 * I + 24 * (d + 1) * I * B ∧
  Sorted Z.le (sorted_keys all_coeffs) ∧
  (∀ body_id, body_id ∈ sorted_keys all_coeffs ↔ is_Some (all_coeffs !! body_id)) ∧
  ∀ (k : nat) (body_id : Z), sorted_keys all_coeffs !! k = Some body_id →
    let entry := Struct.slice (512 + 36 * k) (512 + 36 * k + 36) bytes in
    Struct.unpack_i Struct.Little (Struct.slice 0 4 entry) = Some body_id ∧
    Struct.le_to_Z (Struct.slice 28 36 entry)
    = 512 + B * 36 + I * 16 + Z.of_nat k * I * 3 * (d + 1) * 8.
Proof. apply write_eph_file_layout_gen. Qed.

End WriterLayout.

(** Witness for claim C6: the demo container (one body, three intervals,
    degree 1) has 740 bytes and its body record points at offset 596. *)
Lemma write_eph_file_layout_witness :
  let bytes := Demo.demo_file in
  Z.of_nat (length bytes) = 512 + 36 * 1 + 16 * 3 + 24 * (1 + 1) * 3 * 1 ∧
  Struct.le_to_Z (Struct.slice 28 36 (Struct.slice 512 548 bytes)) = 596.
Proof.
  destruct (write_eph_file_layout Binary64.pack_d (λ x, length_le_bytes 8 x)
              Demo.demo_coeffs Demo.demo_intervals 1 Demo.d_16 Demo.d_2451545
              Demo.d_2451593 Demo.demo_file) as (Hlen & _ & _ & Hoff).
  - vm_compute. reflexivity.
  - vm_compute. reflexivity.
  - split; [exact Hlen|].
    destruct (Hoff 0%nat 399) as [_ H]; [vm_compute; reflexivity|exact H].
Defined.

(** ** The refit pipeline *)

Section RefitFacts.
Import Refit.
Local Open Scope Q_scope.

Variable spkgps : Z → Q → option pos3.
Variable chebyshev_nodes : nat → list Q.
Variable chebfit : list Q → list Q → nat → option (list Q).

Lemma positions_au_lookup body_id nodes jd_start jd_end m jd :
  jd_samples nodes jd_start jd_end !! m = Some jd →
  positions_au spkgps body_id nodes jd_start jd_end !! m
  = Some (match spkgps body_id ((jd - J2000_JD) * 86400.0) with
          | Some (x, y, z) => (x / KM_PER_AU, y / KM_PER_AU, z / KM_PER_AU)
          | None => (0.0 / KM_PER_AU, 0.0 / KM_PER_AU, 0.0 / KM_PER_AU)
          end).
Proof.
  intros Hm. unfold positions_au.
  change (map ?f ?l) with (f <$> l). rewrite list_lookup_fmap, Hm. simpl.
  unfold sample_position. by destruct (spkgps _ _) as [[[x y] z]|].
Qed.

(** Claim C4, amended. Extraction yields one block per interval; the block
    of an interval is the fit of its sampled positions, in which a sample
    whose source call failed is replaced by (0, 0, 0) and every other
    sample keeps the source position (in AU). *)
Theorem failed_sample_zeroes_only_itself (body_id : Z) (intervals : list (Q * Q))
    (blocks : list (EphWriter.Coeffs Q)) :
  _extract_coefficients spkgps chebyshev_nodes chebfit body_id intervals = Some blocks →
  length blocks = length intervals ∧
  ∀ (k : nat) (iv : Q * Q), intervals !! k = Some iv →
    let nodes := chebyshev_nodes 8%nat in
    let positions := positions_au spkgps body_id nodes iv.1 iv.2 in
    (∃ block, blocks !! k = Some block ∧
       chebfit nodes (map (λ p, p.1.1) positions) 7%nat = Some (EphWriter.x_coeffs block) ∧
       chebfit nodes (map (λ p, p.1.2) positions) 7%nat = Some (EphWriter.y_coeffs block) ∧
       chebfit nodes (map (λ p, p.2) positions) 7%nat = Some (EphWriter.z_coeffs block)) ∧
    ∀ (m : nat) (jd : Q), jd_samples nodes iv.1 iv.2 !! m = Some jd →
      positions !! m
      = Some (match spkgps body_id ((jd - J2000_JD) * 86400.0) with
              | Some (x, y, z) => (x / KM_PER_AU, y / KM_PER_AU, z / KM_PER_AU)
              | None => (0.0 / KM_PER_AU, 0.0 / KM_PER_AU, 0.0 / KM_PER_AU)
              end).
Proof.
  intros He. unfold _extract_coefficients in He.
  split; [symmetry; by eapply length_mapM|].
  intros k iv Hk nodes positions. split; [|intros m jd; apply positions_au_lookup].
  destruct (Forall2_lookup_l _ _ _ _ _ (mapM_Some_1 _ _ _ He) Hk) as (block & Hb & Hfit).
  exists block. split; [done|].
  subst nodes positions. unfold fit_interval in Hfit. simpl in Hfit.
  destruct (chebfit _ (map (λ p, p.1.1) _) 7) as [xc|]; [simpl in Hfit|done].
  destruct (chebfit _ (map (λ p, p.1.2) _) 7) as [yc|]; [simpl in Hfit|done].
  destruct (chebfit _ (map (λ p, p.2) _) 7) as [zc|]; [simpl in Hfit|done].
  by injection Hfit as <-.
Qed.

End RefitFacts.

(** Witness for claim C4 (amended): a source that fails on the last day
    of the first interval. *)
Lemma failed_sample_zeroes_only_itself_witness :
  let intervals := [(2451545 # 1, 2451561 # 1); (2451561 # 1, 2451577 # 1)]%Q in
  is_Some (Refit._extract_coefficients DemoInputs.spkgps DemoInputs.chebyshev_nodes
             Refit.chebfit_dct 399 intervals) ∧
  ∃ blocks : list (EphWriter.Coeffs Q), length blocks = 2%nat ∧
    Refit.positions_au DemoInputs.spkgps 399 (DemoInputs.chebyshev_nodes 8)
        (2451545 # 1)%Q (2451561 # 1)%Q !! 0%nat
      = Some (0.0 / Refit.KM_PER_AU, 0.0 / Refit.KM_PER_AU, 0.0 / Refit.KM_PER_AU)%Q ∧
    Refit.positions_au DemoInputs.spkgps 399 (DemoInputs.chebyshev_nodes 8)
        (2451545 # 1)%Q (2451561 # 1)%Q !! 1%nat
      = Some (Refit.KM_PER_AU / Refit.KM_PER_AU, 0 / Refit.KM_PER_AU, 0 / Refit.KM_PER_AU)%Q.
Proof.
  intros intervals.
  assert (is_Some (Refit._extract_coefficients DemoInputs.spkgps
                     DemoInputs.chebyshev_nodes Refit.chebfit_dct 399 intervals))
    as Hsome by (vm_compute; eexists; reflexivity).
  split; [exact Hsome|]. destruct Hsome as [blocks He]. exists blocks.
  destruct (failed_sample_zeroes_only_itself _ _ _ _ _ _ He) as [Hlen Hblocks].
  split; [exact Hlen|].
  destruct (Hblocks 0%nat (2451545 # 1, 2451561 # 1)%Q eq_refl) as [_ Hpos].
  cbn [fst snd] in Hpos. split.
  - erewrite Hpos by (vm_compute; reflexivity). vm_compute. reflexivity.
  - erewrite Hpos by (vm_compute; reflexivity). vm_compute. reflexivity.
Defined.

(** Counterexample to claim C4 as stated: with one failed sample out of
    eight the fitted block is not zero (its leading x coefficient is the
    mean of the samples). *)
Lemma failed_sample_does_not_zero_block :
  ¬ SpecClaims.failed_sample_zeroes_block DemoInputs.spkgps DemoInputs.chebyshev_nodes
      Refit.chebfit_dct.
Proof.
  intros H.
  set (iv := (2451545 # 1, 2451561 # 1)%Q).
  set (samples := Refit.jd_samples (DemoInputs.chebyshev_nodes 8) iv.1 iv.2).
  set (fit := Refit.fit_interval DemoInputs.spkgps DemoInputs.chebyshev_nodes
                Refit.chebfit_dct 399 iv).
  assert (samples !! 0%nat = Some (hd 0%Q samples)) as Hjd
    by (vm_compute; reflexivity).
  assert (DemoInputs.spkgps 399 ((hd 0%Q samples - Refit.J2000_JD) * 86400.0)%Q = None)
    as Hfail by (vm_compute; reflexivity).
  assert (match fit with
          | Some block => negb (Qeq_bool 0 (hd 0%Q (EphWriter.x_coeffs block)))
                          && negb (length (EphWriter.x_coeffs block) =? 0)%nat
          | None => false
          end = true) as Hchk by (vm_compute; reflexivity).
  destruct fit as [block|] eqn:Hb; [|discriminate Hchk].
  apply andb_true_iff in Hchk as [Hnz Hne].
  destruct (H 399 iv block (hd 0%Q samples)) as [Hx _].
  - eapply list_elem_of_lookup_2. exact Hjd.
  - exact Hfail.
  - exact Hb.
  - destruct (EphWriter.x_coeffs block) as [|c0 cs]; [discriminate Hne|].
    apply Forall_cons_1 in Hx as [Hx _]. cbn [hd] in Hnz.
    apply Qeq_bool_iff in Hx. rewrite Hx in Hnz. discriminate Hnz.
Qed.

Section ConvertFacts.
Import Refit.

Variable spkgps : Z → Q → option pos3.
Variable chebyshev_nodes : nat → list Q.
Variable chebfit : list Q → list Q → nat → option (list Q).
Variable pack_d : Q → list byte.
Hypothesis pack_d_length : ∀ x, length (pack_d x) = 8%nat.
(** numpy's [chebfit] returns [deg + 1] coefficients. *)
Hypothesis chebfit_length : ∀ nodes values deg cs,
  chebfit nodes values deg = Some cs → length cs = S deg.

Lemma matrix_shape_intro {F} (m : gmap Z (list (EphWriter.Coeffs F))) n d :
  (∀ body_id cl, m !! body_id = Some cl →
     length cl = n ∧ Forall (λ c, EphWriter.block_shape d c = true) cl) →
  EphWriter.matrix_shape m n d = true.
Proof.
  intros H. unfold EphWriter.matrix_shape. apply forallb_forall.
  intros [body_id cl] Hin%list_elem_of_In%elem_of_map_to_list.
  destruct (H _ _ Hin) as [Hlen Hall]. simpl.
  rewrite andb_true_iff, Nat.eqb_eq, forallb_forall. split; [done|].
  intros c Hc%list_elem_of_In. by eapply Forall_forall in Hall.
Qed.

Lemma fit_interval_shape body_id iv block :
  fit_interval spkgps chebyshev_nodes chebfit body_id iv = Some block →
  EphWriter.block_shape 7 block = true.
Proof.
  unfold fit_interval. intros H. simpl in H.
  destruct (chebfit _ (map (λ p, p.1.1) _) 7) as [xc|] eqn:Hx; [simpl in H|done].
  destruct (chebfit _ (map (λ p, p.1.2) _) 7) as [yc|] eqn:Hy; [simpl in H|done].
  destruct (chebfit _ (map (λ p, p.2) _) 7) as [zc|] eqn:Hz; [simpl in H|done].
  injection H as <-. unfold EphWriter.block_shape. cbn [EphWriter.x_coeffs
    EphWriter.y_coeffs EphWriter.z_coeffs].
  rewrite (chebfit_length _ _ _ _ Hx), (chebfit_length _ _ _ _ Hy),
    (chebfit_length _ _ _ _ Hz). done.
Qed.

Lemma extract_coefficients_shape body_id intervals cl :
  _extract_coefficients spkgps chebyshev_nodes chebfit body_id intervals = Some cl →
  length cl = length intervals ∧ Forall (λ c, EphWriter.block_shape 7 c = true) cl.
Proof.
  intros H. split; [symmetry; by eapply length_mapM|].
  eapply Forall2_Forall_r; [exact (mapM_Some_1 _ _ _ H)|].
  apply Forall_forall. intros iv _ c. apply fit_interval_shape.
Qed.

Lemma extract_all_shape body_ids intervals :
  EphWriter.matrix_shape (extract_all spkgps chebyshev_nodes chebfit body_ids intervals)
    (length intervals) 7 = true.
Proof.
  apply matrix_shape_intro. unfold extract_all.
  set (f := λ (all_coeffs : gmap Z (list (EphWriter.Coeffs Q))) (body_id : Z), _).
  assert (∀ m0 : gmap Z (list (EphWriter.Coeffs Q)),
    (∀ body_id cl, m0 !! body_id = Some cl →
       length cl = length intervals ∧ Forall (λ c, EphWriter.block_shape 7 c = true) cl) →
    ∀ body_id cl, fold_left f body_ids m0 !! body_id = Some cl →
       length cl = length intervals ∧ Forall (λ c, EphWriter.block_shape 7 c = true) cl)
    as Hinv.
  { induction body_ids as [|b bs IH]; intros m0 Hm0; [done|].
    cbn [fold_left]. apply IH. unfold f.
    destruct (_extract_coefficients _ _ _ b intervals) as [cl0|] eqn:Hb; [|done].
    intros body_id cl. destruct (decide (body_id = b)) as [->|Hne].
    - rewrite lookup_insert_eq. intros [= <-]. by eapply extract_coefficients_shape.
    - rewrite lookup_insert_ne by done. apply Hm0. }
  apply Hinv. intros body_id cl. by rewrite lookup_empty.
Qed.

Lemma first_degree_7 body_ids intervals d :
  first_degree spkgps chebyshev_nodes chebfit body_ids intervals = Some d → d = 7.
Proof.
  unfold first_degree. intros H.
  destruct (head (omap _ body_ids)) as [cl|] eqn:Hh; [simpl in H|done].
  destruct (head cl) as [c|] eqn:Hc; [simpl in H|done]. injection H as <-.
  apply head_Some_elem_of in Hh, Hc.
  apply list_elem_of_omap in Hh as (b & _ & Hb).
  apply extract_coefficients_shape in Hb as [_ Hall].
  eapply Forall_forall in Hall; [|exact Hc].
  unfold EphWriter.block_shape in Hall. rewrite !andb_true_iff, !Z.eqb_eq in Hall. lia.
Qed.

(** Every file [convert] writes has the layout of claim C6 with d = 7:
    the shape hypothesis of [write_eph_file_layout] holds for what
    [convert] hands to the encoder. *)
Lemma convert_layout body_ids intervals interval_days start_jd end_jd bytes :
  convert_from spkgps chebyshev_nodes chebfit pack_d body_ids intervals
    interval_days start_jd end_jd = Some bytes →
  let B := Z.of_nat (size (extract_all spkgps chebyshev_nodes chebfit body_ids intervals)) in
  let I := Z.of_nat (length intervals) in
  Z.of_nat (length bytes) = 512 + 36 * B + 16 * I + 24 * (7 + 1) * I * B.
Proof.
  unfold convert_from. intros H.
  destruct (first_degree _ _ _ _ _) as [d|] eqn:Hd; [simpl in H|done].
  apply first_degree_7 in Hd as ->.
  by destruct (write_eph_file_layout_gen pack_d pack_d_length _ _ _ _ _ _ _
                 (extract_all_shape body_ids intervals) H) as [Hlen _].
Qed.

End ConvertFacts.

(** ** The query engine *)

Section SearchFacts.
Import EphReader.

Lemma Qltb_lt a b : Qltb a b = true ↔ (a < b)%Q.
Proof.
  unfold Qltb. rewrite negb_true_iff, <- not_true_iff_false, Qle_bool_iff.
  split; intros H; Lqa.lra.
Qed.

Lemma Qltb_ge a b : Qltb a b = false ↔ (b <= a)%Q.
Proof. unfold Qltb. by rewrite negb_false_iff, Qle_bool_iff. Qed.

Lemma tiles_le lo ivs hi : tiles lo ivs hi = true → (lo <= hi)%Q.
Proof.
  revert lo; induction ivs as [|[s e] rest IH]; intros lo; simpl.
  - intros H%Qeq_bool_eq. Lqa.lra.
  - rewrite !andb_true_iff, Qltb_lt. intros [[H1%Qeq_bool_eq H2] H3%IH]. Lqa.lra.
Qed.

Lemma tiles_lookup lo ivs hi i s e :
  tiles lo ivs hi = true → ivs !! i = Some (s, e) → (lo <= s ∧ s < e ∧ e <= hi)%Q.
Proof.
  revert lo i; induction ivs as [|[s0 e0] rest IH]; intros lo i; simpl; [done|].
  rewrite !andb_true_iff, Qltb_lt. intros [[H1%Qeq_bool_eq H2] H3].
  destruct i as [|i]; simpl.
  - intros [= -> ->]. apply tiles_le in H3. repeat split; Lqa.lra.
  - intros Hi. destruct (IH _ _ H3 Hi) as (?&?&?). repeat split; Lqa.lra.
Qed.

Lemma tiles_mono lo ivs hi i j s e s' e' :
  tiles lo ivs hi = true → (i < j)%nat →
  ivs !! i = Some (s, e) → ivs !! j = Some (s', e') → (e <= s')%Q.
Proof.
  revert lo i j; induction ivs as [|[s0 e0] rest IH]; intros lo i j; simpl; [done|].
  rewrite !andb_true_iff. intros [_ H3] Hij.
  destruct j as [|j]; [lia|]. destruct i as [|i]; simpl.
  - intros [= -> ->] Hj. by destruct (tiles_lookup _ _ _ _ _ _ H3 Hj) as (?&_).
  - intros Hi Hj. eapply (IH _ i j); eauto. lia.
Qed.

Lemma tiles_adjacent lo ivs hi i s e s' e' :
  tiles lo ivs hi = true →
  ivs !! i = Some (s, e) → ivs !! S i = Some (s', e') → (e == s')%Q.
Proof.
  revert lo i; induction ivs as [|[s0 e0] rest IH]; intros lo i; simpl; [done|].
  rewrite !andb_true_iff. intros [_ H3].
  destruct i as [|i]; simpl.
  - intros [= -> ->]. destruct rest as [|[s1 e1] rest]; simpl; [done|].
    intros [= -> ->]. simpl in H3. rewrite !andb_true_iff in H3.
    by destruct H3 as [[H%Qeq_bool_eq _] _].
  - intros Hi Hj. eapply (IH _ i); eauto.
Qed.

Lemma tiles_cover lo ivs hi jd :
  tiles lo ivs hi = true → ivs ≠ [] → (lo <= jd ∧ jd <= hi)%Q →
  ∃ i s e, ivs !! i = Some (s, e) ∧ (s <= jd ∧ jd <= e)%Q.
Proof.
  revert lo; induction ivs as [|[s0 e0] rest IH]; intros lo; simpl; [done|].
  rewrite !andb_true_iff, Qltb_lt. intros [[H1%Qeq_bool_eq H2] H3] _ [Hlo Hhi].
  destruct (Qlt_le_dec e0 jd) as [Hlt|Hle].
  - destruct rest as [|p rest].
    + simpl in H3. apply Qeq_bool_eq in H3. Lqa.lra.
    + destruct (IH e0 H3) as (i & s & e & Hi & Hin); [done|split; Lqa.lra|].
      exists (S i), s, e. done.
  - exists 0%nat, s0, e0. split; [done|]. split; Lqa.lra.
Qed.

Lemma py_index_nonneg {A} (l : list A) i : 0 ≤ i → py_index l i = l !! Z.to_nat i.
Proof. intros. unfold py_index. by rewrite (proj2 (Z.leb_le 0 i)). Qed.

Lemma find_loop_sound ivs jd fuel left right i :
  0 ≤ left → find_loop fuel ivs jd left right = Return i →
  left ≤ i ≤ right ∧ ∃ s e, ivs !! Z.to_nat i = Some (s, e) ∧ (s <= jd ∧ jd <= e)%Q.
Proof.
  revert left right; induction fuel as [|fuel IH]; intros left right Hl; simpl; [done|].
  destruct (Z.leb_spec left right) as [Hlr|Hlr]; [|destruct ivs; intros; discriminate].
  assert (left ≤ (left + right) `div` 2 ≤ right) as Hmid
    by (split; [apply Z.div_le_lower_bound|apply Z.div_le_upper_bound]; lia).
  set (mid := (left + right) `div` 2) in *.
  rewrite py_index_nonneg by lia.
  destruct (ivs !! Z.to_nat mid) as [[s e]|] eqn:Hlk; [|done].
  destruct (Qltb jd s) eqn:H1.
  { intros H%IH; [|lia]. destruct H as [? ?]. split; [lia|done]. }
  destruct (Qltb e jd) eqn:H2.
  { intros H%IH; [|lia]. destruct H as [? ?]. split; [lia|done]. }
  intros [= <-]. split; [lia|]. exists s, e. split; [done|].
  apply Qltb_ge in H1, H2. done.
Qed.

(** The [while] loop always leaves within [length intervals] passes:
    the fuel given by [_find_interval] is never exhausted. *)
Lemma find_loop_terminates ivs jd fuel left right :
  left ≤ right + 1 → right - left + 1 < Z.of_nat fuel →
  find_loop fuel ivs jd left right ≠ Timeout.
Proof.
  revert left right; induction fuel as [|fuel IH]; intros left right Hinv Hfuel; [lia|].
  cbn [find_loop]. destruct (Z.leb_spec left right) as [Hlr|Hlr]; [|by destruct ivs].
  assert (left ≤ (left + right) `div` 2 ≤ right) as Hmid
    by (split; [apply Z.div_le_lower_bound|apply Z.div_le_upper_bound]; lia).
  destruct (py_index ivs _) as [[s e]|]; [|done].
  destruct (Qltb jd s); [apply IH; lia|].
  destruct (Qltb e jd); [apply IH; lia|done].
Qed.

Lemma find_interval_terminates self jd : _find_interval self jd ≠ Timeout.
Proof. unfold _find_interval. apply find_loop_terminates; lia. Qed.

Lemma find_loop_complete lo ivs hi jd fuel left right :
  tiles lo ivs hi = true → ivs ≠ [] →
  0 ≤ left ≤ right + 1 → right < Z.of_nat (length ivs) →
  right - left + 1 < Z.of_nat fuel →
  (∀ i s e, Z.of_nat i < left → ivs !! i = Some (s, e) → (e < jd)%Q) →
  (∀ i s e, right < Z.of_nat i → ivs !! i = Some (s, e) → (jd < s)%Q) →
  (∃ i, find_loop fuel ivs jd left right = Return i) ∨
  (find_loop fuel ivs jd left right = Raise OutOfRange ∧
   ∀ i s e, ivs !! i = Some (s, e) → (e < jd ∨ jd < s)%Q).
Proof.
  intros Ht Hne. revert left right; induction fuel as [|fuel IH];
    intros left right Hl Hr Hfuel Hbelow Habove; simpl.
  { lia. }
  destruct (Z.leb_spec left right) as [Hlr|Hlr].
  - assert (left ≤ (left + right) `div` 2 ≤ right) as Hmid
      by (split; [apply Z.div_le_lower_bound|apply Z.div_le_upper_bound]; lia).
    set (mid := (left + right) `div` 2) in *.
    rewrite py_index_nonneg by lia.
    destruct (lookup_lt_is_Some_2 ivs (Z.to_nat mid)) as [[s e] Hlk]; [lia|].
    rewrite Hlk. destruct (tiles_lookup _ _ _ _ _ _ Ht Hlk) as (_ & Hse & _).
    destruct (Qltb jd s) eqn:H1; [|destruct (Qltb e jd) eqn:H2].
    + apply Qltb_lt in H1. apply IH; [lia..| |]; [intros i' ????; by eapply (Hbelow i')|].
      intros i s' e' Hi Hlk'.
      destruct (decide (i = Z.to_nat mid)) as [->|Hne'].
      { rewrite Hlk in Hlk'. by simplify_eq. }
      assert (e <= s')%Q by (eapply (tiles_mono _ _ _ (Z.to_nat mid) i); eauto; lia).
      Lqa.lra.
    + apply Qltb_lt in H2. apply IH; [lia..| |]; [|intros i' ????; eapply (Habove i'); [lia|done]].
      intros i s' e' Hi Hlk'.
      destruct (decide (i = Z.to_nat mid)) as [->|Hne'].
      { rewrite Hlk in Hlk'. by simplify_eq. }
      assert (e' <= s)%Q by (eapply (tiles_mono _ _ _ i (Z.to_nat mid)); eauto; lia).
      Lqa.lra.
    + left. eauto.
  - right. split; [by destruct ivs|].
    intros i s e Hlk. destruct (Z.lt_ge_cases (Z.of_nat i) left).
    + left. by eapply (Hbelow i s e).
    + right. eapply (Habove i s e); [lia|done].
Qed.
End SearchFacts.

Section ComputeFacts.
Import EphReader.

Lemma find_interval_spec self jd lo hi :
  tiles lo (intervals self) hi = true → intervals self ≠ [] →
  (∃ i s e, _find_interval self jd = Return i ∧
            intervals self !! Z.to_nat i = Some (s, e) ∧ 0 ≤ i ∧
            (lo <= s ∧ s <= jd ∧ jd <= e ∧ e <= hi ∧ s < e)%Q) ∨
  (_find_interval self jd = Raise OutOfRange ∧ (jd < lo ∨ hi < jd)%Q).
Proof.
  intros Ht Hne. unfold _find_interval.
  destruct (find_loop_complete lo (intervals self) hi jd
              (S (length (intervals self))) 0 (Z.of_nat (length (intervals self)) - 1))
    as [[i Hi]|[Hr Hno]]; [done|done|lia|lia|lia| | | |].
  { intros i s e Hi. lia. }
  { intros i s e Hi Hlk%lookup_lt_Some. lia. }
  - left. destruct (find_loop_sound _ _ _ _ _ _ (Z.le_refl 0) Hi) as [Hrange (s & e & Hlk & Hin)].
    exists i, s, e. destruct (tiles_lookup _ _ _ _ _ _ Ht Hlk) as (?&?&?).
    repeat split; try done; try lia; Lqa.lra.
  - right. split; [done|].
    destruct (Qlt_le_dec jd lo) as [?|Hlo]; [by left|].
    destruct (Qlt_le_dec hi jd) as [?|Hhi]; [by right|].
    destruct (tiles_cover lo _ hi jd Ht Hne) as (i & s & e & Hlk & Hin); [done|].
    destruct (Hno _ _ _ Hlk); Lqa.lra.
Qed.

Lemma t_normalized_ok jd s e :
  (s < e)%Q →
  t_normalized jd s e = Return (2 * (jd - s) / (e - s) - 1)%Q.
Proof.
  intros Hse. unfold t_normalized.
  destruct (Qeq_bool (e - s) 0) eqn:H; [|done].
  apply Qeq_bool_eq in H. Lqa.lra.
Qed.

Lemma length_seek_read f offset size :
  0 ≤ offset → 0 ≤ size → offset + size ≤ Z.of_nat (length f) →
  length (seek_read f offset size) = Z.to_nat size.
Proof. intros. unfold seek_read. rewrite length_take, length_drop. lia. Qed.

Lemma container_inv self :
  container self = true →
  intervals self ≠ [] ∧
  tiles (start_jd (header self)) (intervals self) (end_jd (header self)) = true ∧
  0 ≤ coeff_degree (header self) ∧
  ∀ body_id body, bodies self !! body_id = Some body →
    0 ≤ data_offset body ∧
    data_offset body
      + Z.of_nat (length (intervals self)) * (3 * (coeff_degree (header self) + 1) * 8)
    ≤ Z.of_nat (length (file self)).
Proof.
  unfold container. rewrite !andb_true_iff, negb_true_iff, Nat.eqb_neq, Z.leb_le.
  rewrite forallb_forall. intros [[[Hne Ht] Hd] Hall].
  repeat split; try done.
  - by destruct (intervals self).
  - specialize (Hall (body_id, body)). unfold matrix_in_file in Hall. simpl in Hall.
    rewrite andb_true_iff, Z.leb_le in Hall. apply Hall.
    apply list_elem_of_In. by apply elem_of_map_to_list.
  - specialize (Hall (body_id, body)). unfold matrix_in_file in Hall. simpl in Hall.
    rewrite andb_true_iff, !Z.leb_le in Hall. apply Hall.
    apply list_elem_of_In. by apply elem_of_map_to_list.
Qed.

Lemma read_coefficients_ok unpack_d self body_id body i :
  container self = true → bodies self !! body_id = Some body →
  0 ≤ i < Z.of_nat (length (intervals self)) →
  ∃ r0 r1 r2, _read_coefficients unpack_d self body_id i = Return [r0; r1; r2].
Proof.
  intros (Hne & Ht & Hd & Hoff)%container_inv Hb Hi.
  unfold _read_coefficients. rewrite Hb.
  destruct (Hoff _ _ Hb) as [Hoff0 Hoff1].
  set (d := coeff_degree (header self)) in *.
  assert (length (seek_read (file self) (coeff_offset body d i) (coeff_size d))
          = (8 * (3 * Z.to_nat d))%nat) as Hlen.
  { rewrite length_seek_read; unfold coeff_offset, coeff_size; nia. }
  unfold frombuffer. rewrite Hlen.
  rewrite (Nat.mul_comm 8), Nat.Div0.mod_mul, Nat.div_mul by done. simpl.
  unfold reshape3. rewrite length_map, length_seq.
  rewrite (proj2 (Z.eqb_eq _ _)) by lia. eauto.
Qed.

Lemma compute_ok unpack_d self body_id body jd i s e :
  container self = true → bodies self !! body_id = Some body →
  _find_interval self jd = Return i → 0 ≤ i →
  intervals self !! Z.to_nat i = Some (s, e) → (s < e)%Q →
  ∃ x y z, compute unpack_d self body_id jd = Return [("pos"%string, [x; y; z])].
Proof.
  intros Hc Hb Hf Hi Hlk Hse. unfold compute. rewrite Hf. simpl.
  rewrite py_index_nonneg, Hlk by done. rewrite t_normalized_ok by done. simpl.
  destruct (read_coefficients_ok unpack_d self body_id body i Hc Hb) as (r0 & r1 & r2 & ->).
  { apply lookup_lt_Some in Hlk. lia. }
  simpl. eauto.
Qed.

End ComputeFacts.

Section QueryFacts.
Import EphReader.

(** Claim C7. On a container whose index tiles [start_jd, end_jd], for a
    body of the body table, [compute] raises the out-of-range error exactly
    when jd < start_jd or jd > end_jd; every jd inside the closed range,
    both ends included, yields a position. *)
Theorem compute_out_of_range_iff unpack_d (self : Reader) (body_id : Z) (jd : Q) :
  container self = true → is_Some (bodies self !! body_id) →
  (compute unpack_d self body_id jd = Raise OutOfRange
   ↔ (jd < start_jd (header self) ∨ end_jd (header self) < jd)%Q) ∧
  ((start_jd (header self) <= jd ∧ jd <= end_jd (header self))%Q →
   ∃ x y z, compute unpack_d self body_id jd = Return [("pos"%string, [x; y; z])]).
Proof.
  intros Hc [body Hb]. pose proof Hc as (Hne & Ht & _)%container_inv.
  destruct (find_interval_spec self jd _ _ Ht Hne)
    as [(i & s & e & Hf & Hlk & Hi & Hin)|[Hf Hout]].
  - destruct (compute_ok unpack_d self body_id body jd i s e) as (x & y & z & Hr);
      try done; [Lqa.lra|].
    split; [|by eauto]. rewrite Hr. split; [done|]. Lqa.lra.
  - assert (compute unpack_d self body_id jd = Raise OutOfRange) as Hr
      by (unfold compute; by rewrite Hf).
    split; [by rewrite Hr|]. Lqa.lra.
Qed.

(** Claim C10. A successful [compute] returns a dict with the single key
    "pos" holding three numbers; no velocity is returned. *)
Theorem compute_returns_position_only unpack_d (self : Reader) (body_id : Z)
    (jd : Q) (result : list (string * list Q)) :
  compute unpack_d self body_id jd = Return result →
  ∃ x y z, result = [("pos"%string, [x; y; z])] ∧
           ∀ key value, (key, value) ∈ result → key ≠ "vel"%string.
Proof.
  unfold compute. destruct (_find_interval self jd) as [i| |]; [simpl|done|done].
  destruct (py_index _ _) as [[s e]|]; [|done].
  destruct (t_normalized jd s e) as [t| |]; [simpl|done|done].
  destruct (_read_coefficients _ _ _ _) as [rows| |]; [simpl|done|done].
  intros [= <-]. eexists _, _, _. split; [done|].
  intros key value [= -> _]%list_elem_of_singleton. done.
Qed.

Lemma t_normalized_end jd s e :
  (s < e)%Q → (jd == e)%Q →
  ∃ t, t_normalized jd s e = Return t ∧ (t == 1)%Q.
Proof.
  intros Hse Hjd. rewrite t_normalized_ok by done. eexists. split; [done|].
  rewrite Hjd. field. Lqa.lra.
Qed.

Lemma t_normalized_start jd s e :
  (s < e)%Q → (jd == s)%Q →
  ∃ t, t_normalized jd s e = Return t ∧ (t == -1)%Q.
Proof.
  intros Hse Hjd. rewrite t_normalized_ok by done. eexists. split; [done|].
  rewrite Hjd. field. Lqa.lra.
Qed.

(** Claim C2, amended. At an interior boundary (jd_end of interval j equal
    to jd_start of interval j+1) the search returns one of the two
    intervals that share the boundary: j, and then the normalized time is
    +1, or j+1, and then it is -1. *)
Theorem boundary_selects_adjacent (self : Reader) (jd : Q) (j : nat) (s e s' e' : Q) :
  container self = true →
  intervals self !! j = Some (s, e) → intervals self !! S j = Some (s', e') →
  (jd == e)%Q →
  ∃ i t, _find_interval self jd = Return i ∧
    ((i = Z.of_nat j ∧ t_normalized jd s e = Return t ∧ (t == 1)%Q) ∨
     (i = Z.of_nat (S j) ∧ t_normalized jd s' e' = Return t ∧ (t == -1)%Q)).
Proof.
  intros (Hne & Ht & _)%container_inv Hj Hj' Hjd.
  destruct (tiles_lookup _ _ _ _ _ _ Ht Hj) as (Hlo & Hse & _).
  destruct (tiles_lookup _ _ _ _ _ _ Ht Hj') as (_ & Hse' & Hhi).
  pose proof (tiles_adjacent _ _ _ _ _ _ _ _ Ht Hj Hj') as Hadj.
  destruct (find_interval_spec self jd _ _ Ht Hne)
    as [(i & si & ei & Hf & Hlk & Hi & Hin)|[Hf Hout]]; [|Lqa.lra].
  exists i. rewrite Hf.
  destruct (Nat.lt_total (Z.to_nat i) j) as [Hlt|[Heq|Hgt]].
  - pose proof (tiles_mono _ _ _ _ _ _ _ _ _ Ht Hlt Hlk Hj). Lqa.lra.
  - subst j. rewrite Hlk in Hj. injection Hj as -> ->.
    destruct (t_normalized_end jd s e) as (t & Hn & Ht1); [done..|].
    exists t. split; [done|]. left. split; [lia|done].
  - destruct (decide (Z.to_nat i = S j)) as [Heq|Hne'].
    + rewrite Heq, Hj' in Hlk. injection Hlk as <- <-.
      destruct (t_normalized_start jd s' e') as (t & Hn & Ht1); [done|Lqa.lra|].
      exists t. split; [done|]. right. split; [lia|done].
    + assert (S j < Z.to_nat i)%nat as Hlt by lia.
      pose proof (tiles_mono _ _ _ _ _ _ _ _ _ Ht Hlt Hj' Hlk). Lqa.lra.
Qed.

(** Claim C1 (the code departs from it). Whenever [_read_coefficients]
    returns, the block it read is 3*degree doubles, taken at
    data_offset + interval_idx * (3*degree*8); that size differs from the
    3*(degree+1)*8 bytes the encoder writes per block. *)
Theorem read_coefficients_block unpack_d (self : Reader) (body_id interval_idx : Z)
    (rows : list (list Q)) :
  _read_coefficients unpack_d self body_id interval_idx = Return rows →
  let degree := coeff_degree (header self) in
  ∃ body coeffs,
    bodies self !! body_id = Some body ∧
    frombuffer unpack_d
      (seek_read (file self) (data_offset body + interval_idx * (3 * degree * 8))
                 (3 * degree * 8)) = Return coeffs ∧
    reshape3 coeffs degree = Return rows ∧
    Z.of_nat (length coeffs) = 3 * degree ∧
    3 * degree * 8 ≠ EphWriter.bytes_per_interval degree.
Proof.
  intros H. cbv zeta. set (degree := coeff_degree (header self)).
  unfold _read_coefficients in H.
  destruct (bodies self !! body_id) as [body|]; [|done].
  fold degree in H. unfold coeff_offset, coeff_size in H.
  destruct (frombuffer _ _) as [coeffs| |] eqn:Hfb; [simpl in H|done|done].
  exists body, coeffs. repeat split; try done.
  - unfold reshape3 in H. destruct (Z.eqb_spec (Z.of_nat (length coeffs)) (3 * degree)); done.
  - unfold EphWriter.bytes_per_interval. lia.
Qed.

End QueryFacts.

Section QueryExamples.
Import EphReader.

(** Witness for claim C7: the demo container queried at its end_jd. *)
Lemma compute_out_of_range_iff_witness :
  container Demo.demo_reader = true ∧
  is_Some (bodies Demo.demo_reader !! 399) ∧
  (compute Binary64.unpack_d Demo.demo_reader 399 (2451593 # 1) = Raise OutOfRange
   ↔ ((2451593 # 1) < start_jd (header Demo.demo_reader)
      ∨ end_jd (header Demo.demo_reader) < (2451593 # 1))%Q) ∧
  ((start_jd (header Demo.demo_reader) <= (2451593 # 1)
    ∧ (2451593 # 1) <= end_jd (header Demo.demo_reader))%Q →
   ∃ x y z, compute Binary64.unpack_d Demo.demo_reader 399 (2451593 # 1)
            = Return [("pos"%string, [x; y; z])]).
Proof.
  split; [vm_compute; reflexivity|].
  split; [vm_compute; eexists; reflexivity|].
  apply compute_out_of_range_iff.
  - vm_compute; reflexivity.
  - vm_compute; eexists; reflexivity.
Defined.

(** Witness for claim C10. *)
Lemma compute_returns_position_only_witness :
  ∃ result,
    compute Binary64.unpack_d Demo.demo_reader 399 (2451561 # 1) = Return result ∧
    ∃ x y z, result = [("pos"%string, [x; y; z])] ∧
             ∀ key value, (key, value) ∈ result → key ≠ "vel"%string.
Proof.
  assert (∃ result, compute Binary64.unpack_d Demo.demo_reader 399 (2451561 # 1)
                    = Return result) as [result Hc]
    by (vm_compute; eexists; reflexivity).
  exists result. split; [exact Hc|].
  exact (compute_returns_position_only _ _ _ _ _ Hc).
Defined.

(** Witness for claim C2 (amended): the boundary 2451561 of the demo
    container. *)
Lemma boundary_selects_adjacent_witness :
  container Demo.demo_reader = true ∧
  intervals Demo.demo_reader !! 0%nat = Some (Demo.jd_2451545, Demo.jd_2451561) ∧
  intervals Demo.demo_reader !! 1%nat = Some (Demo.jd_2451561, Demo.jd_2451577) ∧
  ((2451561 # 1) == Demo.jd_2451561)%Q ∧
  ∃ i t, _find_interval Demo.demo_reader (2451561 # 1) = Return i ∧
    ((i = Z.of_nat 0 ∧
      t_normalized (2451561 # 1) Demo.jd_2451545 Demo.jd_2451561 = Return t ∧ (t == 1)%Q) ∨
     (i = Z.of_nat 1 ∧
      t_normalized (2451561 # 1) Demo.jd_2451561 Demo.jd_2451577 = Return t ∧ (t == -1)%Q)).
Proof.
  assert (container Demo.demo_reader = true) as H1 by (vm_compute; reflexivity).
  assert (intervals Demo.demo_reader !! 0%nat = Some (Demo.jd_2451545, Demo.jd_2451561))
    as H2 by (vm_compute; reflexivity).
  assert (intervals Demo.demo_reader !! 1%nat = Some (Demo.jd_2451561, Demo.jd_2451577))
    as H3 by (vm_compute; reflexivity).
  assert ((2451561 # 1) == Demo.jd_2451561)%Q as H4 by (vm_compute; reflexivity).
  repeat split; try assumption.
  exact (boundary_selects_adjacent _ _ _ _ _ _ _ H1 H2 H3 H4).
Defined.

(** Counterexample to claim C2 as stated: with boundaries 2451545,
    2451561, 2451577, 2451593 a query at 2451561 first probes the middle
    interval, which contains it, and returns index 1, not 0. *)
Lemma boundary_does_not_go_to_earlier : ¬ SpecClaims.boundary_goes_to_earlier.
Proof.
  intros H.
  specialize (H Demo.demo_reader (2451561 # 1) 0%nat
                Demo.jd_2451545 Demo.jd_2451561 Demo.jd_2451561 Demo.jd_2451577).
  assert (_find_interval Demo.demo_reader (2451561 # 1) = Return 1) as Hcode
    by (vm_compute; reflexivity).
  rewrite Hcode in H.
  assert (Return 1 = Return (Z.of_nat 0)) as Habs
    by (apply H; vm_compute; reflexivity).
  discriminate Habs.
Qed.

(** Witness for claim C1's theorem: interval 1 of the demo container. *)
Lemma read_coefficients_block_witness :
  ∃ rows,
    _read_coefficients Binary64.unpack_d Demo.demo_reader 399 1 = Return rows ∧
    let degree := coeff_degree (header Demo.demo_reader) in
    ∃ body coeffs,
      bodies Demo.demo_reader !! 399 = Some body ∧
      frombuffer Binary64.unpack_d
        (seek_read (file Demo.demo_reader) (data_offset body + 1 * (3 * degree * 8))
                   (3 * degree * 8)) = Return coeffs ∧
      reshape3 coeffs degree = Return rows ∧
      Z.of_nat (length coeffs) = 3 * degree ∧
      3 * degree * 8 ≠ EphWriter.bytes_per_interval degree.
Proof.
  assert (∃ rows, _read_coefficients Binary64.unpack_d Demo.demo_reader 399 1
                  = Return rows) as [rows Hr]
    by (vm_compute; eexists; reflexivity).
  exists rows. split; [exact Hr|].
  exact (read_coefficients_block _ _ _ _ _ Hr).
Defined.

(** On the file the encoder wrote, the reader's block for interval 1 is
    three doubles taken from inside the encoder's block for interval 0. *)
Example reader_misreads_encoder_block :
  ∃ rows,
    _read_coefficients Binary64.unpack_d Demo.demo_reader 399 1 = Return rows ∧
    map (map Qred) rows = [[4 # 1]; [5 # 1]; [6 # 1]]%Q ∧
    EphWriter.sorted_keys Demo.demo_coeffs = [399] ∧
    (c ← (Demo.demo_coeffs !! 399) ≫= (.!! 1%nat);
     Some (map (map (λ b, Qred (Binary64.value b)))
             [EphWriter.x_coeffs c; EphWriter.y_coeffs c; EphWriter.z_coeffs c]))
    = Some [[7 # 1; 8 # 1]; [9 # 1; 10 # 1]; [11 # 1; 12 # 1]]%Q.
Proof.
  eexists. split; [vm_compute; reflexivity|].
  repeat split; vm_compute; reflexivity.
Qed.
End QueryExamples.

(** ** The byte-order probe and the name field *)

Section RawSpkFacts.
Import RawSpk Struct.

(** Claim C5, amended. The probe decodes the 32-bit integers at byte
    offsets 8 and 12 (ND and NI) as little-endian and switches to
    big-endian exactly when one of them exceeds 100. *)
Theorem detect_endian_iff (f : list byte) :
  detect_endian f = Big ↔
  ∃ nd ni, unpack_i Little (slice 8 12 (take 1024 f)) = Some nd ∧
           unpack_i Little (slice 12 16 (take 1024 f)) = Some ni ∧
           (100 < nd ∨ 100 < ni).
Proof.
  unfold detect_endian, probe_summary_format.
  change (8 + 4)%nat with 12%nat. change (8 + 8)%nat with 16%nat.
  destruct (unpack_i Little (slice 8 12 (take 1024 f))) as [nd|] eqn:Hnd.
  2:{ split; [done|]. by intros (? & ? & ? & _). }
  destruct (unpack_i Little (slice 12 16 (take 1024 f))) as [ni|] eqn:Hni.
  2:{ split; [done|]. by intros (? & ? & _ & ? & _). }
  destruct ((100 <? nd) || (100 <? ni)) eqn:Hbig.
  - apply orb_true_iff in Hbig. rewrite !Z.ltb_lt in Hbig.
    split; [intros _; by exists nd, ni|intros _].
    by destruct (unpack_i Big (slice 8 12 (take 1024 f))),
      (unpack_i Big (slice 12 16 (take 1024 f))).
  - apply orb_false_iff in Hbig. rewrite !Z.ltb_ge in Hbig.
    split; [done|]. intros (nd' & ni' & [= <-] & [= <-] & H). lia.
Qed.

(** Counterexample to claim C5 as stated: on a little-endian SPK file
    record the bytes at 88..95 are the text "LTL-IEEE"; read as integers
    they exceed the threshold, yet the code stays little-endian. *)
Lemma endian_not_probed_at_88_92 : ¬ SpecClaims.endian_probed_at_88_92.
Proof.
  intros H. specialize (H DemoInputs.daf_file_record).
  assert (detect_endian DemoInputs.daf_file_record = Little) as Hcode
    by (vm_compute; reflexivity).
  assert (spec_detect_endian DemoInputs.daf_file_record = Big) as Hspec
    by (vm_compute; reflexivity).
  rewrite Hcode, Hspec in H. discriminate H.
Qed.
End RawSpkFacts.

Section NameFacts.

(** The name expression on any ASCII name: the first 24 bytes of the name,
    then NUL padding up to 24 bytes. *)
Lemma name_bytes_truncates_at_24 (body_name : string) (bs : list byte) :
  encode_ascii body_name = Some bs →
  ∃ field, name_bytes body_name = Some field ∧
    length field = 24%nat ∧
    field = take 24 bs ++ replicate (24 - length bs) x00 ∧
    ((24 ≤ length bs)%nat → field = take 24 bs).
Proof.
  intros Hbs. unfold name_bytes. rewrite Hbs. simpl.
  eexists. split; [done|]. unfold Struct.ljust. rewrite length_take.
  repeat split.
  - rewrite length_app, length_take, length_replicate. lia.
  - f_equal. f_equal. lia.
  - intros Hlen. replace (24 - 24 `min` length bs)%nat with 0%nat by lia.
    cbn [replicate]. by rewrite app_nil_r.
Qed.

End NameFacts.

(** *** The names the encoder writes *)

Section WrittenNames.
Import EphWriter.

Lemma of_uint_acc_lower (d : Decimal.uint) (acc : positive) :
  Z.pos acc * 10 ^ Z.of_nat (Decimal.nb_digits d) ≤ Z.pos (Pos.of_uint_acc d acc).
Proof.
  revert acc. induction d as [|d IH|d IH|d IH|d IH|d IH|d IH|d IH|d IH|d IH|d IH];
    intros acc; cbn [Pos.of_uint_acc Decimal.nb_digits];
    [rewrite Z.pow_0_r; lia|..];
    rewrite Nat2Z.inj_succ, Z.pow_succ_r by lia;
    (etrans; [|apply IH]);
    pose proof (Z.pow_nonneg 10 (Z.of_nat (Decimal.nb_digits d)) ltac:(lia)); nia.
Qed.

Lemma to_uint_unorm (p : positive) : Decimal.unorm (Pos.to_uint p) = Pos.to_uint p.
Proof.
  rewrite <- (DecimalPos.Unsigned.to_of (Pos.to_uint p)).
  by rewrite DecimalPos.Unsigned.of_to.
Qed.

(** Ten digits are enough for a positive number below [2^31]. *)
Lemma nb_digits_to_uint (p : positive) :
  Z.pos p ≤ 2 ^ 31 → (Decimal.nb_digits (Pos.to_uint p) ≤ 10)%nat.
Proof.
  intros Hp. pose proof (to_uint_unorm p) as Hn.
  pose proof (DecimalPos.Unsigned.of_to p) as Hof.
  pose proof (Unsigned.to_uint_nonnil p) as Hnil.
  pose proof (Unsigned.to_uint_nonzero p) as Hnz.
  destruct (Pos.to_uint p) as [|l|l|l|l|l|l|l|l|l|l] eqn:Hd; [done|..].
  1:{ exfalso. unfold Decimal.unorm in Hn. cbn [Decimal.nzhead] in Hn.
      pose proof (nb_digits_nzhead l) as Hle.
      destruct (Decimal.nzhead l) as [|u|u|u|u|u|u|u|u|u|u] eqn:Hz;
        try discriminate Hn.
      - injection Hn as <-. done.
      - injection Hn as ->. cbn [Decimal.nb_digits] in Hle. lia. }
  all: cbn [Pos.of_uint] in Hof; injection Hof as Hof;
    cbn [Decimal.nb_digits];
    destruct (le_lt_dec (Decimal.nb_digits l) 9) as [|Hbig]; [lia|exfalso];
    match type of Hof with
    | Pos.of_uint_acc _ ?k = _ => pose proof (of_uint_acc_lower l k) as Hlow
    end;
    pose proof (Z.pow_le_mono_r 10 10 (Z.of_nat (Decimal.nb_digits l))
                  ltac:(lia) ltac:(lia)) as Hpow;
    rewrite Hof in Hlow; nia.
Qed.

Lemma string_of_uint_bytes (d : Decimal.uint) :
  forallb (λ b, Struct.Z_of_byte b <? 128) (list_byte_of_string (NilEmpty.string_of_uint d)) = true ∧
  length (list_byte_of_string (NilEmpty.string_of_uint d)) = Decimal.nb_digits d.
Proof.
  induction d as [|d [IH1 IH2]|d [IH1 IH2]|d [IH1 IH2]|d [IH1 IH2]|d [IH1 IH2]
                  |d [IH1 IH2]|d [IH1 IH2]|d [IH1 IH2]|d [IH1 IH2]|d [IH1 IH2]];
    [done|..];
    (split; [exact IH1|cbn [NilEmpty.string_of_uint Decimal.nb_digits];
                       change (list_byte_of_string (String ?c ?s))
                         with (byte_of_ascii c :: list_byte_of_string s);
                       cbn [length]; by rewrite IH2]).
Qed.

(** [str(n)] of a 32-bit integer: ASCII, at most eleven characters. *)
Lemma py_str_bytes (n : Z) :
  - 2 ^ 31 ≤ n < 2 ^ 31 →
  forallb (λ b, Struct.Z_of_byte b <? 128) (list_byte_of_string (py_str n)) = true ∧
  (length (list_byte_of_string (py_str n)) ≤ 11)%nat.
Proof.
  intros Hn. unfold py_str. destruct n as [|p|p]; cbn [Z.to_int NilZero.string_of_int].
  - split; [done|cbn; lia].
  - pose proof (nb_digits_to_uint p ltac:(lia)) as Hd.
    pose proof (Unsigned.to_uint_nonnil p) as Hnil.
    destruct (string_of_uint_bytes (Pos.to_uint p)) as [Ha Hl].
    unfold NilZero.string_of_uint. destruct (Pos.to_uint p); [done|..];
      (split; [exact Ha|rewrite Hl; lia]).
  - pose proof (nb_digits_to_uint p ltac:(lia)) as Hd.
    pose proof (Unsigned.to_uint_nonnil p) as Hnil.
    destruct (string_of_uint_bytes (Pos.to_uint p)) as [Ha Hl].
    change (list_byte_of_string (String ?c ?s))
      with (byte_of_ascii c :: list_byte_of_string s).
    unfold NilZero.string_of_uint. destruct (Pos.to_uint p); [done|..];
      (split; [exact Ha|cbn [length]; rewrite Hl; lia]).
Qed.

Lemma list_byte_of_string_app (s t : string) :
  list_byte_of_string (s +:+ t) = list_byte_of_string s ++ list_byte_of_string t.
Proof.
  induction s as [|c s IH]; [done|].
  change (list_byte_of_string (String c s +:+ t))
    with (byte_of_ascii c :: list_byte_of_string (s +:+ t)).
  by rewrite IH.
Qed.

(** Every name the encoder derives for a 32-bit body id is ASCII and at
    most 15 bytes long. *)
Lemma body_name_of_bytes (body_id : Z) :
  - 2 ^ 31 ≤ body_id < 2 ^ 31 →
  forallb (λ b, Struct.Z_of_byte b <? 128) (list_byte_of_string (body_name_of body_id)) = true ∧
  (length (list_byte_of_string (body_name_of body_id)) ≤ 15)%nat.
Proof.
  intros Hid. unfold body_name_of.
  destruct (BODY_NAMES !! body_id) as [nm|] eqn:Hnm; cbn [default].
  - unfold BODY_NAMES in Hnm. apply elem_of_list_to_map_2 in Hnm.
    assert (∀ q : Z * string, q ∈ [ (0, "SSB"); (1, "Mercury"); (2, "Venus"); (3, "EMB"); (4, "Mars");
      (5, "Jupiter"); (6, "Saturn"); (7, "Uranus"); (8, "Neptune");
      (9, "Pluto"); (10, "Sun"); (199, "Mercury"); (299, "Venus");
      (399, "Earth"); (499, "Mars"); (599, "Jupiter"); (699, "Saturn");
      (799, "Uranus"); (899, "Neptune"); (999, "Pluto"); (301, "Moon") ]%string →
      forallb (λ b, Struct.Z_of_byte b <? 128) (list_byte_of_string q.2) = true ∧
      (length (list_byte_of_string q.2) ≤ 15)%nat) as Hall.
    { apply Forall_forall. repeat constructor; cbn; lia. }
    exact (Hall (body_id, nm) Hnm).
  - rewrite list_byte_of_string_app. destruct (py_str_bytes body_id Hid) as [Ha Hl].
    rewrite forallb_app, Ha, length_app. split; [done|].
    change (length (list_byte_of_string "Body")) with 4%nat. lia.
Qed.

Context {F : Type} (pack_d : F → list byte).
Hypothesis pack_d_length : ∀ x, length (pack_d x) = 8%nat.

(** Claim C9. In every file the encoder writes, the 24-byte name field of
    each body record holds the whole name of the body, at most 15 bytes
    (so at most 23), followed by NUL bytes up to 24, so at least one NUL
    follows the name. The names come from [BODY_NAMES] or are ["Body"]
    and the decimal id, and [struct.pack] accepts only 32-bit ids, so no
    name is long enough to be cut. *)
Theorem written_name_field_nul_terminated (all_coeffs : gmap Z (list (Coeffs F)))
    (intervals : list (F * F)) (coeff_degree : Z)
    (interval_days start_jd end_jd : F) (bytes : list byte) (k : nat) (body_id : Z) :
  _write_eph_file pack_d all_coeffs intervals coeff_degree
    interval_days start_jd end_jd = Some bytes →
  sorted_keys all_coeffs !! k = Some body_id →
  let entry := Struct.slice (512 + 36 * k) (512 + 36 * k + 36) bytes in
  ∃ bs n, encode_ascii (body_name_of body_id) = Some bs ∧
    n = length bs ∧ (n ≤ 23)%nat ∧
    Struct.slice 4 28 entry = bs ++ replicate (24 - n) x00 ∧
    Struct.slice 4 28 entry !! 23%nat = Some x00.
Proof.
  intros Hw Hk. cbv zeta. unfold _write_eph_file in Hw.
  destruct (pack_header _ _ _ _ _ _ _) as [h|] eqn:Hh; [|done]. simpl in Hw.
  destruct (mapM _ _) as [table|] eqn:Ht; [|done]. simpl in Hw.
  injection Hw as <-.
  pose proof (length_pack_header pack_d pack_d_length _ _ _ _ _ _ _ Hh) as Hlh.
  rewrite Hlh. change (Z.to_nat (HEADER_SIZE - Z.of_nat 44)) with 468%nat.
  pose proof (mapM_Some_1 _ _ _ Ht) as Hf2.
  assert (Forall (λ c, length c = 36%nat) table) as Htab.
  { eapply Forall2_Forall_r; [exact Hf2|]. apply Forall_forall.
    intros ib _ e. apply length_body_entry. }
  destruct (Forall2_lookup_l _ _ _ _ _ Hf2 (enumerate_lookup _ _ _ Hk)) as (e & Hte & He).
  rewrite (slice_entry _ _ table k e) by
    (done || (rewrite length_app, length_replicate; lia)).
  unfold body_entry in He.
  apply bind_Some in He as (nm & Hnm & He).
  apply bind_Some in He as (idb & Hidb & He).
  apply bind_Some in He as (off & Hoff & [= <-]).
  assert (- 2 ^ 31 ≤ body_id < 2 ^ 31) as Hid.
  { unfold Struct.pack_i in Hidb. destruct (_ && _) eqn:Hr; [|done]. lia. }
  destruct (body_name_of_bytes body_id Hid) as [Hascii Hlen].
  set (bs := list_byte_of_string (body_name_of body_id)) in *.
  assert (encode_ascii (body_name_of body_id) = Some bs) as Henc
    by (unfold encode_ascii; fold bs; by rewrite Hascii).
  assert (nm = bs ++ replicate (24 - length bs) x00) as Hfield.
  { destruct (name_bytes_truncates_at_24 _ _ Henc) as (field & Hf & _ & Hfe & _).
    assert (nm = field) as -> by congruence.
    by rewrite Hfe, take_ge by lia. }
  assert (Struct.slice 4 28 (idb ++ nm ++ off) = nm) as ->.
  { unfold Struct.slice. rewrite <- (length_pack_i _ _ Hidb), drop_app_length.
    rewrite (length_pack_i _ _ Hidb).
    replace (28 - 4)%nat with (length nm)
      by (rewrite Hfield, length_app, length_replicate; lia).
    by rewrite take_app_length. }
  exists bs, (length bs). split; [done|]. split; [done|]. split; [lia|].
  split; [done|]. rewrite Hfield, lookup_app_r by lia.
  apply lookup_replicate_2. lia.
Qed.

End WrittenNames.

(** Witness for claim C9: the record of body 399 in the demo container
    holds "Earth" and nineteen NUL bytes. *)
Lemma written_name_field_nul_terminated_witness :
  let entry := Struct.slice (512 + 36 * 0) (512 + 36 * 0 + 36) Demo.demo_file in
  ∃ bs n, encode_ascii (body_name_of 399) = Some bs ∧
    n = length bs ∧ (n ≤ 23)%nat ∧
    Struct.slice 4 28 entry = bs ++ replicate (24 - n) x00 ∧
    Struct.slice 4 28 entry !! 23%nat = Some x00.
Proof.
  apply (written_name_field_nul_terminated Binary64.pack_d (λ x, length_le_bytes 8 x)
           Demo.demo_coeffs Demo.demo_intervals 1 Demo.d_16 Demo.d_2451545
           Demo.d_2451593 Demo.demo_file 0 399).
  - vm_compute. reflexivity.
  - vm_compute. reflexivity.
Defined.

(** ** The integrator *)

Section IntegratorFacts.
Import Integrator.
Local Open Scope R_scope.

Lemma vadd_assoc a b c : vadd (vadd a b) c = vadd a (vadd b c).
Proof.
  destruct a as [[? ?] ?], b as [[? ?] ?], c as [[? ?] ?].
  unfold vadd; cbn [fst snd]. f_equal; [f_equal|]; ring.
Qed.

Lemma vadd_0_l a : vadd (0, 0, 0) a = a.
Proof. destruct a as [[? ?] ?]. unfold vadd; cbn [fst snd]. f_equal; [f_equal|]; ring. Qed.

Lemma vadd_0_r a : vadd a (0, 0, 0) = a.
Proof. destruct a as [[? ?] ?]. unfold vadd; cbn [fst snd]. f_equal; [f_equal|]; ring. Qed.

Lemma add_perturbations_shift gp pos jd a planets :
  add_perturbations gp pos jd a planets
  = vadd a (add_perturbations gp pos jd (0, 0, 0) planets).
Proof.
  unfold add_perturbations. set (f := λ (a_total : vec3) (p : string * R), _).
  revert a. induction planets as [|p planets IH]; intros a; cbn [fold_left].
  - by rewrite vadd_0_r.
  - rewrite IH, (IH (f _ p)). unfold f at 1 3.
    destruct (gp p.1 jd) as [pp|].
    + by rewrite vadd_0_l, vadd_assoc.
    + by rewrite vadd_0_l.
Qed.

Lemma norm_x_axis p : 0 <= p → norm (p, 0, 0) = p.
Proof.
  intros Hp. unfold norm, dot. cbn [fst snd].
  replace (p * p + 0 * 0 + 0 * 0) with (p * p) by ring. by apply sqrt_square.
Qed.

(** Claim C3 (the code departs from it). At r = (1.5e11, 0, 0) m and
    v = (1e4, 0, 0) m/s, for any provider and date, the acceleration the
    code returns differs from the sum of the three terms of the
    specification: the code multiplies v by 4 (r.v)/|r| where the formula
    has 4 (r.v). *)
Theorem schwarzschild_uses_radial_velocity
    (get_position : string → R → option vec3) (jd_tdb : R) :
  compute_acceleration get_position (1.5e11, 0, 0) (1e4, 0, 0) jd_tdb
  ≠ spec_acceleration get_position (1.5e11, 0, 0) (1e4, 0, 0) jd_tdb.
Proof.
  unfold compute_acceleration, spec_acceleration.
  rewrite add_perturbations_shift.
  rewrite norm_x_axis by lra.
  destruct (add_perturbations get_position _ jd_tdb (0, 0, 0) PLANET_GM) as [[px py] pz].
  intros H. apply (f_equal (λ v : vec3, v.1.1)) in H.
  cbv [vadd vscale dot fst snd] in H.
  unfold GM_SUN, C_LIGHT in H. lra.
Qed.
End IntegratorFacts.

Section KeplerFacts.
Import Integrator.
Local Open Scope R_scope.

Lemma solve_kepler_unfold ma e :
  solve_kepler ma e
  = (Nat.iter 10 (kepler_update (ma * PI / 180) e) (ma * PI / 180), 10%nat).
Proof. reflexivity. Qed.

Lemma Rabs_sin_le x : Rabs (sin x) <= Rabs x.
Proof.
  assert (∀ y, 0 < y → Rabs (sin y) <= y) as Hpos.
  { intros y Hy. apply Rabs_le. split.
    - destruct (Rle_lt_dec 1 y) as [H1|H1].
      + pose proof (SIN_bound y). lra.
      + assert (0 < sin y); [|lra]. apply sin_gt_0; [done|]. pose proof PI2_1. lra.
    - left. by apply sin_lt_x. }
  destruct (Rtotal_order x 0) as [Hx|[->|Hx]].
  - rewrite <- (Rabs_Ropp (sin x)), <- sin_neg, (Rabs_left x) by done. apply Hpos. lra.
  - rewrite sin_0. lra.
  - rewrite (Rabs_right x) by lra. by apply Hpos.
Qed.

Lemma sin_lipschitz a b : Rabs (sin a - sin b) <= Rabs (a - b).
Proof.
  rewrite form4, !Rabs_mult, (Rabs_right 2) by lra.
  pose proof (COS_bound ((a + b) / 2)) as Hc.
  assert (Rabs (cos ((a + b) / 2)) <= 1) as Hc1 by (apply Rabs_le; lra).
  pose proof (Rabs_sin_le ((a - b) / 2)) as Hs.
  pose proof (Rabs_pos (sin ((a - b) / 2))) as Hs0.
  pose proof (Rabs_pos (cos ((a + b) / 2))) as Hc0.
  replace (Rabs ((a - b) / 2)) with (Rabs (a - b) / 2) in Hs.
  2:{ unfold Rdiv. rewrite Rabs_mult, (Rabs_right (/ 2)) by lra. done. }
  nra.
Qed.

Lemma kepler_iter_contracts ma_rad e Estar n :
  0 <= e → Estar = kepler_update ma_rad e Estar →
  Rabs (Nat.iter n (kepler_update ma_rad e) ma_rad - Estar)
  <= e ^ n * Rabs (ma_rad - Estar).
Proof.
  intros He Hfix. induction n as [|n IH].
  - simpl. lra.
  - rewrite Nat.iter_succ.
    set (En := Nat.iter n (kepler_update ma_rad e) ma_rad) in *.
    replace (kepler_update ma_rad e En - Estar)
      with (e * (sin En - sin Estar))
      by (rewrite Hfix at 2; unfold kepler_update; ring).
    rewrite Rabs_mult, (Rabs_right e) by lra.
    pose proof (sin_lipschitz En Estar). simpl pow.
    pose proof (Rabs_pos (sin En - sin Estar)).
    assert (0 <= e ^ n) by (apply pow_le; lra).
    nra.
Qed.

(** What the ten passes reach: for 0 <= e the result is within
    e^10 |M - E*| of any solution E* of Kepler's equation. *)
Lemma kepler_ten_passes_error (ma e Estar : R) :
  0 <= e → Estar = kepler_update (ma * PI / 180) e Estar →
  Rabs ((solve_kepler ma e).1 - Estar) <= e ^ 10 * Rabs (ma * PI / 180 - Estar).
Proof.
  intros He Hfix. rewrite solve_kepler_unfold. cbn [fst]. by apply kepler_iter_contracts.
Qed.

Lemma spec_solve_kepler_circular : spec_solve_kepler 0 0 = (0 * PI / 180 - 0, 1%nat).
Proof.
  unfold spec_solve_kepler. cbn [newton_loop].
  assert (newton_correction (0 * PI / 180) 0 (0 * PI / 180) = 0) as ->.
  { unfold newton_correction. field; lra. }
  destruct (Rlt_dec (Rabs 0) 1e-12) as [_|Hn]; [done|].
  exfalso. apply Hn. rewrite Rabs_R0. lra.
Qed.

(** The update itself is not Newton's: from E = M = pi/4 with e = 1/2 the
    two first iterates differ. *)
Lemma kepler_update_is_not_newton_step :
  kepler_update (PI / 4) (1 / 2) (PI / 4)
  ≠ PI / 4 - newton_correction (PI / 4) (1 / 2) (PI / 4).
Proof.
  unfold kepler_update, newton_correction. rewrite sin_PI4, cos_PI4.
  assert (1 < sqrt 2 < 2) as Hs.
  { split.
    - rewrite <- sqrt_1 at 1. apply sqrt_lt_1; lra.
    - rewrite <- (sqrt_square 2) at 2 by lra. apply sqrt_lt_1; lra. }
  set (s := sqrt 2) in *. intros H.
  assert (1 / 2 * (1 / s) = 1 / 2 * (1 / s) / (1 - 1 / 2 * (1 / s))) as H'.
  { replace (PI / 4 - (PI / 4 - 1 / 2 * (1 / s) - PI / 4) / (1 - 1 / 2 * (1 / s)))
      with (PI / 4 + 1 / 2 * (1 / s) / (1 - 1 / 2 * (1 / s))) in H by (field; lra).
    lra. }
  assert (0 < 1 / s < 1) as Hinv.
  { split; [apply Rdiv_lt_0_compat; lra|]. apply (Rmult_lt_reg_r s); [lra|].
    unfold Rdiv. rewrite Rmult_assoc, Rinv_l by lra. lra. }
  set (u := 1 / s) in *.
  assert (1 / 2 * u * (1 - 1 / 2 * u) = 1 / 2 * u) as H2.
  { rewrite H' at 1. field. lra. }
  nra.
Qed.

(** Claim C8 (the code departs from it). The solver of
    [elements_to_cartesian] is not Newton's iteration with a tolerance.
    For every input it makes exactly ten passes of the fixed-point update
    E <- M + e sin E, with no convergence test. At ma = 45 degrees and
    e = 1/2 its first pass from E = M gives a value other than Newton's
    first pass; and for a circular orbit (e = 0) it makes ten passes where
    the specified solver stops after one. The same loop in
    integrate_chiron_orbit.py carries the comment "Newton-Raphson
    iteration". *)
Theorem solve_kepler_is_not_newton :
  (∀ ma e : R,
     solve_kepler ma e
     = (Nat.iter 10 (kepler_update (ma * PI / 180) e) (ma * PI / 180), 10%nat)) ∧
  (let ma_rad := 45 * PI / 180 in
   Nat.iter 1 (kepler_update ma_rad (1 / 2)) ma_rad
   ≠ (newton_loop 1 ma_rad (1 / 2) ma_rad 0).1) ∧
  ¬ SpecClaims.kepler_is_newton.
Proof.
  split; [apply solve_kepler_unfold|]. split.
  - cbv zeta. replace (45 * PI / 180) with (PI / 4) by field.
    cbn [Nat.iter newton_loop].
    assert (∀ b : bool, (if b then (PI / 4 - newton_correction (PI / 4) (1 / 2) (PI / 4), 1%nat)
                         else (PI / 4 - newton_correction (PI / 4) (1 / 2) (PI / 4), 1%nat))
                        = (PI / 4 - newton_correction (PI / 4) (1 / 2) (PI / 4), 1%nat))
      as Hif by (by intros []).
    destruct (Rlt_dec _ _); cbn [fst]; apply kepler_update_is_not_newton_step.
  - intros H. specialize (H 0 0).
    rewrite solve_kepler_unfold, spec_solve_kepler_circular in H.
    apply (f_equal snd) in H. discriminate H.
Qed.

End KeplerFacts.

(** * Further facts: round trips, error paths and invariants *)

(** ** Slices of concatenations *)

Section SliceFacts.
Import EphReader.

Lemma slice_app_at (pre a rest : list byte) (m n : nat) :
  length pre = m → length a = (n - m)%nat →
  Struct.slice m n (pre ++ a ++ rest) = a.
Proof.
  intros Hp Ha. unfold Struct.slice. rewrite <- Hp, drop_app_length, Hp, <- Ha.
  by rewrite take_app_length.
Qed.

Lemma seek_read_app_at (pre a rest : list byte) (offset size : Z) :
  Z.of_nat (length pre) = offset → Z.of_nat (length a) = size →
  seek_read (pre ++ a ++ rest) offset size = a.
Proof.
  intros <- <-. unfold seek_read. rewrite !Nat2Z.id, drop_app_length.
  by rewrite take_app_length.
Qed.

End SliceFacts.

(** ** The query engine on arbitrary containers *)

Section QueryExtras.
Import EphReader.

Lemma find_loop_cases ivs jd fuel left right :
  0 ≤ left ≤ right + 1 → right < Z.of_nat (length ivs) →
  right - left + 1 < Z.of_nat fuel →
  (∃ i s e, find_loop fuel ivs jd left right = Return i ∧
            0 ≤ i < Z.of_nat (length ivs) ∧
            ivs !! Z.to_nat i = Some (s, e) ∧
            Qltb jd s = false ∧ Qltb e jd = false) ∨
  (find_loop fuel ivs jd left right = Raise OutOfRange ∧ ivs ≠ []) ∨
  (find_loop fuel ivs jd left right = Raise IndexError ∧ ivs = []).
Proof.
  revert left right; induction fuel as [|fuel IH]; intros left right Hl Hr Hfuel; [lia|].
  cbn [find_loop]. destruct (Z.leb_spec left right) as [Hlr|Hlr].
  - assert (left ≤ (left + right) `div` 2 ≤ right) as Hmid
      by (split; [apply Z.div_le_lower_bound|apply Z.div_le_upper_bound]; lia).
    set (mid := (left + right) `div` 2) in *.
    rewrite py_index_nonneg by lia.
    destruct (lookup_lt_is_Some_2 ivs (Z.to_nat mid)) as [[s e] Hlk]; [lia|].
    rewrite Hlk.
    destruct (Qltb jd s) eqn:H1; [apply IH; lia|].
    destruct (Qltb e jd) eqn:H2; [apply IH; lia|].
    left. exists mid, s, e. repeat split; try done; lia.
  - destruct ivs; [right; right|right; left]; done.
Qed.

(** Property X9. On any interval index, sorted or not, the bisection of
    [_find_interval] ends within its [len + 1] passes. It returns an index
    inside the list for whose interval neither of the loop's two tests,
    [jd < start] and [jd > end], holds (for numbers: the interval contains
    [jd]), or raises: the out-of-range [ValueError] on a non-empty index,
    and [IndexError] (from building that error's message) on an empty
    one. *)
Theorem find_interval_cases (self : Reader) (jd : Q) :
  (∃ i s e, _find_interval self jd = Return i ∧
            0 ≤ i < Z.of_nat (length (intervals self)) ∧
            intervals self !! Z.to_nat i = Some (s, e) ∧
            Qltb jd s = false ∧ Qltb e jd = false) ∨
  (_find_interval self jd = Raise OutOfRange ∧ intervals self ≠ []) ∨
  (_find_interval self jd = Raise IndexError ∧ intervals self = []).
Proof. unfold _find_interval. apply find_loop_cases; lia. Qed.

(** Property X10. A body that is not in the body table: [compute]
    raises "Body not found" when [jd] is covered, and the out-of-range
    error (raised first, by the interval search) when it is not. *)
Theorem compute_unknown_body unpack_d (self : Reader) (body_id : Z) (jd : Q) :
  container self = true → bodies self !! body_id = None →
  ((start_jd (header self) <= jd ∧ jd <= end_jd (header self))%Q →
   compute unpack_d self body_id jd = Raise BodyNotFound) ∧
  ((jd < start_jd (header self) ∨ end_jd (header self) < jd)%Q →
   compute unpack_d self body_id jd = Raise OutOfRange).
Proof.
  intros Hc Hb. pose proof Hc as (Hne & Ht & _)%container_inv.
  destruct (find_interval_spec self jd _ _ Ht Hne)
    as [(i & s & e & Hf & Hlk & Hi & Hin)|[Hf Hout]].
  - split; [intros _|intros ?; Lqa.lra].
    unfold compute. rewrite Hf. simpl.
    rewrite py_index_nonneg, Hlk by done.
    rewrite t_normalized_ok by Lqa.lra. simpl.
    unfold _read_coefficients. by rewrite Hb.
  - split; [intros ?; Lqa.lra|intros _].
    unfold compute. by rewrite Hf.
Qed.

(** Witness for X10: body 301 on the demo container. *)
Lemma compute_unknown_body_witness :
  container Demo.demo_reader = true ∧ bodies Demo.demo_reader !! 301 = None ∧
  compute Binary64.unpack_d Demo.demo_reader 301 (2451550 # 1) = Raise BodyNotFound ∧
  compute Binary64.unpack_d Demo.demo_reader 301 (2451600 # 1) = Raise OutOfRange.
Proof.
  assert (container Demo.demo_reader = true) as Hc by (vm_compute; reflexivity).
  assert (bodies Demo.demo_reader !! 301 = None) as Hb by (vm_compute; reflexivity).
  split; [exact Hc|]. split; [exact Hb|]. split.
  - apply (compute_unknown_body _ _ _ _ Hc Hb). vm_compute. split; discriminate.
  - apply (compute_unknown_body _ _ _ _ Hc Hb). right. vm_compute. reflexivity.
Defined.



End QueryExtras.

(** ** Clenshaw's recurrence *)

Section ClenshawFacts.
Import EphReader.
Local Open Scope Q_scope.

Lemma cheb_T_rec j t :
  Refit.cheb_T (S (S j)) t = 2 * t * Refit.cheb_T (S j) t - Refit.cheb_T j t.
Proof. reflexivity. Qed.

Lemma clenshaw_loop_as_fold (coeffs : list Q) (t : Q) (k m : nat) (init : Q * Q) :
  (k + m ≤ length coeffs)%nat →
  fold_left (λ (b : Q * Q) (i : nat), (nth i coeffs 0 + 2 * t * b.1 - b.2, b.1))
            (rev (seq k m)) init
  = fold_left (λ (b : Q * Q) (c : Q), (c + 2 * t * b.1 - b.2, b.1))
              (rev (take m (drop k coeffs))) init.
Proof.
  revert init. induction m as [|m IH]; intros init Hlen; [done|].
  destruct (lookup_lt_is_Some_2 coeffs (k + m)) as [c Hc]; [lia|].
  rewrite seq_S, (take_S_r _ _ c) by (by rewrite lookup_drop).
  rewrite !rev_app_distr. cbn [rev app fold_left].
  rewrite (nth_lookup_Some _ _ _ _ Hc). apply IH. lia.
Qed.

Lemma fold_left_rev {A B} (g : B → A → B) (l : list A) (a : B) :
  fold_left g (rev l) a = fold_right (λ c b, g b c) a l.
Proof.
  induction l as [|c l IH]; [done|].
  cbn [rev fold_right]. by rewrite fold_left_app, IH.
Qed.

(** The pair [(b1, b2)] the loop leaves for the coefficients [cs] of
    degrees [j+1, j+2, ...] reproduces their part of the series. *)
Lemma clenshaw_pair_series (cs : list Q) (t : Q) (j : nat) :
  let b := fold_right (λ (c : Q) (b : Q * Q), (c + 2 * t * b.1 - b.2, b.1)) (0, 0) cs in
  Reference.series_from (S j) cs t == b.1 * Refit.cheb_T (S j) t - b.2 * Refit.cheb_T j t.
Proof.
  revert j. induction cs as [|c cs IH]; intros j; cbn [fold_right Reference.series_from fst snd].
  - ring.
  - cbv zeta in IH. rewrite (IH (S j)), cheb_T_rec. ring.
Qed.

(** Property X12. [_chebyshev_eval] computes the Chebyshev series
    [sum_j coeffs[j] * T_j(t)] of its docstring, for every coefficient
    list (also the empty one and a single coefficient) and every [t].
    Doubles are modelled as rationals, so the equality is exact. *)
Theorem chebyshev_eval_is_series (coeffs : list Q) (t : Q) :
  _chebyshev_eval coeffs t == Reference.cheb_series coeffs t.
Proof.
  unfold Reference.cheb_series. destruct coeffs as [|c0 [|c1 cs]].
  - reflexivity.
  - cbn. ring.
  - unfold _chebyshev_eval.
    rewrite (clenshaw_loop_as_fold (c0 :: c1 :: cs) t 1 (length (c1 :: cs)))
      by (cbn [length]; lia).
    change (length (c0 :: c1 :: cs) - 1)%nat with (length (c1 :: cs)).
    cbn [drop]. rewrite firstn_all, fold_left_rev.
    cbn [Reference.series_from].
    rewrite (clenshaw_pair_series (c1 :: cs) t 0). cbv zeta.
    change (Refit.cheb_T 1 t) with t. change (Refit.cheb_T 0 t) with 1.
    ring.
Qed.

End ClenshawFacts.

(** ** Interval generation *)

Section GenerateFacts.
Import Refit.
Local Open Scope Q_scope.

Lemma py_min_spec a b :
  (py_min a b == a ∨ py_min a b == b) ∧ py_min a b <= a ∧ py_min a b <= b.
Proof.
  unfold py_min. destruct (EphReader.Qltb b a) eqn:H.
  - apply Qltb_lt in H. repeat split; [by right|Lqa.lra..].
  - apply Qltb_ge in H. repeat split; [by left|Lqa.lra..].
Qed.

Lemma generate_loop_rounded_exact fuel current end_jd interval_days :
  generate_loop_rounded Qplus fuel current end_jd interval_days
  = generate_loop fuel current end_jd interval_days.
Proof.
  revert current. induction fuel as [|fuel IH]; intros current; [done|].
  cbn [generate_loop_rounded generate_loop]. by rewrite IH.
Qed.

(** When the rounded sum gives [current] back (the step is below half an
    ulp of the date), the loop makes no progress and never ends. *)
Lemma generate_loop_rounded_stalls fadd fuel current end_jd interval_days :
  fadd current interval_days == current → current < end_jd →
  (∀ c, c == current → fadd c interval_days == current) →
  generate_loop_rounded fadd fuel current end_jd interval_days = None.
Proof.
  intros Hsame Hlt Hall.
  assert (∀ c, c == current →
            generate_loop_rounded fadd fuel c end_jd interval_days = None) as Hgen.
  { induction fuel as [|fuel IH]; intros c Hc; [done|].
    cbn [generate_loop_rounded].
    rewrite (proj2 (Qltb_lt c end_jd)) by (rewrite Hc; done).
    rewrite IH; [done|].
    pose proof (py_min_spec (fadd c interval_days) end_jd) as ([Hm|Hm] & Hm1 & Hm2).
    - rewrite Hm. by apply Hall.
    - pose proof (Hall c Hc). Lqa.lra. }
  apply Hgen. reflexivity.
Qed.

Lemma generate_loop_rounded_tiles (fadd : Q → Q → Q) (lo end_jd interval_days step : Q)
    (n : nat) (current : Q) :
  0 < step →
  (∀ c, lo <= c → c < end_jd → c + step <= fadd c interval_days) →
  lo <= current → current < end_jd →
  end_jd <= current + inject_Z (Z.of_nat n) * step →
  ∃ ivs, generate_loop_rounded fadd (S n) current end_jd interval_days = Some ivs ∧
         ivs ≠ [] ∧ EphReader.tiles current ivs end_jd = true ∧
         Forall (λ iv, iv.2 <= fadd iv.1 interval_days) ivs.
Proof.
  intros Hstep Hprog. revert current.
  induction n as [|n IH]; intros current Hlo Hlt Hn.
  { change (inject_Z (Z.of_nat 0)) with 0 in Hn. Lqa.lra. }
  pose proof (Hprog current Hlo Hlt) as Hadv.
  pose proof (py_min_spec (fadd current interval_days) end_jd) as (Hcase & Hm1 & Hm2).
  assert (generate_loop_rounded fadd (S (S n)) current end_jd interval_days
          = (rest ← generate_loop_rounded fadd (S n)
                      (py_min (fadd current interval_days) end_jd) end_jd interval_days;
             Some ((current, py_min (fadd current interval_days) end_jd) :: rest))) as ->.
  { change (generate_loop_rounded fadd (S (S n)) current end_jd interval_days)
      with (if EphReader.Qltb current end_jd
            then rest ← generate_loop_rounded fadd (S n)
                          (py_min (fadd current interval_days) end_jd) end_jd interval_days;
                 Some ((current, py_min (fadd current interval_days) end_jd) :: rest)
            else Some []).
    by rewrite (proj2 (Qltb_lt _ _) Hlt). }
  set (interval_end := py_min (fadd current interval_days) end_jd) in *.
  assert (current < interval_end) as Hw by (destruct Hcase as [Hc|Hc]; rewrite Hc; Lqa.lra).
  destruct (Qlt_le_dec interval_end end_jd) as [Hmore|Hlast].
  - destruct (IH interval_end) as (rest & Hrest & _ & Ht & Hall); [Lqa.lra|done| |].
    { rewrite Nat2Z.inj_succ, <- Z.add_1_r, inject_Z_plus in Hn.
      change (inject_Z 1) with 1 in Hn.
      destruct Hcase as [Hc|Hc]; rewrite Hc; Lqa.lra. }
    rewrite Hrest. eexists. split; [reflexivity|]. split; [done|]. split.
    + cbn [EphReader.tiles]. rewrite !andb_true_iff. split; [split|done].
      * apply Qeq_bool_iff. reflexivity.
      * by apply Qltb_lt.
    + constructor; [done|done].
  - assert (generate_loop_rounded fadd (S n) interval_end end_jd interval_days = Some [])
      as ->.
    { cbn [generate_loop_rounded].
      destruct (EphReader.Qltb interval_end end_jd) eqn:Hq; [|done].
      apply Qltb_lt in Hq. Lqa.lra. }
    eexists. split; [reflexivity|]. split; [done|]. split.
    + cbn [EphReader.tiles]. rewrite !andb_true_iff. split; [split|].
      * apply Qeq_bool_iff. reflexivity.
      * by apply Qltb_lt.
      * apply Qeq_bool_iff. Lqa.lra.
    + constructor; [done|constructor].
Qed.

(** Property X7. The loop of [_generate_intervals], with the sum
    [current + interval_days] rounded in any way ([fadd]): if every sum
    formed on the way advances by at least some [step > 0] and [n] such
    steps cover the span from [start_jd] to [end_jd], the loop ends within
    [n + 1] tests, and the list it returns is not empty and tiles
    [start_jd, end_jd] without gap or overlap, each interval ending no
    later than the rounded sum. (A sum that rounds back to [current]
    violates the hypothesis; then the loop never ends:
    [generate_loop_rounded_stalls].) *)
Theorem generate_intervals_tiles (fadd : Q → Q → Q) (n : nat)
    (start_jd end_jd interval_days step : Q) :
  0 < step →
  (∀ c, start_jd <= c → c < end_jd → c + step <= fadd c interval_days) →
  start_jd < end_jd →
  end_jd <= start_jd + inject_Z (Z.of_nat n) * step →
  ∃ ivs, generate_loop_rounded fadd (S n) start_jd end_jd interval_days = Some ivs ∧
         ivs ≠ [] ∧ EphReader.tiles start_jd ivs end_jd = true ∧
         Forall (λ iv, iv.2 <= fadd iv.1 interval_days) ivs.
Proof.
  intros Hstep Hprog Hlt Hn.
  apply (generate_loop_rounded_tiles fadd start_jd end_jd interval_days step);
    try done. Lqa.lra.
Qed.

(** Witness for X7: 40 days in steps of 16, sums exact. *)
Lemma generate_intervals_tiles_witness :
  ∃ ivs, generate_loop_rounded Qplus 4 2451545 2451585 16 = Some ivs ∧
         ivs ≠ [] ∧ EphReader.tiles 2451545 ivs 2451585 = true ∧
         Forall (λ iv, iv.2 <= iv.1 + 16) ivs.
Proof.
  apply (generate_intervals_tiles Qplus 3 2451545 2451585 16 16).
  - reflexivity.
  - intros c _ _. Lqa.lra.
  - reflexivity.
  - vm_compute. discriminate.
Defined.

(** Property X8. With a step that is zero or negative and
    [start_jd < end_jd], the loop of [_generate_intervals] never ends:
    no amount of fuel lets it return. *)
Theorem generate_intervals_hangs (fuel : nat) (start_jd end_jd interval_days : Q) :
  interval_days <= 0 → start_jd < end_jd →
  _generate_intervals fuel start_jd end_jd interval_days = None.
Proof.
  intros Hd. unfold _generate_intervals. revert start_jd.
  induction fuel as [|fuel IH]; intros current Hlt; [done|].
  cbn [generate_loop]. rewrite (proj2 (Qltb_lt _ _) Hlt).
  pose proof (py_min_spec (current + interval_days) end_jd) as (_ & Hm1 & _).
  rewrite IH; [done|Lqa.lra].
Qed.

(** Witness for X8: a step of zero days. *)
Lemma generate_intervals_hangs_witness :
  (0 <= 0)%Q ∧ (2451545 < 2451585)%Q ∧
  _generate_intervals 1000 2451545 2451585 0 = None.
Proof.
  assert (0 <= 0)%Q as H1 by (vm_compute; discriminate).
  assert (2451545 < 2451585)%Q as H2 by reflexivity.
  split; [exact H1|]. split; [exact H2|].
  exact (generate_intervals_hangs 1000 _ _ _ H1 H2).
Defined.

End GenerateFacts.

(** ** What [convert] keeps, and the byte-order probe *)

Section ConvertExtras.
Import Refit.

Variable spkgps : Z → Q → option pos3.
Variable chebyshev_nodes : nat → list Q.
Variable chebfit : list Q → list Q → nat → option (list Q).

(** What the body loop of [convert] keeps. *)
Lemma extract_all_lookup (body_ids : list Z) (intervals : list (Q * Q)) (body_id : Z) :
  extract_all spkgps chebyshev_nodes chebfit body_ids intervals !! body_id
  = if decide (body_id ∈ body_ids)
    then _extract_coefficients spkgps chebyshev_nodes chebfit body_id intervals
    else None.
Proof.
  unfold extract_all.
  set (f := λ (all_coeffs : gmap Z (list (EphWriter.Coeffs Q))) (b : Z), _).
  assert (∀ m0 : gmap Z (list (EphWriter.Coeffs Q)),
    fold_left f body_ids m0 !! body_id
    = match (if decide (body_id ∈ body_ids)
             then _extract_coefficients spkgps chebyshev_nodes chebfit body_id intervals
             else None) with
      | Some c => Some c
      | None => m0 !! body_id
      end) as Hgen.
  { induction body_ids as [|b bs IH]; intros m0; cbn [fold_left].
    - by rewrite decide_False by apply not_elem_of_nil.
    - rewrite IH. unfold f.
      destruct (decide (body_id = b)) as [->|Hne].
      + rewrite (decide_True (P := b ∈ b :: bs)) by apply list_elem_of_here.
        destruct (_extract_coefficients _ _ _ b intervals) as [c|] eqn:Hb.
        * destruct (decide (b ∈ bs)); [done|]. apply lookup_insert_eq.
        * by destruct (decide (b ∈ bs)).
      + destruct (decide (body_id ∈ bs)) as [Hin|Hnin].
        * rewrite (decide_True (P := body_id ∈ b :: bs)) by (by apply list_elem_of_further).
          destruct (_extract_coefficients _ _ _ body_id intervals); [done|].
          destruct (_extract_coefficients _ _ _ b intervals); [|done].
          by rewrite lookup_insert_ne.
        * rewrite (decide_False (P := body_id ∈ b :: bs))
            by (intros [?|?]%elem_of_cons; done).
          destruct (_extract_coefficients _ _ _ b intervals); [|done].
          by rewrite lookup_insert_ne. }
  rewrite Hgen, lookup_empty.
  by destruct (if decide _ then _ else _).
Qed.

(** Property X6. [convert] writes a file only if the interval list is
    not empty and the extraction succeeded for at least one requested
    body. *)
Theorem convert_needs_data (pack_d : Q → list byte) (body_ids : list Z)
    (intervals : list (Q * Q)) (interval_days start_jd end_jd : Q) (bytes : list byte) :
  convert_from spkgps chebyshev_nodes chebfit pack_d body_ids intervals
    interval_days start_jd end_jd = Some bytes →
  intervals ≠ [] ∧
  ∃ body_id, body_id ∈ body_ids ∧
    is_Some (_extract_coefficients spkgps chebyshev_nodes chebfit body_id intervals).
Proof.
  unfold convert_from, first_degree. intros H.
  apply bind_Some in H as (d & Hd & _).
  apply bind_Some in Hd as (cl & Hcl & Hd).
  apply bind_Some in Hd as (c & Hc & _).
  apply head_Some_elem_of, list_elem_of_omap in Hcl as (b & Hb & Hext).
  split; [|by exists b].
  intros ->. unfold _extract_coefficients in Hext. cbn in Hext.
  injection Hext as <-. done.
Qed.

End ConvertExtras.

(** Witness for X6: one body, one interval. *)
Lemma convert_needs_data_witness :
  let intervals := [(2451545 # 1, 2451561 # 1)]%Q in
  ∃ bytes,
    Refit.convert_from DemoInputs.spkgps DemoInputs.chebyshev_nodes Refit.chebfit_dct
      (λ _, Struct.le_bytes 8 0) [399] intervals 16 2451545 2451561 = Some bytes ∧
    intervals ≠ [] ∧
    ∃ body_id, body_id ∈ [399] ∧
      is_Some (Refit._extract_coefficients DemoInputs.spkgps DemoInputs.chebyshev_nodes
                 Refit.chebfit_dct body_id intervals).
Proof.
  intros intervals.
  assert (is_Some (Refit.convert_from DemoInputs.spkgps DemoInputs.chebyshev_nodes
            Refit.chebfit_dct (λ _, Struct.le_bytes 8 0) [399] intervals
            16 2451545 2451561)) as [bytes Hb]
    by (vm_compute; eexists; reflexivity).
  exists bytes. split; [exact Hb|].
  exact (convert_needs_data _ _ _ _ _ _ _ _ _ _ Hb).
Defined.

Section ProbeExtras.
Import RawSpk Struct.

(** Property X14. A file record shorter than 16 bytes: [struct.unpack]
    raises on the NI field, the bare [except] supplies the SPK defaults
    ND = 2, NI = 6, and the byte order stays little-endian. *)
Theorem probe_short_record (file_record : list byte) :
  (length file_record < 16)%nat →
  probe_summary_format file_record = (Little, 2, 6).
Proof.
  intros Hlen. unfold probe_summary_format.
  change (8 + 4)%nat with 12%nat. change (8 + 8)%nat with 16%nat.
  assert (unpack_i Little (slice 12 16 file_record) = None) as Hni.
  { unfold unpack_i. destruct (Nat.eqb_spec (length (slice 12 16 file_record)) 4) as [H|H]; [|done].
    unfold slice in H. rewrite length_take, length_drop in H. lia. }
  rewrite Hni. by destruct (unpack_i Little (slice 8 12 file_record)).
Qed.

(** Witness for X14: a file that holds only the identification word. *)
Lemma probe_short_record_witness :
  (length (list_byte_of_string "DAF/SPK ") < 16)%nat ∧
  probe_summary_format (list_byte_of_string "DAF/SPK ") = (Little, 2, 6).
Proof.
  assert (length (list_byte_of_string "DAF/SPK ") < 16)%nat as H by (vm_compute; lia).
  split; [exact H|]. exact (probe_short_record _ H).
Defined.

Lemma le_to_Z_rev_le_bytes_small v :
  0 ≤ v < 256 → le_to_Z (rev (le_bytes 4 v)) = v * 2 ^ 24.
Proof.
  intros Hv. cbn [le_bytes rev app le_to_Z].
  rewrite !Z_of_byte_of_Z.
  rewrite (Z.div_small v 256) by lia.
  rewrite !Z.div_0_l, !Z.mod_0_l by lia. rewrite Z.mod_small by lia. lia.
Qed.

(** Property X13. The probe recovers byte order, ND and NI from a file
    record written in either byte order, for [1 <= ND <= 100] and
    [0 <= NI <= 100] (SPK files have ND = 2, NI = 6). *)
Theorem probe_recovers_byte_order (pre rest : list byte) (nd ni : Z) :
  length pre = 8%nat → 1 ≤ nd ≤ 100 → 0 ≤ ni ≤ 100 →
  probe_summary_format (pre ++ le_bytes 4 nd ++ le_bytes 4 ni ++ rest)
  = (Little, nd, ni) ∧
  probe_summary_format (pre ++ Reference.be_bytes 4 nd ++ Reference.be_bytes 4 ni ++ rest)
  = (Big, nd, ni).
Proof.
  intros Hpre Hnd Hni. unfold probe_summary_format.
  change (8 + 4)%nat with 12%nat. change (8 + 8)%nat with 16%nat.
  assert (∀ a b : list byte, length a = 4%nat → length b = 4%nat →
            slice 8 12 (pre ++ a ++ b ++ rest) = a ∧
            slice 12 16 (pre ++ a ++ b ++ rest) = b) as Hsl.
  { intros a b Ha Hb. split.
    - apply slice_app_at; lia.
    - rewrite (app_assoc pre a). apply slice_app_at; [rewrite length_app|]; lia. }
  assert (∀ v, 0 ≤ v ≤ 100 → to_signed 32 v = v) as Hsig.
  { intros v Hv. unfold to_signed. destruct (Z.ltb_spec v (2 ^ (32 - 1))); lia. }
  assert (∀ v, 0 ≤ v ≤ 100 → unpack_i Little (le_bytes 4 v) = Some v) as Hle.
  { intros v Hv. unfold unpack_i. rewrite length_le_bytes. simpl (_ =? _)%nat. cbv iota.
    rewrite le_to_Z_le_bytes, Z.mod_small by (change (256 ^ Z.of_nat 4) with (2 ^ 32); lia).
    by rewrite Hsig. }
  assert (∀ v, 0 ≤ v ≤ 100 → unpack_i Big (Reference.be_bytes 4 v) = Some v) as Hbe.
  { intros v Hv. unfold unpack_i, Reference.be_bytes, be_to_Z.
    rewrite length_rev, length_le_bytes, rev_involutive. simpl (_ =? _)%nat. cbv iota.
    rewrite le_to_Z_le_bytes, Z.mod_small by (change (256 ^ Z.of_nat 4) with (2 ^ 32); lia).
    by rewrite Hsig. }
  assert (∀ v, 0 ≤ v ≤ 100 →
            unpack_i Little (Reference.be_bytes 4 v) = Some (v * 2 ^ 24)) as Hmis.
  { intros v Hv. unfold unpack_i, Reference.be_bytes.
    rewrite length_rev, length_le_bytes. simpl (_ =? _)%nat. cbv iota.
    rewrite le_to_Z_rev_le_bytes_small by lia. f_equal.
    unfold to_signed. destruct (Z.ltb_spec (v * 2 ^ 24) (2 ^ (32 - 1))); lia. }
  split.
  - destruct (Hsl (le_bytes 4 nd) (le_bytes 4 ni)) as [-> ->];
      [apply length_le_bytes..|].
    rewrite !Hle by lia.
    destruct (Z.ltb_spec 100 nd), (Z.ltb_spec 100 ni); (done || lia).
  - destruct (Hsl (Reference.be_bytes 4 nd) (Reference.be_bytes 4 ni)) as [-> ->];
      [unfold Reference.be_bytes; rewrite length_rev; apply length_le_bytes..|].
    rewrite !Hmis, !Hbe by lia.
    destruct (Z.ltb_spec 100 (nd * 2 ^ 24)); [done|lia].
Qed.

(** Witness for X13: ND = 2, NI = 6. *)
Lemma probe_recovers_byte_order_witness :
  let pre := list_byte_of_string "DAF/SPK " in
  length pre = 8%nat ∧ 1 ≤ 2 ≤ 100 ∧ 0 ≤ 6 ≤ 100 ∧
  probe_summary_format (pre ++ le_bytes 4 2 ++ le_bytes 4 6 ++ [])
  = (Little, 2, 6) ∧
  probe_summary_format (pre ++ Reference.be_bytes 4 2 ++ Reference.be_bytes 4 6 ++ [])
  = (Big, 2, 6).
Proof.
  intros pre.
  assert (length pre = 8%nat) as H1 by reflexivity.
  assert (1 ≤ 2 ≤ 100) as H2 by lia.
  assert (0 ≤ 6 ≤ 100) as H3 by lia.
  split; [exact H1|]. split; [exact H2|]. split; [exact H3|].
  exact (probe_recovers_byte_order pre [] 2 6 H1 H2 H3).
Defined.

End ProbeExtras.

(** ** The reader on the encoder's output *)

Section RoundTrip.
Import EphWriter EphReader.
Context {F : Type} (pack_d : F → list byte) (unpack_d : list byte → Q).
Hypothesis pack_d_length : ∀ x, length (pack_d x) = 8%nat.

Lemma unpack_uint_pack_I v bs : Struct.pack_I v = Some bs → unpack_uint 4 bs = Return v.
Proof.
  unfold Struct.pack_I. destruct (_ && _) eqn:Hr; [|done]. intros Hp.
  assert (bs = Struct.le_bytes 4 v) as -> by congruence. clear Hp.
  apply andb_true_iff in Hr as [H1%Z.leb_le H2%Z.ltb_lt].
  unfold unpack_uint. rewrite length_le_bytes. simpl (_ =? _)%nat. cbv iota.
  rewrite le_to_Z_le_bytes, Z.mod_small; [done|]. change (256 ^ Z.of_nat 4) with (2 ^ 32). lia.
Qed.

Lemma unpack_uint_pack_Q v bs : Struct.pack_Q v = Some bs → unpack_uint 8 bs = Return v.
Proof.
  intros Hp. unfold unpack_uint. rewrite (length_pack_Q _ _ Hp). simpl (_ =? _)%nat. cbv iota.
  by rewrite (le_to_Z_pack_Q _ _ Hp).
Qed.

Lemma length_4_inv {A} (l : list A) :
  length l = 4%nat → ∃ a b c d, l = [a; b; c; d].
Proof. do 5 (destruct l as [|? l]; try done). intros _. by eexists _, _, _, _. Qed.

Lemma length_8_inv {A} (l : list A) :
  length l = 8%nat → ∃ a b c d e f g h, l = [a; b; c; d; e; f; g; h].
Proof. do 9 (destruct l as [|? l]; try done). intros _. by eexists _, _, _, _, _, _, _, _. Qed.

Lemma seek_read_prefix (a rest : list byte) (size : Z) :
  Z.of_nat (length a) = size → seek_read (a ++ rest) 0 size = a.
Proof.
  intros <-. unfold seek_read. rewrite Nat2Z.id. change (Z.to_nat 0) with 0%nat.
  by rewrite drop_0, take_app_length.
Qed.

Lemma read_header_of_packed h nb ni (a b c : F) cd rest :
  pack_header pack_d nb ni a b c cd = Some h →
  _read_header unpack_d ((h ++ replicate 468 x00) ++ rest)
  = Return {| version := 1; num_bodies := nb; num_intervals := ni;
              interval_days := unpack_d (pack_d a); start_jd := unpack_d (pack_d b);
              end_jd := unpack_d (pack_d c); coeff_degree := cd |}.
Proof.
  intros Hh. pose proof (length_pack_header pack_d pack_d_length _ _ _ _ _ _ _ Hh) as Hlen.
  unfold _read_header.
  rewrite seek_read_prefix by (rewrite length_app, length_replicate, Hlen; done).
  unfold pack_header in Hh.
  apply bind_Some in Hh as (bv & Hv & Hh).
  apply bind_Some in Hh as (bnb & Hnb & Hh).
  apply bind_Some in Hh as (bni & Hni & Hh).
  apply bind_Some in Hh as (bcd & Hcd & Hh).
  assert (h = MAGIC ++ bv ++ bnb ++ bni ++ pack_d a ++ pack_d b ++ pack_d c ++ bcd)
    as -> by congruence. clear Hh Hlen.
  apply unpack_uint_pack_I in Hv as Uv. apply unpack_uint_pack_I in Hnb as Unb.
  apply unpack_uint_pack_I in Hni as Uni. apply unpack_uint_pack_I in Hcd as Ucd.
  destruct (length_4_inv _ (length_pack_I _ _ Hv)) as (?&?&?&?&->).
  destruct (length_4_inv _ (length_pack_I _ _ Hnb)) as (?&?&?&?&->).
  destruct (length_4_inv _ (length_pack_I _ _ Hni)) as (?&?&?&?&->).
  destruct (length_4_inv _ (length_pack_I _ _ Hcd)) as (?&?&?&?&->).
  destruct (length_8_inv _ (pack_d_length a)) as (?&?&?&?&?&?&?&?&->).
  destruct (length_8_inv _ (pack_d_length b)) as (?&?&?&?&?&?&?&?&->).
  destruct (length_8_inv _ (pack_d_length c)) as (?&?&?&?&?&?&?&?&->).
  set (pad := replicate 468 x00).
  unfold MAGIC, Struct.slice.
  cbn [app Nat.sub skipn firstn Struct.forallb2 Byte.eqb andb length Nat.eqb].
  assert (∀ b, Byte.eqb b b = true) as Hrefl by (by intros []).
  rewrite !Hrefl. cbn [andb].
  rewrite Uv. cbn [mbind outcome_bind]. rewrite Unb. cbn [mbind outcome_bind].
  rewrite Uni. cbn [mbind outcome_bind].
  unfold unpack_double. cbn [length Nat.eqb mbind outcome_bind].
  rewrite take_0, Ucd. reflexivity.
Qed.

Lemma read_intervals_of_packed (pre : list byte) (ivs : list (F * F)) (rest : list byte) :
  read_intervals unpack_d (pre ++ concat (map (interval_entry pack_d) ivs) ++ rest)
    (Z.of_nat (length pre)) (length ivs)
  = Return (map (λ iv, (unpack_d (pack_d iv.1), unpack_d (pack_d iv.2))) ivs).
Proof.
  revert pre. induction ivs as [|[s e] ivs IH]; intros pre; [done|].
  cbn [map concat length read_intervals]. rewrite <- !app_assoc.
  assert (length (interval_entry pack_d (s, e)) = 16%nat) as Hlen
    by (unfold interval_entry; rewrite length_app, !pack_d_length; done).
  rewrite seek_read_app_at by (by rewrite ?Hlen).
  rewrite Hlen. simpl (_ =? _)%nat. cbv iota.
  replace (Z.of_nat (length pre) + INTERVAL_ENTRY_SIZE)
    with (Z.of_nat (length (pre ++ interval_entry pack_d (s, e))))
    by (rewrite length_app, Hlen; unfold INTERVAL_ENTRY_SIZE; lia).
  rewrite app_assoc, IH. cbn -[Struct.slice].
  unfold interval_entry. cbn [fst snd].
  rewrite <- (app_nil_l (pack_d s ++ pack_d e)) at 1.
  rewrite <- (app_nil_r (pack_d s ++ pack_d e)) at 2.
  rewrite <- !app_assoc.
  rewrite slice_app_at by (rewrite ?pack_d_length; done).
  rewrite (slice_app_at (pack_d s) (pack_d e) []) by (rewrite ?pack_d_length; done).
  reflexivity.
Qed.

Lemma Forall_ascii_rstrip (bs : list byte) :
  forallb (λ b, Struct.Z_of_byte b <? 128) bs = true →
  forallb (λ b, Struct.Z_of_byte b <? 128) (rstrip_nul bs) = true.
Proof.
  unfold rstrip_nul. induction bs as [|b bs IH]; [done|].
  cbn [forallb fold_right]. intros [Hb Hbs]%andb_true_iff. specialize (IH Hbs).
  destruct (fold_right _ [] bs) as [|b' l].
  - destruct (Byte.eqb b x00); [done|]. cbn [forallb]. by rewrite Hb.
  - cbn [forallb] in *. by rewrite Hb, IH.
Qed.

Lemma name_bytes_ascii body_name nm :
  name_bytes body_name = Some nm →
  forallb (λ b, Struct.Z_of_byte b <? 128) nm = true.
Proof.
  unfold name_bytes, encode_ascii. intros H.
  apply bind_Some in H as (enc & Henc & [= <-]).
  destruct (forallb _ (list_byte_of_string body_name)) eqn:Hall; [|done].
  injection Henc as <-. unfold Struct.ljust.
  rewrite forallb_app. apply andb_true_iff. split.
  - rewrite forallb_forall in *. intros b Hb. apply Hall.
    rewrite <- (take_drop 24 (list_byte_of_string body_name)). apply in_or_app. by left.
  - apply forallb_forall. intros b Hb%list_elem_of_In%elem_of_replicate. by destruct Hb as [-> _].
Qed.

Lemma read_bodies_of_entries (pre rest : list byte) (es : list (list byte))
    (ds : list (Z * Body)) (acc : gmap Z Body) :
  Forall2 Reference.decodes_to es ds →
  read_bodies (pre ++ concat es ++ rest) (Z.of_nat (length pre)) (length es) acc
  = Return (fold_left (λ m d, <[d.1 := d.2]> m) ds acc).
Proof.
  intros Hall. revert pre acc.
  induction Hall as [|e [id [nm off]] es ds (Hlen & Hid & Hnm & Hoff) _ IH]; intros pre acc; [done|].
  cbn [length read_bodies concat fold_left]. rewrite <- !app_assoc.
  rewrite seek_read_app_at by (rewrite ?Hlen; done).
  cbn [fst snd name data_offset] in *.
  rewrite Hid. cbn [mbind outcome_bind]. rewrite Hnm. cbn [mbind outcome_bind].
  rewrite Hoff. cbn [mbind outcome_bind].
  replace (Z.of_nat (length pre) + BODY_ENTRY_SIZE) with (Z.of_nat (length (pre ++ e)))
    by (rewrite length_app, Hlen; unfold BODY_ENTRY_SIZE; lia).
  rewrite app_assoc. apply IH.
Qed.

Lemma fold_insert_notin (ds : list (Z * Body)) (acc : gmap Z Body) id :
  id ∉ ds.*1 → fold_left (λ m d, <[d.1 := d.2]> m) ds acc !! id = acc !! id.
Proof.
  revert acc. induction ds as [|[i b] ds IH]; intros acc Hn; [done|].
  cbn [fold_left fst snd]. apply not_elem_of_cons in Hn as [Hne Hn].
  rewrite IH by done. by apply lookup_insert_ne.
Qed.

Lemma fold_insert_lookup (ds : list (Z * Body)) (acc : gmap Z Body) k id b :
  NoDup ds.*1 → ds !! k = Some (id, b) →
  fold_left (λ m d, <[d.1 := d.2]> m) ds acc !! id = Some b.
Proof.
  revert acc k. induction ds as [|[i b'] ds IH]; intros acc k Hnd Hk; [done|].
  apply NoDup_cons in Hnd as [Hni Hnd]. cbn [fold_left fst snd].
  destruct k as [|k]; cbn in Hk.
  - injection Hk as -> ->. rewrite fold_insert_notin by done. apply lookup_insert_eq.
  - by eapply IH.
Qed.

Lemma sorted_keys_NoDup {A} (m : gmap Z A) : NoDup (sorted_keys m).
Proof.
  unfold sorted_keys. rewrite (merge_sort_Permutation _ _).
  apply NoDup_fst_map_to_list.
Qed.

Lemma init_of_written_file (all_coeffs : gmap Z (list (Coeffs F)))
    (ivs : list (F * F)) (coeff_degree : Z)
    (interval_days start_jd end_jd : F) (bytes : list byte) :
  _write_eph_file pack_d all_coeffs ivs coeff_degree interval_days start_jd end_jd
  = Some bytes →
  ∃ self, __init__ unpack_d bytes = Return self ∧
    file self = bytes ∧
    header self = {| version := 1;
                     num_bodies := Z.of_nat (size all_coeffs);
                     num_intervals := Z.of_nat (length ivs);
                     EphReader.interval_days := unpack_d (pack_d interval_days);
                     EphReader.start_jd := unpack_d (pack_d start_jd);
                     EphReader.end_jd := unpack_d (pack_d end_jd);
                     EphReader.coeff_degree := coeff_degree |} ∧
    intervals self = map (λ iv, (unpack_d (pack_d iv.1), unpack_d (pack_d iv.2))) ivs ∧
    (∀ body_id, is_Some (bodies self !! body_id) ↔ is_Some (all_coeffs !! body_id)) ∧
    ∀ (k : nat) (body_id : Z), sorted_keys all_coeffs !! k = Some body_id →
      bodies self !! body_id
      = Some {| name := Reference.stored_name (body_name_of body_id);
                data_offset := data_offset_of (Z.of_nat (size all_coeffs))
                                 (Z.of_nat (length ivs)) coeff_degree k |}.
Proof.
  intros Hw. unfold _write_eph_file in Hw.
  destruct (pack_header _ _ _ _ _ _ _) as [h|] eqn:Hh; [|done]. simpl in Hw.
  destruct (mapM _ _) as [table|] eqn:Ht; [|done]. simpl in Hw.
  injection Hw as <-.
  pose proof (length_pack_header pack_d pack_d_length _ _ _ _ _ _ _ Hh) as Hlh.
  rewrite Hlh. change (Z.to_nat (HEADER_SIZE - Z.of_nat 44)) with 468%nat.
  set (B := Z.of_nat (size all_coeffs)) in *. set (I := Z.of_nat (length ivs)) in *.
  set (keys := sorted_keys all_coeffs) in *.
  set (data := concat (map _ keys)).
  set (header := h ++ replicate 468 x00).
  assert (length header = 512%nat) as Hheader
    by (unfold header; rewrite length_app, length_replicate; lia).
  pose proof (mapM_Some_1 _ _ _ Ht) as Hf2.
  assert (Forall (λ c, length c = 36%nat) table) as Htab.
  { eapply Forall2_Forall_r; [exact Hf2|]. apply Forall_forall.
    intros ib _ entry. apply length_body_entry. }
  assert (length table = size all_coeffs) as Hlt.
  { rewrite <- (length_mapM _ _ _ Ht), length_enumerate. apply sorted_keys_length. }
  set (ds := imap (λ k id, (id, {| name := Reference.stored_name (body_name_of id);
                                  data_offset := data_offset_of B I coeff_degree k |}))
                  keys).
  assert (Forall2 Reference.decodes_to table ds) as Hdec.
  { apply Forall2_same_length_lookup_2.
    - unfold ds. rewrite length_imap. fold keys in Hlt.
      rewrite Hlt. unfold keys. by rewrite sorted_keys_length.
    - intros k e d Hek Hdk. unfold ds in Hdk.
      apply list_lookup_imap_Some in Hdk as (id & Hid & ->).
      pose proof (enumerate_lookup _ _ _ Hid) as Hen.
      destruct (Forall2_lookup_l _ _ _ _ _ Hf2 Hen) as (e' & He' & Hbe).
      rewrite Hek in He'. injection He' as <-.
      apply body_entry_inv in Hbe as (idb & nm & off & -> & H1 & H2 & H3 & Hidb & Hnm & Hoff).
      unfold Reference.decodes_to. cbn [fst snd name data_offset].
      assert (Struct.slice 0 4 (idb ++ nm ++ off) = idb) as ->
        by (by apply (slice_app_at [] idb (nm ++ off) 0 4)).
      assert (Struct.slice 4 28 (idb ++ nm ++ off) = nm) as ->
        by (by apply (slice_app_at idb nm off 4 28)).
      assert (Struct.slice 28 36 (idb ++ nm ++ off) = off) as ->.
      { transitivity (Struct.slice 28 36 ((idb ++ nm) ++ off ++ [])).
        { by rewrite app_nil_r, <- app_assoc. }
        apply slice_app_at; [rewrite length_app|]; lia. }
      repeat split.
      + rewrite !length_app. lia.
      + unfold unpack_int32. by rewrite Hidb.
      + unfold decode_ascii.
        rewrite (Forall_ascii_rstrip _ (name_bytes_ascii _ _ Hnm)).
        unfold Reference.stored_name. by rewrite Hnm.
      + unfold unpack_uint. rewrite H3. simpl (_ =? _)%nat. cbv iota. by rewrite Hoff. }
  unfold __init__.
  assert (_read_header unpack_d (header ++ concat table ++ concat (map (interval_entry pack_d) ivs) ++ data)
          = Return {| version := 1; num_bodies := B; num_intervals := I;
                      EphReader.interval_days := unpack_d (pack_d interval_days);
                      EphReader.start_jd := unpack_d (pack_d start_jd);
                      EphReader.end_jd := unpack_d (pack_d end_jd);
                      EphReader.coeff_degree := coeff_degree |}) as ->
    by (by apply read_header_of_packed).
  cbn [mbind outcome_bind num_bodies num_intervals].
  assert (Z.to_nat B = length table) as -> by (unfold B; lia).
  set (file := header ++ concat table ++ concat (map (interval_entry pack_d) ivs) ++ data).
  assert (read_bodies file HEADER_SIZE (length table) ∅
          = Return (fold_left (λ m d, <[d.1 := d.2]> m) ds ∅)) as ->.
  { change HEADER_SIZE with (Z.of_nat 512). rewrite <- Hheader.
    by apply read_bodies_of_entries. }
  cbn [mbind outcome_bind].
  assert (read_intervals unpack_d file (HEADER_SIZE + B * BODY_ENTRY_SIZE) (Z.to_nat I)
          = Return (map (λ iv, (unpack_d (pack_d iv.1), unpack_d (pack_d iv.2))) ivs)) as ->.
  { replace (HEADER_SIZE + B * BODY_ENTRY_SIZE)
      with (Z.of_nat (length (header ++ concat table))).
    2:{ rewrite length_app, (length_concat_const _ 36) by done.
        rewrite Hheader, Hlt. unfold B, HEADER_SIZE, BODY_ENTRY_SIZE. lia. }
    assert (Z.to_nat I = length ivs) as -> by (unfold I; lia).
    unfold file. rewrite (app_assoc header). apply read_intervals_of_packed. }
  cbn [mbind outcome_bind]. eexists. split; [reflexivity|].
  cbn [EphReader.file EphReader.header intervals bodies].
  assert (NoDup ds.*1) as Hnd.
  { replace (ds.*1) with keys; [apply sorted_keys_NoDup|].
    unfold ds. apply list_eq. intros k.
    rewrite list_lookup_fmap, list_lookup_imap. by destruct (keys !! k). }
  split; [by unfold file, header; rewrite <- !app_assoc|]. split; [done|]. split; [done|]. split.
  - intros body_id. rewrite <- (sorted_keys_elem all_coeffs). fold keys. split.
    + intros [b Hb]. destruct (decide (body_id ∈ keys)); [done|].
      rewrite fold_insert_notin, lookup_empty in Hb; [done|].
      replace (ds.*1) with keys; [done|].
      unfold ds. apply list_eq. intros k.
      rewrite list_lookup_fmap, list_lookup_imap. by destruct (keys !! k).
    + intros (k & Hk)%list_elem_of_lookup_1.
      eexists. eapply (fold_insert_lookup ds ∅ k); [done|].
      unfold ds. by rewrite list_lookup_imap, Hk.
  - intros k body_id Hk. eapply (fold_insert_lookup ds ∅ k); [done|].
    unfold ds. by rewrite list_lookup_imap, Hk.
Qed.

(** Property X1. [EphReader.__init__] on a file [_write_eph_file] has
    written returns (no exception): the header fields, the interval index
    and the body table come back as they were written, the doubles
    through [pack] and [unpack]; the bodies are those of [all_coeffs], each
    with the data offset the encoder computed and the name that [rstrip]
    and [decode] leave of its 24-byte field. *)
Theorem init_reads_written_file (all_coeffs : gmap Z (list (Coeffs F)))
    (ivs : list (F * F)) (coeff_degree : Z)
    (interval_days start_jd end_jd : F) (bytes : list byte) :
  _write_eph_file pack_d all_coeffs ivs coeff_degree interval_days start_jd end_jd
  = Some bytes →
  ∃ self, __init__ unpack_d bytes = Return self ∧
    file self = bytes ∧
    header self = {| version := 1;
                     num_bodies := Z.of_nat (size all_coeffs);
                     num_intervals := Z.of_nat (length ivs);
                     EphReader.interval_days := unpack_d (pack_d interval_days);
                     EphReader.start_jd := unpack_d (pack_d start_jd);
                     EphReader.end_jd := unpack_d (pack_d end_jd);
                     EphReader.coeff_degree := coeff_degree |} ∧
    intervals self = map (λ iv, (unpack_d (pack_d iv.1), unpack_d (pack_d iv.2))) ivs ∧
    (∀ body_id, is_Some (bodies self !! body_id) ↔ is_Some (all_coeffs !! body_id)) ∧
    ∀ (k : nat) (body_id : Z), sorted_keys all_coeffs !! k = Some body_id →
      bodies self !! body_id
      = Some {| name := Reference.stored_name (body_name_of body_id);
                data_offset := data_offset_of (Z.of_nat (size all_coeffs))
                                 (Z.of_nat (length ivs)) coeff_degree k |}.
Proof. apply init_of_written_file. Qed.

(** Property X2. In a file [_write_eph_file] has written for
    coefficient lists of the shape [convert] supplies, the
    [bytes_per_interval] bytes at [data_offset + j * bytes_per_interval]
    of the [k]-th body are block [j] of that body: its x, y and z
    coefficients, packed in this order. *)
Theorem written_block_location (all_coeffs : gmap Z (list (Coeffs F)))
    (ivs : list (F * F)) (coeff_degree : Z)
    (interval_days start_jd end_jd : F) (bytes : list byte)
    (k j : nat) (body_id : Z) (cl : list (Coeffs F)) (c : Coeffs F) :
  matrix_shape all_coeffs (length ivs) coeff_degree = true →
  _write_eph_file pack_d all_coeffs ivs coeff_degree interval_days start_jd end_jd
  = Some bytes →
  sorted_keys all_coeffs !! k = Some body_id →
  all_coeffs !! body_id = Some cl →
  cl !! j = Some c →
  seek_read bytes
    (data_offset_of (Z.of_nat (size all_coeffs)) (Z.of_nat (length ivs)) coeff_degree k
     + Z.of_nat j * bytes_per_interval coeff_degree)
    (bytes_per_interval coeff_degree)
  = coeff_block pack_d c.
Proof.
  intros Hshape Hw Hk Hcl Hj. unfold _write_eph_file in Hw.
  destruct (pack_header _ _ _ _ _ _ _) as [h|] eqn:Hh; [|done]. simpl in Hw.
  destruct (mapM _ _) as [table|] eqn:Ht; [|done]. simpl in Hw.
  injection Hw as <-.
  pose proof (length_pack_header pack_d pack_d_length _ _ _ _ _ _ _ Hh) as Hlh.
  rewrite Hlh. change (Z.to_nat (HEADER_SIZE - Z.of_nat 44)) with 468%nat.
  set (keys := sorted_keys all_coeffs) in *.
  set (chunks := map (λ body_id, body_data pack_d (default [] (all_coeffs !! body_id))) keys).
  set (index := concat (map (interval_entry pack_d) ivs)).
  pose proof (mapM_Some_1 _ _ _ Ht) as Hf2.
  assert (Forall (λ c, length c = 36%nat) table) as Htab.
  { eapply Forall2_Forall_r; [exact Hf2|]. apply Forall_forall.
    intros ib _ entry. apply length_body_entry. }
  assert (length table = size all_coeffs) as Hlt.
  { rewrite <- (length_mapM _ _ _ Ht), length_enumerate. apply sorted_keys_length. }
  assert (length index = (16 * length ivs)%nat) as Hli.
  { unfold index. rewrite (length_concat_const _ 16); [by rewrite length_map|].
    apply Forall_forall. intros e (iv & -> & _)%list_elem_of_fmap.
    unfold interval_entry. rewrite length_app, !pack_d_length. done. }
  destruct (matrix_shape_lookup _ _ _ _ _ Hshape Hcl) as [Hlen Hblocks].
  pose proof (Forall_lookup_1 _ _ _ _ Hblocks Hj) as Hc. cbn beta in Hc.
  pose proof (length_coeff_block pack_d pack_d_length _ _ Hc) as Hlc.
  set (nb := length (coeff_block pack_d c)) in *.
  assert (bytes_per_interval coeff_degree = Z.of_nat nb) as Hbpi
    by (unfold bytes_per_interval; lia).
  assert (∀ cl', Forall (λ c, block_shape coeff_degree c = true) cl' →
            Forall (λ b, length b = nb) (map (coeff_block pack_d) cl')) as Hbl.
  { intros cl' Hall. apply Forall_fmap. eapply Forall_impl; [exact Hall|].
    intros c' Hc'. cbn. pose proof (length_coeff_block pack_d pack_d_length _ _ Hc'). lia. }
  assert (Forall (λ ch, length ch = (length ivs * nb)%nat) chunks) as Hch.
  { unfold chunks. apply Forall_fmap, Forall_forall. intros id Hid. cbn.
    apply sorted_keys_elem in Hid as [cl' Hcl']. rewrite Hcl'. cbn [default].
    destruct (matrix_shape_lookup _ _ _ _ _ Hshape Hcl') as [Hlen' Hblocks'].
    unfold body_data. rewrite (length_concat_const _ nb) by auto.
    rewrite length_map. unfold Datatypes.id. lia. }
  assert (chunks !! k = Some (body_data pack_d cl)) as Hchk.
  { unfold chunks. by rewrite list_lookup_fmap, Hk; cbn; rewrite Hcl. }
  unfold seek_read. rewrite Hbpi, Nat2Z.id.
  set (P := (h ++ replicate 468 x00) ++ concat table ++ index).
  assert (length P = (512 + 36 * size all_coeffs + 16 * length ivs)%nat) as HP.
  { unfold P. rewrite !length_app, length_replicate, (length_concat_const _ 36) by done. lia. }
  replace ((h ++ replicate 468 x00) ++ concat table ++ index ++ concat chunks)
    with (P ++ concat chunks ++ []) by (unfold P; by rewrite app_nil_r, <- !app_assoc).
  replace (Z.to_nat _) with (length P + (length ivs * nb * k + nb * j))%nat.
  2:{ rewrite HP. unfold data_offset_of, data_start, HEADER_SIZE, BODY_ENTRY_SIZE,
        INTERVAL_ENTRY_SIZE. rewrite Hbpi. lia. }
  rewrite <- drop_drop, drop_app_length, <- drop_drop.
  rewrite (drop_concat_chunk chunks _ k _ _ Hch Hchk).
  unfold body_data at 1.
  rewrite (drop_concat_chunk (map (coeff_block pack_d) cl) nb j (coeff_block pack_d c)).
  - unfold nb. apply take_app_length.
  - auto.
  - by rewrite list_lookup_fmap, Hj.
Qed.

End RoundTrip.

(** Witness for X1: the demo container. *)
Lemma init_reads_written_file_witness :
  ∃ self, EphReader.__init__ Binary64.unpack_d Demo.demo_file = EphReader.Return self ∧
    EphReader.file self = Demo.demo_file ∧
    EphReader.header self
    = {| EphReader.version := 1;
         EphReader.num_bodies := Z.of_nat (size Demo.demo_coeffs);
         EphReader.num_intervals := Z.of_nat (length Demo.demo_intervals);
         EphReader.interval_days := Binary64.unpack_d (Binary64.pack_d Demo.d_16);
         EphReader.start_jd := Binary64.unpack_d (Binary64.pack_d Demo.d_2451545);
         EphReader.end_jd := Binary64.unpack_d (Binary64.pack_d Demo.d_2451593);
         EphReader.coeff_degree := 1 |} ∧
    EphReader.intervals self
    = map (λ iv, (Binary64.unpack_d (Binary64.pack_d iv.1),
                  Binary64.unpack_d (Binary64.pack_d iv.2))) Demo.demo_intervals ∧
    (∀ body_id, is_Some (EphReader.bodies self !! body_id)
                ↔ is_Some (Demo.demo_coeffs !! body_id)) ∧
    ∀ (k : nat) (body_id : Z), EphWriter.sorted_keys Demo.demo_coeffs !! k = Some body_id →
      EphReader.bodies self !! body_id
      = Some {| EphReader.name := Reference.stored_name (body_name_of body_id);
                EphReader.data_offset :=
                  EphWriter.data_offset_of (Z.of_nat (size Demo.demo_coeffs))
                    (Z.of_nat (length Demo.demo_intervals)) 1 k |}.
Proof.
  apply (init_reads_written_file Binary64.pack_d Binary64.unpack_d
           (λ x, length_le_bytes 8 x) Demo.demo_coeffs Demo.demo_intervals 1
           Demo.d_16 Demo.d_2451545 Demo.d_2451593 Demo.demo_file).
  vm_compute. reflexivity.
Defined.

(** Witness for X2: block 1 of the demo container. *)
Lemma written_block_location_witness :
  EphReader.seek_read Demo.demo_file
    (EphWriter.data_offset_of (Z.of_nat (size Demo.demo_coeffs))
       (Z.of_nat (length Demo.demo_intervals)) 1 0
     + Z.of_nat 1 * EphWriter.bytes_per_interval 1)
    (EphWriter.bytes_per_interval 1)
  = EphWriter.coeff_block Binary64.pack_d (Demo.demo_block 6).
Proof.
  apply (written_block_location Binary64.pack_d (λ x, length_le_bytes 8 x)
           Demo.demo_coeffs Demo.demo_intervals 1 Demo.d_16 Demo.d_2451545
           Demo.d_2451593 Demo.demo_file 0 1 399
           [Demo.demo_block 0; Demo.demo_block 6; Demo.demo_block 12]).
  - vm_compute. reflexivity.
  - vm_compute. reflexivity.
  - vm_compute. reflexivity.
  - vm_compute. reflexivity.
  - reflexivity.
Defined.

(** ** Names and encoder errors *)

Section NameExtras.
Import EphReader.

Lemma rstrip_nul_app_nuls (bs : list byte) (n : nat) :
  rstrip_nul (bs ++ replicate n x00) = rstrip_nul bs.
Proof.
  unfold rstrip_nul. rewrite fold_right_app.
  replace (fold_right _ [] (replicate n x00)) with (@nil byte); [done|].
  induction n as [|n IH]; [done|]. cbn [replicate fold_right]. by rewrite <- IH.
Qed.

Lemma rstrip_nul_id (bs : list byte) :
  last bs ≠ Some x00 → rstrip_nul bs = bs.
Proof.
  unfold rstrip_nul. induction bs as [|b bs IH]; [done|].
  intros Hlast. cbn [fold_right]. destruct bs as [|b' bs].
  - cbn. destruct (Byte.eqb b x00) eqn:Hb; [|done].
    apply Byte.byte_dec_bl in Hb. by subst.
  - rewrite IH by done. done.
Qed.

(** Property X4. For an ASCII body name whose first 24 bytes do not end
    in NUL, the name the reader decodes from the 24-byte field the encoder
    writes is the name cut to 24 bytes; a name of at most 24 bytes comes
    back unchanged. *)
Theorem name_field_round_trip (body_name : string) :
  forallb (λ b, Struct.Z_of_byte b <? 128) (list_byte_of_string body_name) = true →
  last (take 24 (list_byte_of_string body_name)) ≠ Some x00 →
  ∃ field, name_bytes body_name = Some field ∧
    decode_ascii (rstrip_nul field)
    = Return (string_of_list_byte (take 24 (list_byte_of_string body_name))) ∧
    ((length (list_byte_of_string body_name) ≤ 24)%nat →
     decode_ascii (rstrip_nul field) = Return body_name).
Proof.
  intros Hascii Hlast. unfold name_bytes, encode_ascii. rewrite Hascii. cbn.
  eexists. split; [reflexivity|].
  unfold Struct.ljust. rewrite rstrip_nul_app_nuls, rstrip_nul_id by done.
  assert (forallb (λ b, Struct.Z_of_byte b <? 128)
            (take 24 (list_byte_of_string body_name)) = true) as Ht.
  { rewrite forallb_forall in *. intros b Hb. apply Hascii.
    rewrite <- (take_drop 24 (list_byte_of_string body_name)). apply in_or_app. by left. }
  unfold decode_ascii. rewrite Ht. split; [done|].
  intros Hlen. by rewrite take_ge, string_of_list_byte_of_string by lia.
Qed.

(** Witness for X4. *)
Lemma name_field_round_trip_witness :
  ∃ field, name_bytes "Earth" = Some field ∧
    decode_ascii (rstrip_nul field)
    = Return (string_of_list_byte (take 24 (list_byte_of_string "Earth"))) ∧
    ((length (list_byte_of_string "Earth") ≤ 24)%nat →
     decode_ascii (rstrip_nul field) = Return "Earth"%string).
Proof. apply (name_field_round_trip "Earth"); vm_compute; [reflexivity|discriminate]. Defined.

End NameExtras.

Section WriterErrors.
Import EphWriter.
Context {F : Type} (pack_d : F → list byte).

Lemma pack_I_Some v bs : Struct.pack_I v = Some bs → 0 ≤ v < 2 ^ 32.
Proof. unfold Struct.pack_I. destruct (_ && _) eqn:H; [|done]. lia. Qed.

Lemma pack_i_Some v bs : Struct.pack_i v = Some bs → - 2 ^ 31 ≤ v < 2 ^ 31.
Proof. unfold Struct.pack_i. destruct (_ && _) eqn:H; [|done]. lia. Qed.

Lemma pack_Q_Some v bs : Struct.pack_Q v = Some bs → 0 ≤ v < 2 ^ 64.
Proof. unfold Struct.pack_Q. destruct (_ && _) eqn:H; [|done]. lia. Qed.

(** Property X3. The encoder completes the file only for inputs [struct.pack] and
    [encode] accept: counts and degree fit an unsigned 32-bit field, every
    body id a signed one, every data offset an unsigned 64-bit one, and
    every body name is ASCII. *)
Theorem write_eph_file_requires (all_coeffs : gmap Z (list (Coeffs F)))
    (ivs : list (F * F)) (coeff_degree : Z)
    (interval_days start_jd end_jd : F) (bytes : list byte) :
  _write_eph_file pack_d all_coeffs ivs coeff_degree interval_days start_jd end_jd
  = Some bytes →
  0 ≤ coeff_degree < 2 ^ 32 ∧
  Z.of_nat (size all_coeffs) < 2 ^ 32 ∧
  Z.of_nat (length ivs) < 2 ^ 32 ∧
  ∀ (k : nat) (body_id : Z), sorted_keys all_coeffs !! k = Some body_id →
    - 2 ^ 31 ≤ body_id < 2 ^ 31 ∧
    data_offset_of (Z.of_nat (size all_coeffs)) (Z.of_nat (length ivs)) coeff_degree k
      < 2 ^ 64 ∧
    is_Some (encode_ascii (body_name_of body_id)).
Proof.
  intros Hw. unfold _write_eph_file in Hw.
  destruct (pack_header _ _ _ _ _ _ _) as [h|] eqn:Hh; [|done]. simpl in Hw.
  destruct (mapM _ _) as [table|] eqn:Ht; [|done]. clear Hw.
  unfold pack_header in Hh.
  apply bind_Some in Hh as (v & _ & Hh).
  apply bind_Some in Hh as (nb & Hnb%pack_I_Some & Hh).
  apply bind_Some in Hh as (ni & Hni%pack_I_Some & Hh).
  apply bind_Some in Hh as (cd & Hcd%pack_I_Some & _).
  split; [done|]. split; [lia|]. split; [lia|].
  intros k body_id Hk.
  pose proof (mapM_Some_1 _ _ _ Ht) as Hf2.
  destruct (Forall2_lookup_l _ _ _ _ _ Hf2 (enumerate_lookup _ _ _ Hk)) as (e & _ & He).
  unfold body_entry in He.
  apply bind_Some in He as (nm & Hnm & He).
  apply bind_Some in He as (idb & Hidb%pack_i_Some & He).
  apply bind_Some in He as (off & Hoff%pack_Q_Some & _).
  split; [done|]. split; [lia|].
  unfold name_bytes in Hnm. apply bind_Some in Hnm as (enc & -> & _). done.
Qed.

End WriterErrors.

(** Witness for X3: the demo container. *)
Lemma write_eph_file_requires_witness :
  0 ≤ 1 < 2 ^ 32 ∧
  Z.of_nat (size Demo.demo_coeffs) < 2 ^ 32 ∧
  Z.of_nat (length Demo.demo_intervals) < 2 ^ 32 ∧
  ∀ (k : nat) (body_id : Z), EphWriter.sorted_keys Demo.demo_coeffs !! k = Some body_id →
    - 2 ^ 31 ≤ body_id < 2 ^ 31 ∧
    EphWriter.data_offset_of (Z.of_nat (size Demo.demo_coeffs))
      (Z.of_nat (length Demo.demo_intervals)) 1 k < 2 ^ 64 ∧
    is_Some (encode_ascii (body_name_of body_id)).
Proof.
  apply (write_eph_file_requires Binary64.pack_d Demo.demo_coeffs Demo.demo_intervals 1
           Demo.d_16 Demo.d_2451545 Demo.d_2451593 Demo.demo_file).
  vm_compute. reflexivity.
Defined.

(** ** [convert], then [EphReader] *)

Section ConvertOpens.
Import Refit.

Variable spkgps : Z → Q → option pos3.
Variable chebyshev_nodes : nat → list Q.
Variable chebfit : list Q → list Q → nat → option (list Q).
Variable pack_d : Q → list byte.
Variable unpack_d : list byte → Q.
Hypothesis pack_d_length : ∀ x, length (pack_d x) = 8%nat.
Hypothesis chebfit_length : ∀ nodes values deg cs,
  chebfit nodes values deg = Some cs → length cs = S deg.

(** Property X5. A file [convert] has written opens in the reader:
    the header carries degree 7 and the number of intervals, the interval
    index is the generated list (through [pack] and [unpack]), and the
    body table holds exactly the requested bodies whose extraction did not
    raise. *)
Theorem convert_file_opens (body_ids : list Z) (intervals : list (Q * Q))
    (interval_days start_jd end_jd : Q) (bytes : list byte) :
  convert_from spkgps chebyshev_nodes chebfit pack_d body_ids intervals
    interval_days start_jd end_jd = Some bytes →
  ∃ self, EphReader.__init__ unpack_d bytes = EphReader.Return self ∧
    EphReader.coeff_degree (EphReader.header self) = 7 ∧
    EphReader.num_intervals (EphReader.header self) = Z.of_nat (length intervals) ∧
    EphReader.intervals self
    = map (λ iv, (unpack_d (pack_d iv.1), unpack_d (pack_d iv.2))) intervals ∧
    ∀ body_id, is_Some (EphReader.bodies self !! body_id)
               ↔ body_id ∈ body_ids ∧
                 is_Some (_extract_coefficients spkgps chebyshev_nodes chebfit
                            body_id intervals).
Proof.
  unfold convert_from. intros H.
  destruct (first_degree _ _ _ _ _) as [d|] eqn:Hd; [simpl in H|done].
  apply (first_degree_7 _ _ _ chebfit_length) in Hd as ->.
  destruct (init_of_written_file pack_d unpack_d pack_d_length _ _ _ _ _ _ _ H)
    as (self & Hinit & _ & Hh & Hiv & Hdom & _).
  exists self. split; [done|]. rewrite Hh. cbn. split; [done|]. split; [done|].
  split; [done|]. intros body_id. rewrite Hdom, extract_all_lookup.
  destruct (decide (body_id ∈ body_ids)) as [Hin|Hnin].
  - split; [by intros ?|by intros [_ ?]].
  - split; [by intros [? [=]]|by intros [? _]].
Qed.

End ConvertOpens.

Lemma chebfit_dct_length nodes values deg cs :
  Refit.chebfit_dct nodes values deg = Some cs → length cs = S deg.
Proof.
  unfold Refit.chebfit_dct. intros H.
  assert (cs = map (λ j, (if (j =? 0)%nat then 1 else 2)
                         / inject_Z (Z.of_nat (length nodes))
                         * fold_right Qplus 0
                             (zip_with (λ x y, y * Refit.cheb_T j x) nodes values))%Q
                   (seq 0 (S deg))) as -> by congruence.
  by rewrite length_map, length_seq.
Qed.

(** Witness for X5: one body, one interval. *)
Lemma convert_file_opens_witness :
  let intervals := [(2451545 # 1, 2451561 # 1)]%Q in
  let pack_d := λ _ : Q, Struct.le_bytes 8 0 in
  let unpack_d := λ _ : list byte, 0%Q in
  ∃ bytes self,
    Refit.convert_from DemoInputs.spkgps DemoInputs.chebyshev_nodes Refit.chebfit_dct
      pack_d [399] intervals 16 2451545 2451561 = Some bytes ∧
    EphReader.__init__ unpack_d bytes = EphReader.Return self ∧
    EphReader.coeff_degree (EphReader.header self) = 7 ∧
    EphReader.num_intervals (EphReader.header self) = Z.of_nat (length intervals) ∧
    EphReader.intervals self
    = map (λ iv, (unpack_d (pack_d iv.1), unpack_d (pack_d iv.2))) intervals ∧
    ∀ body_id, is_Some (EphReader.bodies self !! body_id)
               ↔ body_id ∈ [399] ∧
                 is_Some (Refit._extract_coefficients DemoInputs.spkgps
                            DemoInputs.chebyshev_nodes Refit.chebfit_dct
                            body_id intervals).
Proof.
  intros intervals pack_d unpack_d.
  assert (is_Some (Refit.convert_from DemoInputs.spkgps DemoInputs.chebyshev_nodes
            Refit.chebfit_dct pack_d [399] intervals 16 2451545 2451561)) as [bytes Hb]
    by (vm_compute; eexists; reflexivity).
  destruct (convert_file_opens DemoInputs.spkgps DemoInputs.chebyshev_nodes
              Refit.chebfit_dct pack_d unpack_d (λ x, length_le_bytes 8 0)
              chebfit_dct_length [399] intervals 16 2451545 2451561 bytes Hb)
    as (self & Hself).
  exists bytes, self. split; [exact Hb|exact Hself].
Defined.

(** ** Angles, the initial state and the acceleration *)

Section AnglesFacts.
Import Integrator.
Local Open Scope R_scope.

Lemma sqrt_hyp_pos (x y : R) : x ≠ 0 → 0 < sqrt (1 + (y / x)²).
Proof. intros _. apply sqrt_lt_R0. pose proof (Rle_0_sqr (y / x)). lra. Qed.

Lemma sqrt_hyp_scale (x y : R) :
  x ≠ 0 → sqrt (x * x + y * y) = Rabs x * sqrt (1 + (y / x)²).
Proof.
  intros Hx. rewrite <- (sqrt_Rsqr_abs x), <- sqrt_mult_alt by apply Rle_0_sqr.
  f_equal. unfold Rsqr. by field.
Qed.

(** [arctan2 y x] is an angle of the point [(x, y)]. *)
Lemma arctan2_cos (y x : R) :
  cos (arctan2 y x) * sqrt (x * x + y * y) = x.
Proof.
  unfold arctan2. destruct (Rlt_dec 0 x) as [Hx|Hx].
  - rewrite sqrt_hyp_scale, cos_atan, Rabs_pos_eq by lra.
    pose proof (sqrt_hyp_pos x y). field. lra.
  - destruct (Rlt_dec x 0) as [Hx'|Hx'].
    + pose proof (sqrt_hyp_pos x y).
      destruct (Rle_dec 0 y).
      * rewrite neg_cos, sqrt_hyp_scale, cos_atan, Rabs_left by lra. field. lra.
      * rewrite cos_minus, cos_PI, sin_PI, sqrt_hyp_scale, cos_atan, Rabs_left by lra.
        field. lra.
    + assert (x = 0) as -> by lra.
      destruct (Rlt_dec 0 y); [rewrite cos_PI2; lra|].
      destruct (Rlt_dec y 0); [rewrite cos_neg, cos_PI2; lra|].
      assert (y = 0) as -> by lra. rewrite Rmult_0_r, Rplus_0_r, sqrt_0. lra.
Qed.

Lemma arctan2_sin (y x : R) :
  sin (arctan2 y x) * sqrt (x * x + y * y) = y.
Proof.
  unfold arctan2. destruct (Rlt_dec 0 x) as [Hx|Hx].
  - rewrite sqrt_hyp_scale, sin_atan, Rabs_pos_eq by lra.
    pose proof (sqrt_hyp_pos x y). field. lra.
  - destruct (Rlt_dec x 0) as [Hx'|Hx'].
    + pose proof (sqrt_hyp_pos x y).
      destruct (Rle_dec 0 y).
      * rewrite neg_sin, sqrt_hyp_scale, sin_atan, Rabs_left by lra. field. lra.
      * rewrite sin_minus, cos_PI, sin_PI, sqrt_hyp_scale, sin_atan, Rabs_left by lra.
        field. lra.
    + assert (x = 0) as -> by lra.
      replace (0 * 0 + y * y) with (y * y) by lra.
      destruct (Rlt_dec 0 y); [rewrite sin_PI2, sqrt_square; lra|].
      destruct (Rlt_dec y 0).
      * rewrite sin_neg, sin_PI2. replace (y * y) with ((- y) * (- y)) by lra.
        rewrite sqrt_square; lra.
      * assert (y = 0) as -> by lra. rewrite Rmult_0_r, sqrt_0. lra.
Qed.

Lemma arctan2_range (y x : R) : - PI < arctan2 y x <= PI.
Proof.
  pose proof PI_RGT_0 as Hpi. pose proof (atan_bound (y / x)) as Hb.
  unfold arctan2. destruct (Rlt_dec 0 x) as [Hx|Hx]; [lra|].
  destruct (Rlt_dec x 0) as [Hx'|Hx'].
  - destruct (Rle_dec 0 y) as [Hy|Hy].
    + assert (atan (y / x) <= 0); [|lra].
      destruct (Req_dec y 0) as [->|Hy0].
      * unfold Rdiv. rewrite Rmult_0_l, atan_0. lra.
      * left. rewrite <- atan_0. apply atan_increasing.
        unfold Rdiv. pose proof (Rinv_lt_0_compat x Hx'). nra.
    + assert (0 < atan (y / x)); [|lra].
      rewrite <- atan_0. apply atan_increasing.
      unfold Rdiv. pose proof (Rinv_lt_0_compat x Hx'). nra.
  - destruct (Rlt_dec 0 y); [lra|]. destruct (Rlt_dec y 0); lra.
Qed.

Lemma AU_pos : 0 < AU.
Proof. unfold AU. lra. Qed.

Lemma GM_SUN_pos : 0 < GM_SUN.
Proof. unfold GM_SUN. lra. Qed.

Lemma norm_sqr (p : vec3) : norm p * norm p = dot p p.
Proof.
  unfold norm. apply sqrt_sqrt. destruct p as [[x y] z]. unfold dot. cbn [fst snd]. nra.
Qed.

Lemma norm_nonneg (p : vec3) : 0 <= norm p.
Proof. apply sqrt_pos. Qed.

(** Property X17. For a position with a positive norm,
    [cartesian_to_spherical] returns a longitude in [0, 360] degrees that
    is the polar angle of [(x, y)]: [x = rho cos lon], [y = rho sin lon]
    with [rho = sqrt (x^2 + y^2)]; and a distance that is the norm in AU.
    (Over the reals the longitude is below 360; the sum [lon + 360.0] of
    doubles can round to 360. The latitude is left out: on the z axis
    rounding can take the argument of [arcsin] above 1.) *)
Theorem cartesian_to_spherical_ok (pos : vec3) :
  0 < norm pos →
  let '(lon, lat, dist) := cartesian_to_spherical pos in
  let rho := sqrt (pos.1.1 * pos.1.1 + pos.1.2 * pos.1.2) in
  0 <= lon <= 360 ∧ dist * AU = norm pos ∧
  pos.1.1 = rho * cos (lon * PI / 180) ∧
  pos.1.2 = rho * sin (lon * PI / 180).
Proof.
  intros Hpos. pose proof AU_pos as HAU. pose proof PI_RGT_0 as Hpi.
  destruct pos as [[x y] z]. unfold cartesian_to_spherical. cbn [fst snd].
  assert (180.0 = 180) as -> by lra. assert (360.0 = 360) as -> by lra.
  set (n := norm (x, y, z)) in *.
  assert (n / AU * AU = n) as Hn by (field; lra).
  pose proof (arctan2_range y x) as Hr.
  pose proof (arctan2_cos y x) as Hcos. pose proof (arctan2_sin y x) as Hsin.
  set (th := arctan2 y x) in *.
  set (rho := sqrt (x * x + y * y)) in *.
  set (k := 180 / PI).
  assert (0 < k) as Hk by (apply Rdiv_lt_0_compat; lra).
  assert (k * PI = 180) as HkPI by (unfold k; field; lra).
  replace (th * 180 / PI) with (th * k) by (unfold k; field; lra).
  destruct (Rlt_dec (th * k) 0) as [Hneg|Hneg].
  - assert (th < 0) as Hth by nra.
    split; [nra|]. split; [done|].
    replace ((th * k + 360) * PI / 180) with (th + 2 * PI) by (unfold k; field; lra).
    rewrite cos_plus, sin_plus, cos_2PI, sin_2PI, !Rmult_1_r, !Rmult_0_r,
      Rminus_0_r, Rplus_0_r.
    split; lra.
  - split; [nra|]. split; [done|].
    replace (th * k * PI / 180) with th by (unfold k; field; lra).
    split; lra.
Qed.

(** Witness for X17: a point of the x axis at 1 AU. *)
Lemma cartesian_to_spherical_ok_witness :
  let '(lon, lat, dist) := cartesian_to_spherical (AU, 0, 0) in
  let rho := sqrt (AU * AU + 0 * 0) in
  0 <= lon <= 360 ∧ dist * AU = norm (AU, 0, 0) ∧
  AU = rho * cos (lon * PI / 180) ∧
  0 = rho * sin (lon * PI / 180).
Proof.
  apply (cartesian_to_spherical_ok (AU, 0, 0)).
  rewrite norm_x_axis; pose proof AU_pos; lra.
Defined.

End AnglesFacts.
Section ElementsFacts.
Import Integrator.
Local Open Scope R_scope.

Lemma sin2_cos2' (x : R) : sin x * sin x + cos x * cos x = 1.
Proof. pose proof (sin2_cos2 x) as H. unfold Rsqr in H. exact H. Qed.

(** The three rotations keep scalar products. *)
Lemma rotate_dot (om i w x y x' y' : R) :
  dot (rotate_to_icrf om i w x y) (rotate_to_icrf om i w x' y') = x * x' + y * y'.
Proof.
  unfold rotate_to_icrf, dot. cbn [fst snd].
  pose proof (sin2_cos2' om) as H1. pose proof (sin2_cos2' i) as H2.
  pose proof (sin2_cos2' w) as H3.
  generalize dependent (sin om). generalize dependent (cos om).
  generalize dependent (sin i). generalize dependent (cos i).
  generalize dependent (sin w). generalize dependent (cos w).
  intros c3 s3 H3 c2 s2 H2 c1 s1 H1. nsatz.
Qed.

Lemma cos_half (E : R) : cos E = cos (E / 2) * cos (E / 2) - sin (E / 2) * sin (E / 2).
Proof. rewrite <- cos_2a. f_equal. field. Qed.

Lemma sin_half (E : R) : sin E = 2 * sin (E / 2) * cos (E / 2).
Proof. rewrite <- sin_2a. f_equal. field. Qed.

(** The radius the code combines with the true anomaly is positive on
    an ellipse. *)
Lemma kepler_distance_bounds (a e ma : R) :
  0 <= a → 0 <= e <= 1 →
  a * AU * (1 - e) <= kepler_distance a e ma <= a * AU * (1 + e).
Proof.
  intros Ha He. unfold kepler_distance.
  pose proof (COS_bound (solve_kepler ma e).1) as Hc. pose proof AU_pos.
  assert (0 <= a * AU) by nra. split; apply Rmult_le_compat_l; nra.
Qed.

Lemma elements_position_norm (a e i om w ma : R) :
  norm (elements_to_cartesian a e i om w ma).1 = Rabs (kepler_distance a e ma).
Proof.
  unfold elements_to_cartesian, norm. cbn [fst]. rewrite rotate_dot.
  fold (kepler_distance a e ma). set (r := kepler_distance a e ma).
  set (nu := 2 * arctan2 _ _).
  rewrite <- sqrt_Rsqr_abs. f_equal. unfold Rsqr.
  pose proof (sin2_cos2' nu). nra.
Qed.

(** Property X15. For [0 <= a] and [0 <= e <= 1] the position
    [elements_to_cartesian] returns has the norm
    [r = a * AU * (1 - e * cos E)] the function computes (the three
    rotations keep lengths), between the perihelion distance
    [a AU (1 - e)] and the aphelion distance [a AU (1 + e)]. Doubles are
    modelled as real numbers. *)
Theorem elements_to_cartesian_distance (a e i om w ma : R) :
  0 <= a → 0 <= e <= 1 →
  norm (elements_to_cartesian a e i om w ma).1 = kepler_distance a e ma ∧
  a * AU * (1 - e) <= norm (elements_to_cartesian a e i om w ma).1 <= a * AU * (1 + e).
Proof.
  intros Ha He. pose proof (kepler_distance_bounds a e ma Ha He) as Hb.
  pose proof AU_pos.
  assert (0 <= a * AU * (1 - e)) by (apply Rmult_le_pos; [apply Rmult_le_pos|]; lra).
  rewrite elements_position_norm, Rabs_pos_eq; [done|]. lra.
Qed.

(** Witness for X15: elements close to those of Chiron. *)
Lemma elements_to_cartesian_distance_witness :
  norm (elements_to_cartesian 13.7 0.38 6.9 209.3 339.5 27.8).1
  = kepler_distance 13.7 0.38 27.8 ∧
  13.7 * AU * (1 - 0.38) <= norm (elements_to_cartesian 13.7 0.38 6.9 209.3 339.5 27.8).1
  <= 13.7 * AU * (1 + 0.38).
Proof. apply (elements_to_cartesian_distance 13.7 0.38 6.9 209.3 339.5 27.8); lra. Defined.

(** Property X16. For [0 < a] and [0 <= e < 1] the state
    [elements_to_cartesian] returns satisfies the vis-viva equation
    [v^2 = GM_SUN (2 / r - 1 / (a AU))]: it has the orbital energy of the
    semi-major axis, whatever the ten Kepler iterations have reached.
    Doubles are modelled as real numbers. *)
Theorem elements_to_cartesian_vis_viva (a e i om w ma : R) :
  0 < a → 0 <= e < 1 →
  let '(pos, vel) := elements_to_cartesian a e i om w ma in
  dot vel vel = GM_SUN * (2 / norm pos - 1 / (a * AU)).
Proof.
  intros Ha He. pose proof AU_pos as HAU. pose proof GM_SUN_pos as HGM.
  pose proof (elements_position_norm a e i om w ma) as Hn.
  pose proof (kepler_distance_bounds a e ma ltac:(lra) ltac:(lra)) as Hb.
  assert (0 <= a * AU * (1 - e)) by (apply Rmult_le_pos; [apply Rmult_le_pos|]; lra).
  rewrite Rabs_pos_eq in Hn by lra.
  unfold elements_to_cartesian in *. cbn [fst] in Hn. rewrite Hn, rotate_dot.
  unfold kepler_distance in *.
  set (E := (solve_kepler ma e).1) in *.
  rewrite (cos_half E) in *.
  set (c := cos (E / 2)) in *. set (s := sin (E / 2)) in *.
  assert (s * s + c * c = 1) as Hcs by apply sin2_cos2'.
  set (a1 := sqrt (1 - e)). set (b1 := sqrt (1 + e)).
  assert (a1 * a1 = 1 - e) as Ha1 by (apply sqrt_sqrt; lra).
  assert (b1 * b1 = 1 + e) as Hb1 by (apply sqrt_sqrt; lra).
  pose proof (arctan2_cos (b1 * s) (a1 * c)) as Hct.
  pose proof (arctan2_sin (b1 * s) (a1 * c)) as Hst.
  set (th := arctan2 (b1 * s) (a1 * c)) in *.
  set (D := 1 - e * (c * c - s * s)) in *.
  assert (0 < D) as HD by (unfold D; nra).
  assert (a1 * c * (a1 * c) + b1 * s * (b1 * s) = D) as Hrho by (unfold D; nra).
  rewrite Hrho in Hct, Hst.
  assert (sqrt D * sqrt D = D) as HsD by (apply sqrt_sqrt; lra).
  set (h := sqrt (GM_SUN * a * AU * (1 - e * e))).
  assert (0 < GM_SUN * a * AU * (1 - e * e)) as Hh2pos.
  { apply Rmult_lt_0_compat; [|nra]. apply Rmult_lt_0_compat; [|lra].
    apply Rmult_lt_0_compat; lra. }
  assert (h * h = GM_SUN * a * AU * (1 - e * e)) as Hh by (apply sqrt_sqrt; lra).
  assert (0 < h) as Hhpos by (apply sqrt_lt_R0; lra).
  set (nu := 2 * th).
  assert (sin nu * D = 2 * (b1 * s) * (a1 * c)) as Hsnu.
  { unfold nu. rewrite sin_2a, <- Hct, <- Hst at 1. rewrite <- HsD at 1. ring. }
  pose proof (sin2_cos2' nu) as Hnu.
  set (aa := a * AU) in *. assert (0 < aa) as Haa by (unfold aa; nra).
  set (A := GM_SUN / h * e * sin nu).
  set (B := h / (aa * D)).
  transitivity (A * A + B * B); [nra|].
  assert (A * A * (aa * (D * D)) = GM_SUN * (e * e) * (4 * (c * c) * (s * s))) as HA.
  { assert (A * h * D = GM_SUN * e * (2 * (b1 * s) * (a1 * c))) as HAh.
    { unfold A. rewrite <- Hsnu. field. lra. }
    assert (A * A * (h * h) * (D * D)
            = GM_SUN * GM_SUN * (e * e) * (4 * (c * c) * (s * s)) * ((1 - e) * (1 + e))) as H2.
    { rewrite <- Ha1, <- Hb1.
      replace (A * A * (h * h) * (D * D)) with ((A * h * D) * (A * h * D)) by ring.
      rewrite HAh. ring. }
    rewrite Hh in H2.
    assert (0 < 1 - e * e) as He2 by nra.
    assert (0 < GM_SUN * (1 - e * e)) as Hg by (apply Rmult_lt_0_compat; lra).
    apply (Rmult_eq_reg_r (GM_SUN * (1 - e * e))); [|lra].
    unfold aa.
    replace (A * A * (a * AU * (D * D)) * (GM_SUN * (1 - e * e)))
      with (A * A * (GM_SUN * a * AU * (1 - e * e)) * (D * D)) by ring.
    rewrite H2. ring. }
  assert (B * B * (aa * (D * D)) = GM_SUN * (1 - e * e)) as HB.
  { unfold B.
    replace (h / (aa * D) * (h / (aa * D)) * (aa * (D * D))) with (h * h / aa) by (field; lra).
    rewrite Hh. unfold aa. field. split; lra. }
  assert (0 < aa * (D * D)) as HaD
    by (apply Rmult_lt_0_compat; [lra|apply Rmult_lt_0_compat; lra]).
  apply (Rmult_eq_reg_r (aa * (D * D))); [|lra].
  rewrite Rmult_plus_distr_r, HA, HB.
  replace (GM_SUN * (2 / (aa * D) - 1 / aa) * (aa * (D * D)))
    with (GM_SUN * ((2 - D) * D)) by (field; lra).
  unfold D. nsatz.
Qed.

(** Witness for X16. *)
Lemma elements_to_cartesian_vis_viva_witness :
  let '(pos, vel) := elements_to_cartesian 13.7 0.38 6.9 209.3 339.5 27.8 in
  dot vel vel = GM_SUN * (2 / norm pos - 1 / (13.7 * AU)).
Proof. apply (elements_to_cartesian_vis_viva 13.7 0.38 6.9 209.3 339.5 27.8); lra. Defined.

End ElementsFacts.

Section AccelerationFacts.
Import Integrator.
Local Open Scope R_scope.

Variable get_position : string → R → option vec3.

(** Property X19. The planetary perturbations add to the two-body and
    relativistic acceleration: the result is the acceleration with no
    planet (every query failing) plus the sum of the perturbations of the
    planets whose position query succeeds. *)
Theorem compute_acceleration_superposition (pos vel : vec3) (jd_tdb : R) :
  compute_acceleration get_position pos vel jd_tdb
  = vadd (compute_acceleration (λ _ _, None) pos vel jd_tdb)
         (add_perturbations get_position pos jd_tdb (0, 0, 0) PLANET_GM).
Proof.
  unfold compute_acceleration. by rewrite add_perturbations_shift.
Qed.

End AccelerationFacts.

(** ** Malformed headers, and the sampling epochs *)

Section HeaderErrors.
Import EphReader.
Variable unpack_d : list byte → Q.

Lemma forallb2_byte_eq (a b : list byte) :
  Struct.forallb2 Byte.eqb a b = true ↔ a = b.
Proof.
  revert b. induction a as [|x a IH]; intros [|y b]; cbn [Struct.forallb2]; try done.
  rewrite andb_true_iff, IH. split.
  - intros [Hxy ->]. apply Byte.byte_dec_bl in Hxy. by subst.
  - intros [= -> ->]. split; [apply Byte.byte_dec_lb|]; done.
Qed.

Lemma header_magic_slice (f : list byte) :
  Struct.slice 0 4 (seek_read f 0 EphWriter.HEADER_SIZE) = take 4 f.
Proof.
  unfold Struct.slice, seek_read. change (Z.to_nat 0) with 0%nat.
  rewrite !drop_0. change (4 - 0)%nat with 4%nat.
  rewrite take_take. f_equal.
Qed.

(** Property X20. A file that does not start with the four magic bytes
    (an empty or shorter file included) is refused by [EphReader] with
    the "Invalid magic number" error, before anything else is read. *)
Theorem init_rejects_bad_magic (f : list byte) :
  take 4 f ≠ EphWriter.MAGIC →
  __init__ unpack_d f = Raise InvalidMagic.
Proof.
  intros Hm. unfold __init__, _read_header. rewrite header_magic_slice.
  destruct (Struct.forallb2 Byte.eqb (take 4 f) EphWriter.MAGIC) eqn:Heq; [|done].
  by apply forallb2_byte_eq in Heq.
Qed.

Lemma length_slice (a b : nat) (bs : list byte) :
  length (Struct.slice a b bs) = ((b - a) `min` (length bs - a))%nat.
Proof. unfold Struct.slice. by rewrite length_take, length_drop. Qed.

(** Property X21. A file with the magic bytes but fewer than the 44
    bytes of header fields is refused with [struct.error]. *)
Theorem init_rejects_truncated_header (f : list byte) :
  take 4 f = EphWriter.MAGIC → (length f < 44)%nat →
  __init__ unpack_d f = Raise StructError.
Proof.
  intros Hm Hlen. unfold __init__, _read_header. rewrite header_magic_slice, Hm.
  replace (Struct.forallb2 Byte.eqb EphWriter.MAGIC EphWriter.MAGIC) with true
    by (symmetry; by apply forallb2_byte_eq).
  set (data := seek_read f 0 EphWriter.HEADER_SIZE).
  assert (length data = length f) as Hd.
  { unfold data, seek_read. change (Z.to_nat 0) with 0%nat.
    rewrite drop_0, length_take. change (Z.to_nat EphWriter.HEADER_SIZE) with 512%nat. lia. }
  destruct (Nat.eqb_spec (length (Struct.slice 4 16 data)) 12) as [H1|H1]; [|done].
  destruct (Nat.eqb_spec (length (Struct.slice 16 40 data)) 24) as [H2|H2]; [|done].
  rewrite length_slice, Hd in H1, H2. cbn [andb].
  assert (∀ a b, b = (a + 4)%nat → (b ≤ 40)%nat →
            ∃ v, unpack_uint 4 (Struct.slice a b data) = Return v) as Hu.
  { intros a b -> Ha. unfold unpack_uint. rewrite length_slice, Hd.
    destruct (Nat.eqb_spec ((a + 4 - a) `min` (length f - a)) 4) as [_|Hn]; [by eexists|lia]. }
  assert (∀ a b, b = (a + 8)%nat → (b ≤ 40)%nat →
            ∃ v, unpack_double unpack_d (Struct.slice a b data) = Return v) as Hdbl.
  { intros a b -> Ha. unfold unpack_double. rewrite length_slice, Hd.
    destruct (Nat.eqb_spec ((a + 8 - a) `min` (length f - a)) 8) as [_|Hn]; [by eexists|lia]. }
  destruct (Hu 4 8)%nat as [v ->]; [lia..|].
  destruct (Hu 8 12)%nat as [nb ->]; [lia..|].
  destruct (Hu 12 16)%nat as [ni ->]; [lia..|]. cbn [mbind outcome_bind].
  destruct (Hdbl 16 24)%nat as [d1 ->]; [lia..|].
  destruct (Hdbl 24 32)%nat as [d2 ->]; [lia..|].
  destruct (Hdbl 32 40)%nat as [d3 ->]; [lia..|]. cbn [mbind outcome_bind].
  unfold unpack_uint. rewrite length_slice, Hd.
  destruct (Nat.eqb_spec ((44 - 40) `min` (length f - 40)) 4) as [Hn|_]; [lia|done].
Qed.

End HeaderErrors.

(** Witness for X20: a file that starts with the DAF identification
    word. *)
Lemma init_rejects_bad_magic_witness :
  EphReader.__init__ (λ _, 0%Q) (list_byte_of_string "DAF/SPK ") = EphReader.Raise EphReader.InvalidMagic.
Proof. apply (init_rejects_bad_magic (λ _, 0%Q)). vm_compute. discriminate. Defined.

(** Witness for X21: the magic bytes and nothing else. *)
Lemma init_rejects_truncated_header_witness :
  EphReader.__init__ (λ _, 0%Q) EphWriter.MAGIC = EphReader.Raise EphReader.StructError.
Proof. apply (init_rejects_truncated_header (λ _, 0%Q)); [reflexivity|cbn; lia]. Defined.

Section SamplingFacts.
Import Refit.
Local Open Scope Q_scope.

(** Property X22. The sample epochs of an interval stay inside it: for
    nodes in [-1, 1] and [jd_start <= jd_end], every epoch
    [jd_mid + jd_half * node] lies in [jd_start, jd_end], so the sampler
    never queries the source outside the interval it fits. Doubles are
    modelled as rationals. *)
Theorem jd_samples_in_interval (nodes : list Q) (jd_start jd_end : Q) :
  jd_start <= jd_end → Forall (λ x, -1 <= x ∧ x <= 1) nodes →
  Forall (λ jd, jd_start <= jd ∧ jd <= jd_end) (jd_samples nodes jd_start jd_end).
Proof.
  intros Hse Hall. unfold jd_samples. apply Forall_fmap.
  eapply Forall_impl; [exact Hall|]. intros x [H1 H2].
  set (half := (jd_end - jd_start) / 2).
  assert (0 <= half) as Hh by (unfold half; apply Qle_shift_div_l; Lqa.lra).
  assert ((jd_start + jd_end) / 2 == jd_start + half) as Hmid by (unfold half; field).
  assert (jd_end == jd_start + 2 * half) as Hend by (unfold half; field).
  assert (0 <= half * (x + 1)) as Hlo by (apply Qmult_le_0_compat; Lqa.lra).
  assert (0 <= half * (1 - x)) as Hhi by (apply Qmult_le_0_compat; Lqa.lra).
  assert (half * (x + 1) == half * x + half) as E1 by ring.
  assert (half * (1 - x) == half - half * x) as E2 by ring.
  rewrite E1 in Hlo. rewrite E2 in Hhi.
  unfold compose. cbv beta zeta. fold half. rewrite Hmid. split; Lqa.lra.
Qed.

(** Witness for X22: the eight nodes of the refit on a 16-day interval. *)
Lemma jd_samples_in_interval_witness :
  Forall (λ jd, 2451545 <= jd ∧ jd <= 2451561)
         (jd_samples DemoInputs.nodes_8 2451545 2451561).
Proof.
  apply jd_samples_in_interval.
  - vm_compute. discriminate.
  - repeat constructor; vm_compute; discriminate.
Defined.

End SamplingFacts.
